(** * The bokehjs devtools test runner and its seeded shuffle

    A shallow embedding of [bokehjs/test/devtools/devtools.ts] (the remote
    test runner: [Random], [shuffle], [iter], [to_seq], [run_tests],
    [check_version], [run]) together with a model of the document loading
    contract that the regression test of issue #11803 exercises.  The marker
    loop of [LRTBGL._set_data]
    ([bokehjs/src/lib/models/glyphs/webgl/lrtb.ts]) is modelled as well.

    JavaScript numbers that the runner computes with are IEEE 754 binary64
    values; they are modelled by [spec_float] at precision 53, so that
    [Random.float] and the index computation of [shuffle] are evaluated
    bit for bit.  The seed of the generator is whatever [Number(argv.seed)]
    gives, which need not be an integer, so the state of [Random] is a
    double as well. *)

From Stdlib Require Import ZArith List Lia Bool Ascii String Sorted.
From Stdlib Require Import Floats.SpecFloat.
From stdpp Require Import base strings list gmap pretty.

Import ListNotations.
Local Open Scope Z_scope.

(** ** JavaScript numbers and arrays *)

Module Js.

Definition prec : Z := 53.
Definition emax : Z := 1024.

(** A double. *)
Definition number : Type := spec_float.

(** The double nearest to an integer (exact below 2^53). *)
Definition of_Z (z : Z) : number := binary_normalize prec emax z 0 false.

Definition div (x y : number) : number := SFdiv prec emax x y.
Definition mul (x y : number) : number := SFmul prec emax x y.
Definition add (x y : number) : number := SFadd prec emax x y.
Definition sub (x y : number) : number := SFsub prec emax x y.

(** [x <= y]: false when either side is NaN. *)
Definition leb (x y : number) : bool := SFleb x y.

(** [x % y]: NaN when [x] is not finite or [y] is a zero or NaN, [x]
    itself when [y] is infinite or [x] is a zero; otherwise what is left
    of [x] once the largest whole multiple of [y] that does not exceed it
    in magnitude is taken away, with the sign of [x].  That value is
    always a double, so no rounding takes place. *)
Definition rem (x y : number) : number :=
  match x, y with
  | S754_nan, _ | _, S754_nan => S754_nan
  | S754_infinity _, _ => S754_nan
  | _, S754_zero _ => S754_nan
  | _, S754_infinity _ => x
  | S754_zero _, _ => x
  | S754_finite sx mx ex, S754_finite _ my ey =>
      let e := Z.min ex ey in
      let r := Z.rem (Z.pos mx * 2 ^ (ex - e)) (Z.pos my * 2 ^ (ey - e)) in
      if r =? 0 then S754_zero sx
      else binary_normalize prec emax (if sx then - r else r) e false
  end.

(** [Math.floor]: NaN, the infinities and the zeros are returned as they
    are, a finite value is rounded towards minus infinity. *)
Definition floor (x : number) : number :=
  match x with
  | S754_finite s m e =>
      if 0 <=? e then x
      else of_Z ((if s then Z.neg m else Z.pos m) / 2 ^ (- e))
  | _ => x
  end.

(** The integer a double stands for, when it stands for one. *)
Definition to_Z (x : number) : option Z :=
  match x with
  | S754_zero _ => Some 0
  | S754_finite s m e =>
      let sm := if s then Z.neg m else Z.pos m in
      if 0 <=? e then Some (sm * 2 ^ e)
      else if sm mod 2 ^ (- e) =? 0 then Some (sm / 2 ^ (- e))
      else None
  | _ => None
  end.

(** A property key [k] of an array is an array index when it is an
    integer in [0, 2^32 - 2]. *)
Definition to_index (k : number) : option nat :=
  match to_Z k with
  | Some z => if (0 <=? z) && (z <=? 4294967294) then Some (Z.to_nat z) else None
  | None => None
  end.

Definition number_eqb (x y : number) : bool :=
  match x, y with
  | S754_zero a, S754_zero b => Bool.eqb a b
  | S754_infinity a, S754_infinity b => Bool.eqb a b
  | S754_nan, S754_nan => true
  | S754_finite a m e, S754_finite b n f =>
      Bool.eqb a b && Pos.eqb m n && Z.eqb e f
  | _, _ => false
  end.

(** What an array holds at an index below its length: nothing (a hole),
    or a value, which may be [undefined] ([None]). *)
Inductive slot (A : Type) : Type :=
| hole
| elem (v : option A).
Arguments hole {A}.
Arguments elem {A} v.

(** An array object: the indexed elements, and the properties stored
    under keys that are not array indices (such as [-1]), newest first. *)
Record array (A : Type) : Type := mk_array {
  items : list (slot A);
  props : list (number * option A)
}.
Arguments mk_array {A} items props.
Arguments items {A} a.
Arguments props {A} a.

Definition of_list {A} (l : list A) : array A :=
  mk_array (map (fun a => elem (Some a)) l) [].

(** [array.length] *)
Definition length {A} (a : array A) : nat := List.length (items a).

Fixpoint lookup_prop {A} (k : number) (ps : list (number * option A)) : option A :=
  match ps with
  | [] => None
  | (k', v) :: ps' => if number_eqb k k' then v else lookup_prop k ps'
  end.

(** [array[k]]: a hole, a missing property and an index past the end all
    read as [undefined]. *)
Definition get {A} (a : array A) (k : number) : option A :=
  match to_index k with
  | Some i =>
      match nth_error (items a) i with
      | Some (elem v) => v
      | _ => None
      end
  | None => lookup_prop k (props a)
  end.

Fixpoint set_item {A} (l : list (slot A)) (i : nat) (v : option A) : list (slot A) :=
  match l, i with
  | [], O => [elem v]
  | [], S i' => hole :: set_item [] i' v
  | _ :: l', O => elem v :: l'
  | x :: l', S i' => x :: set_item l' i' v
  end.

(** [array[k] = v]: an index past the end extends the array, leaving
    holes; a key that is no index becomes a named property. *)
Definition set {A} (a : array A) (k : number) (v : option A) : array A :=
  match to_index k with
  | Some i => mk_array (set_item (items a) i v) (props a)
  | None => mk_array (items a) ((k, v) :: props a)
  end.

Definition slot_map {A B} (f : A -> B) (s : slot A) : slot B :=
  match s with
  | hole => hole
  | elem v => elem (option_map f v)
  end.

Definition array_map {A B} (f : A -> B) (a : array A) : array B :=
  mk_array (map (slot_map f) (items a))
           (map (fun kv => (fst kv, option_map f (snd kv))) (props a)).

End Js.

(** ** [Random] and [shuffle] *)

Module Random.

Definition MAX_INT32 : Z := 2147483647.

(** [class Random]: the only field is [seed], a number. *)
Record t : Type := mk { seed : Js.number }.

(** [constructor(seed)] *)
Definition new (seed0 : Js.number) : t :=
  let s := Js.rem seed0 (Js.of_Z MAX_INT32) in
  if Js.leb s (Js.of_Z 0) then mk (Js.add s (Js.of_Z (MAX_INT32 - 1))) else mk s.

(** [integer()]: returns the new state. *)
Definition integer (r : t) : Js.number * t :=
  let s := Js.rem (Js.mul (Js.of_Z 48271) (seed r)) (Js.of_Z MAX_INT32) in
  (s, mk s).

(** [float()] *)
Definition float (r : t) : Js.number * t :=
  let '(n, r') := integer r in
  (Js.div (Js.sub n (Js.of_Z 1)) (Js.of_Z (MAX_INT32 - 1)), r').

(** The index [j] drawn at step [i] of [shuffle]. *)
Definition draw (i : nat) (r : t) : Js.number * t :=
  let '(x, r') := float r in
  (Js.floor (Js.mul x (Js.of_Z (Z.of_nat i + 1))), r').

(** One exchange of [shuffle]'s loop body, for [j] already drawn. *)
Definition exchange {A} (a : Js.array A) (i : nat) (j : Js.number) : Js.array A :=
  let temp := Js.get a (Js.of_Z (Z.of_nat i)) in
  let a1 := Js.set a (Js.of_Z (Z.of_nat i)) (Js.get a j) in
  Js.set a1 j temp.

(** The loop of [shuffle], for [i] counting down to 1. *)
Fixpoint shuffle_from {A} (i : nat) (a : Js.array A) (r : t) : Js.array A * t :=
  match i with
  | O => (a, r)
  | S i' =>
      let '(j, r') := draw i r in
      shuffle_from i' (exchange a i j) r'
  end.

(** [shuffle(array, random)]: the array and the generator are both
    updated in place, so both are returned. *)
Definition shuffle {A} (a : Js.array A) (r : t) : Js.array A * t :=
  shuffle_from (Js.length a - 1) a r.

(** The exchanges [(i, j)] that [shuffle] performs on an array of
    length [n], in order. *)
Fixpoint swaps_from (i : nat) (r : t) : list (nat * Js.number) :=
  match i with
  | O => []
  | S i' => let '(j, r') := draw i r in (i, j) :: swaps_from i' r'
  end.

Definition swaps (n : nat) (r : t) : list (nat * Js.number) :=
  swaps_from (n - 1) r.

Definition apply_swaps {A} (sw : list (nat * Js.number)) (a : Js.array A) : Js.array A :=
  fold_left (fun a ij => exchange a (fst ij) (snd ij)) sw a.

End Random.

(** ** Suites, tests and their positions *)

Module Suites.

(** [type Test].  Objects received from the page are told apart by
    identity ([indexOf] compares with [===]), so every object carries
    the reference [ref] it lives at; the other fields are the
    properties of the object. *)
Record Test : Type := mk_test {
  test_ref : nat;
  test_description : string;
  skip : bool;
  threshold : option Z;
  retries : option Z;
  dpr : option Js.number
}.

(** [type Suite] *)
#[local] Unset Elimination Schemes.
Inductive Suite : Type :=
| mk_suite (ref : nat) (description : string) (suites : list Suite) (tests : list Test).
#[local] Set Elimination Schemes.

Definition suite_ref (s : Suite) : nat :=
  match s with mk_suite r _ _ _ => r end.
Definition suite_description (s : Suite) : string :=
  match s with mk_suite _ d _ _ => d end.
Definition suites (s : Suite) : list Suite :=
  match s with mk_suite _ _ ss _ => ss end.
Definition tests (s : Suite) : list Test :=
  match s with mk_suite _ _ _ ts => ts end.

(** [test.skip = true] *)
Definition set_skip (t : Test) : Test :=
  mk_test (test_ref t) (test_description t) true (threshold t) (retries t) (dpr t).

(** [function* iter({suites, tests}, parents = [])], without the status
    component of the items, which the runner adds. *)
Fixpoint iter (s : Suite) (parents : list Suite) : list (list Suite * Test) :=
  match s with
  | mk_suite _ _ ss ts =>
      flat_map (fun c => iter c (parents ++ [c])) ss
      ++ map (fun t => (parents, t)) ts
  end.

(** [descriptions(suites, test)] *)
Definition descriptions (ss : list Suite) (t : Test) : list string :=
  map suite_description ss ++ [test_description t].

(** [description(suites, test, sep = " ")] *)
Definition description (ss : list Suite) (t : Test) (sep : string) : string :=
  String.concat sep (descriptions ss t).

(** [encode(s)]: every blank, slash and square bracket becomes [_]. *)
Definition encode_char (c : ascii) : ascii :=
  if (Ascii.eqb c " " || Ascii.eqb c "/" || Ascii.eqb c "[" || Ascii.eqb c "]")%bool
  then "_"%char else c.

Fixpoint encode (s : string) : string :=
  match s with
  | EmptyString => EmptyString
  | String c s' => String (encode_char c) (encode s')
  end.

(** [Array.prototype.indexOf] on objects: the first position holding the
    object with the given reference, [-1] when there is none. *)
Fixpoint index_of {A} (ref_of : A -> nat) (r : nat) (l : list A) : Z :=
  match l with
  | [] => -1
  | x :: l' =>
      if Nat.eqb (ref_of x) r then 0
      else let i := index_of ref_of r l' in
           if i <? 0 then -1 else i + 1
  end.

(** The loop of [to_seq]: the indices collected so far and [current]. *)
Fixpoint to_seq_suites (current : Suite) (ss : list Suite) : list Z * Suite :=
  match ss with
  | [] => ([], current)
  | s :: ss' =>
      let i := index_of suite_ref (suite_ref s) (suites current) in
      let '(si, last) := to_seq_suites s ss' in
      (i :: si, last)
  end.

(** [to_seq(suites, test)] for the given [top_level]. *)
Definition to_seq (top_level : Suite) (ss : list Suite) (t : Test) : list Z * Z :=
  let '(si, current) := to_seq_suites top_level ss in
  (si, index_of test_ref (test_ref t) (tests current)).

(** [JSON.stringify] of the pair [to_seq] returns. *)
Definition stringify_seq (seq : list Z * Z) : string :=
  "[[" +:+ String.concat "," (map pretty (fst seq)) +:+ "]," +:+ pretty (snd seq) +:+ "]".

(** Following a sequence identifier from a suite: the suites walked
    through, and the test found in the last one. *)
Fixpoint locate_from (current : Suite) (si : list Z) (ti : Z) : option (list Suite * Test) :=
  match si with
  | [] =>
      if ti <? 0 then None
      else option_map (fun t => ([], t)) (nth_error (tests current) (Z.to_nat ti))
  | i :: si' =>
      if i <? 0 then None
      else match nth_error (suites current) (Z.to_nat i) with
           | Some s =>
               option_map (fun p => (s :: fst p, snd p)) (locate_from s si' ti)
           | None => None
           end
  end.

Definition locate (top_level : Suite) (seq : list Z * Z) : option (list Suite * Test) :=
  locate_from top_level (fst seq) (snd seq).

(** Objects of one array are pairwise distinct, at every level: what a
    tree received by value from the page satisfies. *)
Fixpoint distinct_objects (s : Suite) : Prop :=
  match s with
  | mk_suite _ _ ss ts =>
      NoDup (map suite_ref ss) /\ NoDup (map test_ref ts)
      /\ fold_right (fun c P => distinct_objects c /\ P) True ss
  end.

(** The order of the positions in a tree: inside one suite the nested
    suites come first, in the order of [suites], then the tests, in the
    order of [tests]. *)
Fixpoint path_before (si : list Z) (ti : Z) (sj : list Z) (tj : Z) : Prop :=
  match si, sj with
  | [], [] => ti < tj
  | [], _ :: _ => False
  | _ :: _, [] => True
  | i :: si', j :: sj' => i < j \/ (i = j /\ path_before si' ti sj' tj)
  end.

Definition seq_before (a b : list Z * Z) : Prop :=
  path_before (fst a) (snd a) (fst b) (snd b).

End Suites.

(** ** The test runner *)

Module Runner.
Import Suites.

(** A Node [Buffer]. *)
Definition Buffer : Type := list Byte.byte.

Definition buffer_equals (a b : Buffer) : bool :=
  if List.list_eq_dec Byte.byte_eq_dec a b then true else false.

(** [interface CallFrame], [interface Err] *)
Record CallFrame : Type := {
  frame_name : string; frame_url : string; frame_line : Z; frame_col : Z
}.

Record Err : Type := {
  text : string; url : string; line : Z; col : Z; trace : list CallFrame
}.

(** [type LogEntry] *)
Inductive Level : Type := warning | error.

Record LogEntry : Type := { level : Level; entry_text : string }.

Definition is_error (e : LogEntry) : bool :=
  match level e with error => true | warning => false end.

(** What [evaluate] resolves to: [Value], [Failure] or [Timeout]. *)
Inductive Output (T : Type) : Type :=
| Value (value : T)
| Failure (failure_text : string)
| Timeout.
Arguments Value {T} value.
Arguments Failure {T} failure_text.
Arguments Timeout {T}.

(** What is thrown: [Exit], or any other error, kept by its message. *)
Inductive Thrown : Type :=
| Exit (code : Z)
| Error (message : string).

(** The [error] component of a [Result]. *)
Record ResultError : Type := { str : string; stack : option string }.

(** What [diff_image] returns when it is not [null]. *)
Record ImageDiff : Type := { diff : Buffer; pixels : Z; percent : Js.number }.

(** [type Status] *)
Record Status : Type := mk_status {
  success : option bool;
  failure : option bool;
  timeout : option bool;
  skipped : option bool;
  errors : list string;
  baseline_name : option string;
  baseline : option string;
  baseline_diff : option string;
  reference : option Buffer;
  image : option Buffer;
  image_diff : option Buffer
}.

(** [{errors: []}] *)
Definition new_status : Status :=
  mk_status None None None None [] None None None None None None.

(** [status.errors.push(...es)] *)
Definition push_errors (es : list string) (s : Status) : Status :=
  mk_status (success s) (failure s) (timeout s) (skipped s) (errors s ++ es)
    (baseline_name s) (baseline s) (baseline_diff s) (reference s) (image s) (image_diff s).

(** [status.failure = true] *)
Definition set_failure (s : Status) : Status :=
  mk_status (success s) (Some true) (timeout s) (skipped s) (errors s)
    (baseline_name s) (baseline s) (baseline_diff s) (reference s) (image s) (image_diff s).

(** [status.timeout = true] *)
Definition set_timeout (s : Status) : Status :=
  mk_status (success s) (failure s) (Some true) (skipped s) (errors s)
    (baseline_name s) (baseline s) (baseline_diff s) (reference s) (image s) (image_diff s).

(** [status.skipped = true] *)
Definition set_skipped (s : Status) : Status :=
  mk_status (success s) (failure s) (timeout s) (Some true) (errors s)
    (baseline_name s) (baseline s) (baseline_diff s) (reference s) (image s) (image_diff s).

Definition set_baseline_name (n : string) (s : Status) : Status :=
  mk_status (success s) (failure s) (timeout s) (skipped s) (errors s)
    (Some n) (baseline s) (baseline_diff s) (reference s) (image s) (image_diff s).

Definition set_baseline (b : string) (s : Status) : Status :=
  mk_status (success s) (failure s) (timeout s) (skipped s) (errors s)
    (baseline_name s) (Some b) (baseline_diff s) (reference s) (image s) (image_diff s).

Definition set_baseline_diff (d : string) (s : Status) : Status :=
  mk_status (success s) (failure s) (timeout s) (skipped s) (errors s)
    (baseline_name s) (baseline s) (Some d) (reference s) (image s) (image_diff s).

Definition set_reference (b : Buffer) (s : Status) : Status :=
  mk_status (success s) (failure s) (timeout s) (skipped s) (errors s)
    (baseline_name s) (baseline s) (baseline_diff s) (Some b) (image s) (image_diff s).

Definition set_image (b : Buffer) (s : Status) : Status :=
  mk_status (success s) (failure s) (timeout s) (skipped s) (errors s)
    (baseline_name s) (baseline s) (baseline_diff s) (reference s) (Some b) (image_diff s).

Definition set_image_diff (b : Buffer) (s : Status) : Status :=
  mk_status (success s) (failure s) (timeout s) (skipped s) (errors s)
    (baseline_name s) (baseline s) (baseline_diff s) (reference s) (image s) (Some b).

(** [x ?? false] *)
Definition or_false (x : option bool) : bool :=
  match x with Some b => b | None => false end.

(** [(status.failure ?? false) || (status.timeout ?? false)] *)
Definition failed (s : Status) : bool :=
  or_false (failure s) || or_false (timeout s).

(** [type TestItem = [Suite[], Test, Status]] *)
Definition TestItem : Type := list Suite * Test * Status.

Definition item_suites (it : TestItem) : list Suite := fst (fst it).
Definition item_test (it : TestItem) : Test := snd (fst it).
Definition item_status (it : TestItem) : Status := snd it.

(** The name a test case is given at the head of the loop body:
    [encode(description(suites, test, "__"))]. *)
Definition baseline_name_of (it : TestItem) : string :=
  encode (description (item_suites it) (item_test it) "__").

(** The options of the command line ([argv]) that the runner reads. *)
Record Config : Type := {
  target : string;
  git_ref : string;
  randomize : bool;
  (** [Number(argv.seed)], when [--seed] is given *)
  seed : option Js.number;
  k : option (list string);
  grep : option (list string);
  baselinesRoot : option string;
  screenshot : option string;
  retry : bool;
  info : bool
}.

Definition chromium_min_version : Z := 107.

(** *** [check_version] *)

Definition is_digit (c : ascii) : bool :=
  let n := nat_of_ascii c in (48 <=? n)%nat && (n <=? 57)%nat.

(** The longest run of digits at the head of a text, and the rest. *)
Fixpoint digits (s : list ascii) : list ascii * list ascii :=
  match s with
  | c :: s' =>
      if is_digit c then let '(d, rest) := digits s' in (c :: d, rest)
      else ([], s)
  | [] => ([], [])
  end.

Fixpoint strip_prefix (p s : list ascii) : option (list ascii) :=
  match p, s with
  | [], _ => Some s
  | a :: p', b :: s' => if Ascii.eqb a b then strip_prefix p' s' else None
  | _ :: _, [] => None
  end.

(** [\d+] followed by a dot when [dot] is set: the digits and the rest. *)
Definition number_then (dot : bool) (s : list ascii) : option (list ascii * list ascii) :=
  match digits s with
  | ([], _) => None
  | (d, rest) =>
      if dot then
        match rest with
        | c :: rest' => if Ascii.eqb c "." then Some (d, rest') else None
        | [] => None
        end
      else Some (d, rest)
  end.

(** The pattern [Chrome\/(?<major>\d+)\.(\d+)\.(\d+)\.(\d+)] tried at the
    head of a text: the group [major]. *)
Definition match_here (s : list ascii) : option (list ascii) :=
  match strip_prefix (list_ascii_of_string "Chrome/") s with
  | Some s1 =>
      match number_then true s1 with
      | Some (major, s2) =>
          match number_then true s2 with
          | Some (_, s3) =>
              match number_then true s3 with
              | Some (_, s4) =>
                  match number_then false s4 with
                  | Some _ => Some major
                  | None => None
                  end
              | None => None
              end
          | None => None
          end
      | None => None
      end
  | None => None
  end.

(** [version.match(...)]: the leftmost position where the pattern holds. *)
Fixpoint match_version (s : list ascii) : option (list ascii) :=
  match match_here s with
  | Some major => Some major
  | None => match s with
            | [] => None
            | _ :: s' => match_version s'
            end
  end.

(** [parseInt] of a text made of digits. *)
Definition parse_int (d : list ascii) : Z :=
  fold_left (fun acc c => 10 * acc + (Z.of_nat (nat_of_ascii c) - 48)) d 0.

(** [parseInt(match?.groups?.major ?? "0")] *)
Definition major_of (version : string) : Z :=
  match match_version (list_ascii_of_string version) with
  | Some major => parse_int major
  | None => parse_int (list_ascii_of_string "0")
  end.

(** [check_version(version)], without the message it prints. *)
Definition check_version (version : string) : bool :=
  chromium_min_version <=? major_of version.

(** [s.includes(keyword)] *)
Definition includes (s keyword : string) : bool :=
  match String.index 0 keyword s with Some _ => true | None => false end.

Definition newline : string := String (ascii_of_nat 10) EmptyString.

(** What the runner imports and does not define: the types [State] and
    [Box] and [create_baseline] of [./baselines], [diff_image] of
    [./image], [platform] of [./sys], and, from the language and Node,
    [Number.prototype.toFixed], [path.join] and the matching of a
    regular expression given by its source text. *)
Class Collaborators : Type := {
  State : Type;
  Box : Type;
  create_baseline : list State -> string;
  diff_image : Buffer -> Buffer -> option ImageDiff;
  to_fixed : Js.number -> Z -> string;
  path_join : list string -> string;
  platform : string;
  (** [new RegExp(pattern)] returns, rather than throws a SyntaxError *)
  regexp_valid : string -> bool;
  regexp_match : string -> string -> bool;
  (** the text of a number inside a template literal *)
  number_to_string : Js.number -> string
}.

Section Runs.

Context `{Collaborators}.

(** [type Result] *)
Record Result : Type := {
  result_error : option ResultError;
  time : Js.number;
  state : option State;
  bbox : option Box
}.

(** What the page and the file system answer during one call of
    [run_test]. *)
Record Attempt : Type := {
  (** console entries and exceptions received while the test ran *)
  new_entries : list LogEntry;
  new_exceptions : list Err;
  (** [evaluate(`Tests.run(${seq})`)] *)
  run_output : Output Result;
  (** [evaluate(`Tests.get_state(${seq})`)] *)
  state_output : Output (option State);
  (** [load_baseline(baseline_file, ref)] *)
  existing_baseline : option string;
  (** [diff_baseline(baseline_file, ref)] *)
  baseline_diff_text : string;
  (** [Page.captureScreenshot], decoded *)
  captured : Buffer;
  (** [load_baseline_image(image_file, ref)] *)
  existing_image : option Buffer;
  (** [evaluate(`Tests.clear(${seq})`)] *)
  clear_output : Output unit
}.

(** What the browser and the file system answer during one run. *)
Record World : Type := {
  (** [CDP.Version({port})]: the browser and protocol versions, or
      the error the promise is rejected with *)
  version : string + string * string;
  (** the error [CDP({port})] rejects with, if it does *)
  connect_error : option string;
  (** [errorText] of [Page.navigate({url})] *)
  navigate_error : option string;
  (** exceptions received while the page loaded *)
  load_exceptions : list Err;
  (** [evaluate("typeof Bokeh !== 'undefined'")] *)
  ready_output : Output bool;
  (** [evaluate("Tests.top_level")] *)
  top_level_output : Output Suite;
  (** the answers to the call of [run_test] number [a] (0 for the
      first one) for the test case at position [pos] of the run *)
  attempt_at : nat -> nat -> Attempt;
  (** [fs.promises.readdir] of the platform's baselines directory *)
  readdir : list string;
  (** [Date.now()] *)
  now : Z
}.

(** What the runner does that can be observed from outside, in order.
    [RunTest] marks a call of [run_test] with its [attempt] argument;
    [Report] stands for the text of [format_output], which is printed
    for a failed test case.  The progress bar, the [report.out] stream
    and the metrics samples are output only and are left out. *)
Inductive Event : Type :=
| Log (message : string)
| Evaluate (expression : string)
| OverrideMetrics (dpr : Js.number)
| RunTest (attempt : option nat)
| WriteFile (file : string) (data : string)
| WriteImage (file : string) (data : Buffer)
| LoadBaseline (file ref : string)
| DiffBaseline (file ref : string)
| LoadBaselineImage (file ref : string)
| CaptureScreenshot (clip : Box)
| Report (descriptions : list string) (errors : list string)
| WriteReport (file : string)
| ProcessExit (code : Z).

(** The state that one test case of the loop works on: its [status],
    the [entries] and [exceptions] collected so far, the [may_retry]
    of the call of [run_test] in progress, what has been observed, and
    what is being thrown. *)
Record Run : Type := mk_run {
  status : Status;
  entries : list LogEntry;
  exceptions : list Err;
  may_retry : bool;
  events : list Event;
  thrown : option Thrown
}.

Definition update (f : Status -> Status) (r : Run) : Run :=
  mk_run (f (status r)) (entries r) (exceptions r) (may_retry r) (events r) (thrown r).

Definition emit (e : Event) (r : Run) : Run :=
  mk_run (status r) (entries r) (exceptions r) (may_retry r) (events r ++ [e]) (thrown r).

Definition set_may_retry (b : bool) (r : Run) : Run :=
  mk_run (status r) (entries r) (exceptions r) b (events r) (thrown r).

Definition throw (t : Thrown) (r : Run) : Run :=
  mk_run (status r) (entries r) (exceptions r) (may_retry r) (events r) (Some t).

Definition receive (a : Attempt) (r : Run) : Run :=
  mk_run (status r) (entries r ++ new_entries a) (exceptions r ++ new_exceptions a)
    (may_retry r) (events r) (thrown r).

Section TestCase.

Variable cfg : Config.
Variable top_level : Suite.
Variable suites : list Suite.
Variable test : Test.
Variable baseline_name : string.

Definition seq : string := stringify_seq (to_seq top_level suites test).

(** [status.errors.push("state not present in output"); status.failure = true] *)
Definition state_not_present (r : Run) : Run :=
  update set_failure (update (push_errors ["state not present in output"]) r).

(** The comparison of the two states and of the stored baseline
    (the function called right away, from [create_baseline] on). *)
Definition compare_baseline (baseline_path : string) (state_early state : State)
    (a : Attempt) (r : Run) : Run :=
  let baseline_early := create_baseline [state_early] in
  let baseline := create_baseline [state] in
  if negb (String.eqb baseline_early baseline) then
    let r := update (push_errors ["inconsistent state"]) r in
    let r := update (push_errors ["early:"; baseline_early]) r in
    let r := update (push_errors ["later:"; baseline]) r in
    update set_failure r
  else
    let baseline_file := baseline_path +:+ ".blf" in
    let r := emit (WriteFile baseline_file baseline) r in
    let r := update (set_baseline baseline) r in
    let r := emit (LoadBaseline baseline_file (git_ref cfg)) r in
    let existing := existing_baseline a in
    if match existing with
       | Some e => negb (String.eqb e baseline)
       | None => true
       end
    then
      let r := match existing with
               | None => update (push_errors ["missing baseline"]) r
               | Some _ =>
                   match retries test with
                   | Some _ => set_may_retry true r
                   | None => r
                   end
               end in
      let r := emit (DiffBaseline baseline_file (git_ref cfg)) r in
      let diff := baseline_diff_text a in
      let r := update set_failure r in
      let r := update (set_baseline_diff diff) r in
      update (push_errors [diff]) r
    else r.

(** The message recorded for an image above the threshold. *)
Definition images_differ (d : ImageDiff) (attempt : option nat) : string :=
  "images differ by " +:+ pretty (pixels d) +:+ "px ("
  +:+ to_fixed (percent d) 2 +:+ "%)"
  +:+ match attempt with
      | Some i => " (attempt=" +:+ pretty i +:+ ")"
      | None => EmptyString
      end.

(** The [case "test"] of the switch on [argv.screenshot]. *)
Definition test_screenshot (attempt : option nat) (image_file : string)
    (current : Buffer) (existing : option Buffer) (r : Run) : Run :=
  match existing with
  | None =>
      let r := update set_failure r in
      let r := update (push_errors ["missing baseline image"]) r in
      emit (WriteImage image_file current) r
  | Some existing =>
      let r := update (set_reference existing) r in
      if negb (buffer_equals existing current) then
        match diff_image existing current with
        | Some diff_result =>
            let r := set_may_retry true r in
            let threshold := match threshold test with Some t => t | None => 0 end in
            if threshold <? pixels diff_result then
              let r := emit (WriteImage image_file current) r in
              let r := update set_failure r in
              let r := update (set_image_diff (diff diff_result)) r in
              update (push_errors [images_differ diff_result attempt]) r
            else r
        | None => r
        end
      else r
  end.

(** The screenshot step (the second function called right away). *)
Definition compare_screenshot (attempt : option nat) (baseline_path : string)
    (result : Result) (a : Attempt) (r : Run) : Run :=
  match bbox result with
  | None => r
  | Some box =>
      let r := emit (CaptureScreenshot box) r in
      let current := captured a in
      let r := update (set_image current) r in
      let image_file := baseline_path +:+ ".png" in
      let r := emit (LoadBaselineImage image_file (git_ref cfg)) r in
      let existing := existing_image a in
      match screenshot cfg with
      | None => test_screenshot attempt image_file current existing r
      | Some mode =>
          if String.eqb mode "test" then
            test_screenshot attempt image_file current existing r
          else if String.eqb mode "save" then
            emit (WriteImage image_file current) r
          else if String.eqb mode "skip" then r
          else throw (Error ("invalid argument --screenshot=" +:+ mode)) r
      end
  end.

(** What is done with a [Value]: the [else] branch of the [try]. *)
Definition check_result (attempt : option nat) (result : Result)
    (a : Attempt) (r : Run) : Run :=
  let r := match result_error result with
           | Some e =>
               let msg := match stack e with Some st => st | None => str e end in
               update set_failure (update (push_errors [msg]) r)
           | None => r
           end in
  match baselinesRoot cfg with
  | None => r
  | Some baselines_root =>
      let baseline_path := path_join [baselines_root; platform; baseline_name] in
      let r :=
        match state result with
        | None => state_not_present r
        | Some state_early =>
            let r := emit (Evaluate ("Tests.get_state(" +:+ seq +:+ ")")) r in
            match state_output a with
            | Value (Some state) => compare_baseline baseline_path state_early state a r
            | _ => state_not_present r
            end
        end in
      compare_screenshot attempt baseline_path result a r
  end.

(** The body of the [try] of [run_test]. *)
Definition check_output (attempt : option nat) (a : Attempt) (r : Run) : Run :=
  let errs := filter is_error (entries r) in
  let r := match errs with
           | [] => r
           | _ => update (push_errors (map entry_text errs)) r
           end in
  let r := match exceptions r with
           | [] => r
           | excs => update set_failure (update (push_errors (map text excs)) r)
           end in
  match run_output a with
  | Failure t => update set_failure (update (push_errors [t]) r)
  | Timeout => update set_timeout (update (push_errors ["timeout"]) r)
  | Value result => check_result attempt result a r
  end.

(** [run_test(attempt, status)] on the answers [a]; the value it
    returns is [may_retry] of the result, unless something is
    thrown. *)
Definition run_test (attempt : option nat) (a : Attempt) (r : Run) : Run :=
  let r := emit (RunTest attempt) (set_may_retry false r) in
  let r := match dpr test with
           | Some d => emit (OverrideMetrics d) r
           | None => r
           end in
  let r := emit (Evaluate ("Tests.run(" +:+ seq +:+ ")")) r in
  let r := match dpr test with
           | Some _ => emit (OverrideMetrics (Js.of_Z 1)) r
           | None => r
           end in
  let r := receive a r in
  let r := check_output attempt a r in
  let r := emit (Evaluate ("Tests.clear(" +:+ seq +:+ ")")) r in
  match clear_output a with
  | Failure t => update set_failure (update (push_errors [t]) r)
  | _ => r
  end.

(** The [for] loop of the retries: [n] iterations are left, the next
    one is number [i]; [answers a] are the answers to call [a]. *)
Fixpoint retry_loop (answers : nat -> Attempt) (n i : nat) (r : Run) : Run :=
  match n with
  | O => r
  | S n' =>
      let r := run_test (Some i) (answers (S i)) r in
      match thrown r with
      | Some _ => r
      | None => if may_retry r then retry_loop answers n' (S i) r else r
      end
  end.

(** The [else] branch of [if (test.skip)]. *)
Definition run_attempts (answers : nat -> Attempt) (r : Run) : Run :=
  let r := run_test None (answers O) r in
  match thrown r with
  | Some _ => r
  | None =>
      if (retry cfg || bool_decide (is_Some (retries test))) && may_retry r then
        let n := match retries test with Some n => n | None => 10 end in
        retry_loop answers (Z.to_nat n) O r
      else r
  end.

End TestCase.

(** *** The loop over the test cases *)

(** The variables the loop updates, the test cases gone through with
    the status each one has by then, what has been observed, and what
    is being thrown. *)
Record Loop : Type := mk_loop {
  baseline_names : gset string;
  skipped_count : nat;
  failures : nat;
  processed : list TestItem;
  loop_events : list Event;
  loop_thrown : option Thrown
}.

(** What destructuring [undefined] throws; the engine's wording and the
    stack are not modelled. *)
Definition type_error : Thrown := Error "TypeError: undefined is not iterable".

(** What [new RegExp] throws for a pattern it refuses; again without the
    engine's wording. *)
Definition syntax_error : Thrown := Error "SyntaxError: Invalid regular expression".

Section Loops.

Variable cfg : Config.
Variable w : World.
Variable top_level : Suite.

(** The body of [for (const test_case of test_suite)] for the test
    case at position [pos]. *)
Definition run_case (pos : nat) (it : TestItem) (l : Loop) : Loop :=
  let suites := item_suites it in
  let test := item_test it in
  let baseline_name := encode (description suites test "__") in
  let st := set_baseline_name baseline_name (item_status it) in
  let dup := bool_decide (baseline_name ∈ baseline_names l) in
  let st :=
    if dup then set_failure (push_errors ["duplicated description"] st)
    else st in
  let names := if dup then baseline_names l else {[baseline_name]} ∪ baseline_names l in
  let r := mk_run st [] [] false (loop_events l) None in
  let r :=
    if skip test then update set_skipped r
    else run_attempts cfg top_level suites test baseline_name (attempt_at w pos) r in
  let gone := processed l ++ [(suites, test, status r)] in
  match thrown r with
  | Some t => mk_loop names (skipped_count l) (failures l) gone (events r) (Some t)
  | None =>
      mk_loop names
        (if or_false (skipped (status r)) then S (skipped_count l) else skipped_count l)
        (if failed (status r) then S (failures l) else failures l)
        gone (events r) None
  end.

(** [for (const test_case of test_suite)], from position [pos] on. *)
Fixpoint run_loop (pos : nat) (ts : list (Js.slot TestItem)) (l : Loop) : Loop :=
  match ts with
  | [] => l
  | Js.elem (Some it) :: ts' =>
      let l := run_case pos it l in
      match loop_thrown l with
      | Some _ => l
      | None => run_loop (S pos) ts' l
      end
  | _ :: _ =>
      mk_loop (baseline_names l) (skipped_count l) (failures l) (processed l)
        (loop_events l) (Some type_error)
  end.

(** A filter: [for (const [suites, test] of test_suite)] setting
    [test.skip] where [keep] fails; [None] when an element cannot be
    destructured. *)
Fixpoint mark_skipped (keep : string -> bool) (ts : list (Js.slot TestItem))
    : option (list (Js.slot TestItem)) :=
  match ts with
  | [] => Some []
  | Js.elem (Some it) :: ts' =>
      let it' :=
        if keep (description (item_suites it) (item_test it) " ") then it
        else (item_suites it, set_skip (item_test it), item_status it) in
      option_map (cons (Js.elem (Some it'))) (mark_skipped keep ts')
  | _ :: _ => None
  end.

(** [test_suite.some(([, test]) => !test.skip)]: holes are passed
    over; [None] when an element cannot be destructured. *)
Fixpoint some_not_skipped (ts : list (Js.slot TestItem)) : option bool :=
  match ts with
  | [] => Some false
  | Js.hole :: ts' => some_not_skipped ts'
  | Js.elem None :: _ => None
  | Js.elem (Some it) :: ts' =>
      if negb (skip (item_test it)) then Some true else some_not_skipped ts'
  end.

(** [fail(msg)]: the message is printed and [Exit(1)] is thrown. *)
Definition fail {T} (evs : list Event) (msg : string) : list Event * (Thrown + T) :=
  (evs ++ [Log msg], inl (Exit 1)).

(** From [CDP({port})] to [const top_level = result.value]. *)
Definition discover : list Event * (Thrown + Suite) :=
  match connect_error w with
  | Some e => ([], inl (Error e))
  | None =>
      match navigate_error w with
      | Some errorText => fail [] errorText
      | None =>
          match load_exceptions w with
          | _ :: _ =>
              fail (map (fun exc => Log (text exc)) (load_exceptions w))
                   ("failed to load " +:+ target cfg)
          | [] =>
              let evs := [Evaluate "preload_fonts()";
                          Evaluate "typeof Bokeh !== 'undefined'"] in
              match ready_output w with
              | Value true =>
                  let evs := evs ++ [Evaluate "Tests.top_level"] in
                  match top_level_output w with
                  | Value top => (evs, inr top)
                  | Failure t =>
                      fail evs ("internal error: failed to collect tests: " +:+ t)
                  | Timeout =>
                      fail evs "internal error: failed to collect tests: timeout"
                  end
              | _ => fail evs ("failed to render " +:+ target cfg)
              end
          end
      end
  end.

(** [argv.seed != null ? Number(argv.seed) : Date.now()] *)
Definition seed_of : Js.number :=
  match seed cfg with Some s => s | None => Js.of_Z (now w) end.

(** [const all_tests = [...iter(top_level)]] *)
Definition all_tests : Js.array TestItem :=
  Js.of_list (map (fun p => (fst p, snd p, new_status)) (iter top_level [])).

(** [test_suite] once shuffled, if asked for. *)
Definition shuffled : Js.array TestItem :=
  if randomize cfg then fst (Random.shuffle all_tests (Random.new seed_of))
  else all_tests.

(** The two filters.  The patterns of [--grep] are compiled once the
    keywords have been gone through, and before any test case is
    matched against them. *)
Definition filtered (ts : list (Js.slot TestItem)) : Thrown + list (Js.slot TestItem) :=
  let by_keyword :=
    match k cfg with
    | Some keywords =>
        mark_skipped (fun d => existsb (fun keyword => includes d keyword) keywords) ts
    | None => Some ts
    end in
  match by_keyword with
  | Some ts1 =>
      match grep cfg with
      | Some regexes =>
          if forallb regexp_valid regexes then
            match mark_skipped
                    (fun d => existsb (fun regex => regexp_match regex d) regexes) ts1 with
            | Some ts2 => inr ts2
            | None => inl type_error
            end
          else inl syntax_error
      | None => inr ts1
      end
  | None => inl type_error
  end.

(** The final report: one [Report] for every failed test case. *)
Definition report (gone : list TestItem) : list Event :=
  flat_map (fun it =>
    if failed (item_status it)
    then [Report (descriptions (item_suites it) (item_test it)) (errors (item_status it))]
    else []) gone.

(** The files of the baselines directory that the run does not
    account for. *)
Definition outdated (names : gset string) : list string :=
  filter (fun f =>
    negb (String.eqb f "report.json" || String.eqb f "report.out"
          || existsb (fun n => String.eqb f (n +:+ ".blf") || String.eqb f (n +:+ ".png"))
               (elements names))%bool = true)
    (remove_dups (readdir w)).

(** After the loop: the report, the results file, the outdated
    baselines and the final test on [failures]. *)
Definition finalize (l : Loop) : list Event * option Thrown :=
  let evs := loop_events l ++ report (processed l) in
  match baselinesRoot cfg with
  | Some baselines_root =>
      let evs := evs ++ [WriteReport (path_join [baselines_root; platform; "report.json"])] in
      match outdated (baseline_names l) with
      | [] => (evs, if (failures l =? 0)%nat then None else Some (Exit 1))
      | files =>
          (evs ++ [Log ("there are outdated baselines:" +:+ newline
                        +:+ String.concat newline files)],
           Some (Exit 1))
      end
  | None => (evs, if (failures l =? 0)%nat then None else Some (Exit 1))
  end.

(** From [const all_tests] to the end of the outer [try] block. *)
Definition run_suite (evs : list Event) : Loop :=
  let stop t ev := mk_loop ∅ O O [] (evs ++ ev) (Some t) in
  let evs1 :=
    if randomize cfg
    then [Log ("randomizing with seed " +:+ number_to_string seed_of)] else [] in
  match filtered (Js.items shuffled) with
  | inl t => stop t evs1
  | inr ts =>
      if (List.length ts =? 0)%nat then
        stop (Exit 1) (evs1 ++ [Log "nothing to test"])
      else
        match some_not_skipped ts with
        | None => stop type_error evs1
        | Some false =>
            stop (Exit 1) (evs1 ++ [Log "nothing to test because all tests were skipped"])
        | Some true =>
            let l := run_loop O ts (mk_loop ∅ O O [] (evs ++ evs1) None) in
            match loop_thrown l with
            | Some _ => l
            | None =>
                let '(evs2, t) := finalize l in
                mk_loop (baseline_names l) (skipped_count l) (failures l)
                  (processed l) evs2 t
            end
        end
  end.

End Loops.

(** What a run leaves behind: the value [run_tests] resolves to, what
    was observed, and the test cases gone through with their status. *)
Record Outcome : Type := {
  ok : bool;
  observed : list Event;
  cases : list TestItem
}.

(** The [catch] and the [return] of [run_tests]. *)
Definition settle (evs : list Event) (t : option Thrown) (gone : list TestItem) : Outcome :=
  match t with
  | None => Build_Outcome true evs gone
  | Some (Exit _) => Build_Outcome false evs gone
  | Some (Error msg) => Build_Outcome false (evs ++ [Log ("INTERNAL ERROR: " +:+ msg)]) gone
  end.

(** [run_tests()] *)
Definition run_tests (cfg : Config) (w : World) : Outcome :=
  match discover cfg w with
  | (evs, inl t) => settle evs (Some t) []
  | (evs, inr top_level) =>
      let l := run_suite cfg w top_level evs in
      settle (loop_events l) (loop_thrown l) (processed l)
  end.

(** [run()] and, for a rejected [get_version], the [catch] of [main];
    the colours of the messages are left out. *)
Definition run (cfg : Config) (w : World) : list Event :=
  match version w with
  | inl e => [Log ("CRITICAL ERROR: " +:+ e); ProcessExit 1]
  | inr (browser, protocol) =>
      let evs := [Log ("Running in " +:+ browser +:+ " using devtools protocol " +:+ protocol)] in
      let ok0 := check_version browser in
      let evs :=
        if ok0 then evs
        else evs ++ [Log ("failed: " +:+ browser
                          +:+ " is not supported, minimum supported version is "
                          +:+ pretty chromium_min_version)] in
      if info cfg then evs ++ [ProcessExit (if ok0 then 0 else 1)]
      else
        let out := run_tests cfg w in
        evs ++ observed out ++ [ProcessExit (if ok0 && ok out then 0 else 1)]
  end.

(** The code the process exits with. *)
Definition exit_code (evs : list Event) : option Z :=
  match last evs with
  | Some (ProcessExit c) => Some c
  | _ => None
  end.

(** [process.on("SIGINT", ...)]: a signal that arrives when [n] of the
    events of a run have been observed, and the process has not exited
    by then, prints an empty line and ends the process with code 130;
    [None] when no signal arrives. *)
Definition interrupted (signal : option nat) (evs : list Event) : list Event :=
  match signal with
  | Some n =>
      if (n <? List.length evs)%nat
      then firstn n evs ++ [Log EmptyString; ProcessExit 130]
      else evs
  | None => evs
  end.

End Runs.

End Runner.

(** ** Loading a document

    [Document.from_json] and the render loop are not part of the sources
    at hand; only the regression test of issue #11803, which calls them,
    is.  The definitions of this module follow the specification. *)

Module Document.

(** A value of a snapshot: a number, a text, a list, an object
    [{type: "object", name, id, attributes}] or a reference [{id}] to an
    object defined earlier in the snapshot. *)
#[local] Unset Elimination Schemes.
Inductive Json : Type :=
| JNum (z : Z)
| JStr (s : string)
| JList (l : list Json)
| JObject (name id : string) (attributes : list (string * Json))
| JRef (id : string).

(** A value of an attribute of a model. *)
Inductive Value : Type :=
| VNum (z : Z)
| VStr (s : string)
| VList (l : list Value)
| VModel (id : string).
#[local] Set Elimination Schemes.

(** Equality of values, by value. *)
Fixpoint value_eqb (a b : Value) : bool :=
  match a, b with
  | VNum x, VNum y => Z.eqb x y
  | VStr x, VStr y => String.eqb x y
  | VModel x, VModel y => String.eqb x y
  | VList x, VList y =>
      (fix all2 (x y : list Value) : bool :=
         match x, y with
         | [], [] => true
         | u :: x', v :: y' => value_eqb u v && all2 x' y'
         | _, _ => false
         end) x y
  | _, _ => false
  end.

(** Modelled from the spec: the model graph is missing from the
    sources.  A model is an identity-bearing node with a mapping from
    attribute names to values; its identity is the key it is stored
    under in the document. *)
Record Model : Type := mk_model {
  model_name : string;
  attributes : gmap string Value
}.

(** Modelled from the spec: the change-event stream is missing from the
    sources.  A value-changed record carries the model, the attribute
    and the new value; a message event carries a named payload. *)
Inductive DocumentEvent : Type :=
| ModelChangedEvent (id attr : string) (new : Value)
| MessageSentEvent (msg_type : string) (payload : string).

(** The message that says the document is ready. *)
Definition DocumentReady : DocumentEvent :=
  MessageSentEvent "bokeh_event" "document_ready".

Definition is_ready_event (e : DocumentEvent) : bool :=
  match e with
  | MessageSentEvent t p => String.eqb t "bokeh_event" && String.eqb p "document_ready"
  | ModelChangedEvent _ _ _ => false
  end.

(** Modelled from the spec: the document is missing from the sources.
    It owns the models and the roots, holds the log of the events
    emitted so far, suppresses events while a multi-step internal
    operation is in progress ([loading]), and remembers whether the
    ready signal of the initial load was sent ([settled]). *)
Record t : Type := mk {
  models : gmap string Model;
  roots : list string;
  log : list DocumentEvent;
  loading : bool;
  settled : bool
}.

Definition empty : t := mk ∅ [] [] false false.

(** Modelled from the spec: [set(attr, value)] is missing from the
    sources.  The new value is stored; a notification is emitted unless
    the write does not change the value, or events are suppressed. *)
Definition set (id attr : string) (v : Value) (d : t) : t :=
  match models d !! id with
  | None => d
  | Some m =>
      let same := match attributes m !! attr with
                  | Some old => value_eqb old v
                  | None => false
                  end in
      let ms := <[id := mk_model (model_name m) (<[attr := v]> (attributes m))]> (models d) in
      if same || loading d then mk ms (roots d) (log d) (loading d) (settled d)
      else mk ms (roots d) (log d ++ [ModelChangedEvent id attr v]) (loading d) (settled d)
  end.

(** Modelled from the spec: the decoding of a snapshot is missing from
    the sources.  An object becomes a model whose attributes are written
    with [set]; a reference must name a model defined earlier, and an
    identity may be defined only once. *)
Fixpoint decode (j : Json) (d : t) : option (Value * t) :=
  match j with
  | JNum z => Some (VNum z, d)
  | JStr s => Some (VStr s, d)
  | JRef id =>
      match models d !! id with
      | Some _ => Some (VModel id, d)
      | None => None
      end
  | JList l =>
      (fix decode_list (l : list Json) (d : t) : option (Value * t) :=
         match l with
         | [] => Some (VList [], d)
         | j' :: l' =>
             match decode j' d with
             | Some (v, d1) =>
                 match decode_list l' d1 with
                 | Some (VList vs, d2) => Some (VList (v :: vs), d2)
                 | _ => None
                 end
             | None => None
             end
         end) l d
  | JObject name id attrs =>
      match models d !! id with
      | Some _ => None
      | None =>
          let d0 := mk (<[id := mk_model name ∅]> (models d)) (roots d) (log d)
                       (loading d) (settled d) in
          (fix decode_attrs (attrs : list (string * Json)) (d : t) : option (Value * t) :=
             match attrs with
             | [] => Some (VModel id, d)
             | (attr, j') :: attrs' =>
                 match decode j' d with
                 | Some (v, d1) => decode_attrs attrs' (set id attr v d1)
                 | None => None
                 end
             end) attrs d0
      end
  end.

(** The roots of a snapshot, one after the other. *)
Fixpoint decode_roots (js : list Json) (d : t) : option t :=
  match js with
  | [] => Some d
  | j :: js' =>
      match decode j d with
      | Some (VModel id, d1) =>
          decode_roots js' (mk (models d1) (roots d1 ++ [id]) (log d1) (loading d1) (settled d1))
      | _ => None
      end
  end.

(** Modelled from the spec: [from_snapshot(json)] ([Document.from_json]
    in the test) is missing from the sources.  The graph is populated as
    one multi-step internal operation, during which events are
    suppressed; a snapshot that is not valid gives no document. *)
Definition from_snapshot (snapshot_roots : list Json) : option t :=
  match decode_roots snapshot_roots (mk ∅ [] [] true false) with
  | Some d => Some (mk (models d) (roots d) (log d) false (settled d))
  | None => None
  end.

(** Modelled from the spec: the render loop is missing from the
    sources.  A full render pass writes the derived values it computed
    (such as the bounds of auto-computed ranges), each write being an
    incremental mutation; when the first pass after a load completes,
    the ready signal is emitted. *)
Definition render_pass (derived : list (string * string * Value)) (d : t) : t :=
  let d1 := fold_left (fun d c => set (fst (fst c)) (snd (fst c)) (snd c) d) derived d in
  if settled d1 then d1
  else mk (models d1) (roots d1) (log d1 ++ [DocumentReady]) (loading d1) true.

(** Several render passes in a row. *)
Definition render_passes (passes : list (list (string * string * Value))) (d : t) : t :=
  fold_left (fun d p => render_pass p d) passes d.

(** How many ready signals a log holds, and how many change events. *)
Definition ready_signals (l : list DocumentEvent) : nat :=
  List.length (filter (fun e => is_ready_event e = true) l).

Definition change_events (l : list DocumentEvent) : nat :=
  List.length (filter (fun e => is_ready_event e = false) l).

End Document.

(** * What the properties speak of *)

(** The states the generator is meant to stay in: the integers from 1
    to [MAX_INT32 - 1]. *)
Definition in_range (r : Random.t) : Prop :=
  exists s, Random.seed r = Js.of_Z s /\ 1 <= s <= Random.MAX_INT32 - 1.

(** A seed that keeps the generator in range: a number that stands for
    an integer whose remainder by [MAX_INT32] is not [-(MAX_INT32 - 1)]. *)
Definition sound_seed (x : Js.number) : Prop :=
  exists z, Js.to_Z x = Some z /\ Z.rem z Random.MAX_INT32 <> - (Random.MAX_INT32 - 1).

(** The sequence identifier of an item. *)
Definition seq_of (top : Suites.Suite) (p : list Suites.Suite * Suites.Test) : list Z * Z :=
  Suites.to_seq top (fst p) (snd p).

(** Nothing is emitted by a document, and its flags stay as they are. *)
Definition quiet (d d' : Document.t) : Prop :=
  Document.log d' = Document.log d
  /\ Document.loading d' = Document.loading d
  /\ Document.settled d' = Document.settled d.

Section Observations.

Import Suites Runner.

(** [s'] is [s] after more of the run: a failure recorded stays recorded,
    the errors are only added to, the name is kept. *)
Definition keeps (s s' : Status) : Prop :=
  (failure s = Some true -> failure s' = Some true)
  /\ (exists es, errors s' = errors s ++ es)
  /\ baseline_name s' = baseline_name s.

(** An update of the status that loses nothing. *)
Definition keeping (f : Status -> Status) : Prop := forall s, keeps s (f s).

(** The fields [baseline] and [baseline_diff] stay as they are. *)
Definition same_baseline (s s' : Status) : Prop :=
  baseline s' = baseline s /\ baseline_diff s' = baseline_diff s.

(** An update of the status that [Q] allows. *)
Definition allowed (Q : Status -> Status -> Prop) (f : Status -> Status) : Prop :=
  forall s, Q s (f s).

(** The status of a test case records a duplicated name. *)
Definition marked_duplicate (it : TestItem) : Prop :=
  In "duplicated description" (errors (item_status it))
  /\ failure (item_status it) = Some true.

(** The case at place [k] has the name of a case gone through earlier. *)
Definition name_seen_before (cs : list TestItem) (k : nat) (it : TestItem) : Prop :=
  exists j it', (j < k)%nat /\ nth_error cs j = Some it'
                /\ baseline_name_of it' = baseline_name_of it.

(** A test case of [test_suite] that is marked skip. *)
Definition marked_skip (s : Js.slot TestItem) : Prop :=
  exists it, s = Js.elem (Some it) /\ skip (item_test it) = true.

(** An element of [test_suite] that leaves nothing to run: a hole,
    [undefined], or a test case marked skip. *)
Definition nothing_to_run (s : Js.slot TestItem) : Prop :=
  match s with
  | Js.elem (Some it) => skip (item_test it) = true
  | _ => True
  end.

(** Whatever an array holds satisfies [P]: the elements that are not
    [undefined], and the named properties likewise. *)
Definition holds_only {A : Type} (P : A -> Prop) (a : Js.array A) : Prop :=
  Forall (fun s => match s with Js.elem (Some x) => P x | _ => True end) (Js.items a)
  /\ Forall (fun kv => from_option P True (snd kv)) (Js.props a).

(** A test case after a filter that keeps the descriptions [keep] holds
    of. *)
Definition after_filter (keep : string -> bool) (it : TestItem) : TestItem :=
  if keep (description (item_suites it) (item_test it) " ") then it
  else (item_suites it, set_skip (item_test it), item_status it).

Context `{Collaborators}.

(** [r'] is [r] after more of the run of the same test case: the
    statuses are related by [Q] and the events added all satisfy [P]. *)
Definition advances (P : Event -> Prop) (Q : Status -> Status -> Prop) (r r' : Run) : Prop :=
  Q (status r) (status r') /\ exists evs, events r' = events r ++ evs /\ Forall P evs.

(** A failure and the errors are never lost, whatever is observed. *)
Definition extends : Run -> Run -> Prop := advances (fun _ => True) keeps.

(** Nothing of the comparison with the stored baseline happens: no
    baseline file is written, loaded or compared, and the fields
    [baseline] and [baseline_diff] stay as they are. *)
Definition is_baseline_io (e : Event) : bool :=
  match e with
  | WriteFile _ _ | LoadBaseline _ _ | DiffBaseline _ _ => true
  | _ => false
  end.

Definition without_baseline : Run -> Run -> Prop :=
  advances (fun e => is_baseline_io e = false) same_baseline.

(** No call of [run_test] starts. *)
Definition is_call (e : Event) : bool :=
  match e with RunTest _ => true | _ => false end.

Definition within_call : Run -> Run -> Prop :=
  advances (fun e => is_call e = false) (fun _ _ => True).

(** The [attempt] arguments of the calls of [run_test], in order. *)
Definition calls (evs : list Event) : list (option nat) :=
  flat_map (fun e => match e with RunTest a => [a] | _ => [] end) evs.

(** What holds of the loop after every test case. *)
Record loop_invariant (l : Loop) : Prop := {
  names_are_those_of_cases :
    forall x, x ∈ baseline_names l
              <-> exists it, In it (processed l) /\ baseline_name_of it = x;
  duplicates_are_marked :
    forall k it, nth_error (processed l) k = Some it ->
                 name_seen_before (processed l) k it -> marked_duplicate it;
  skipped_are_marked :
    forall it, In it (processed l) -> skip (item_test it) = true ->
               skipped (item_status it) = Some true;
  failures_are_counted :
    loop_thrown l = None ->
    forall it, In it (processed l) -> failed (item_status it) = true ->
               (0 < failures l)%nat
}.

(** A description that the filters of the command line leave out: there
    are keywords and it contains none, or there are regular expressions
    and it matches none. *)
Definition filtered_out (cfg : Config) (d : string) : Prop :=
  (exists keywords, k cfg = Some keywords
                    /\ existsb (fun keyword => includes d keyword) keywords = false)
  \/ (exists regexes, grep cfg = Some regexes
                      /\ existsb (fun regex => regexp_match regex d) regexes = false).

(** What the two filters keep. *)
Definition kept_by_keywords (cfg : Config) (d : string) : bool :=
  match k cfg with
  | Some keywords => existsb (fun keyword => includes d keyword) keywords
  | None => true
  end.

(** Every pattern of [--grep] is one that [new RegExp] accepts. *)
Definition patterns_valid (cfg : Config) : bool :=
  match grep cfg with
  | Some regexes => forallb regexp_valid regexes
  | None => true
  end.

Definition kept_by_regexes (cfg : Config) (d : string) : bool :=
  match grep cfg with
  | Some regexes => existsb (fun regex => regexp_match regex d) regexes
  | None => true
  end.

End Observations.

(** * Concrete inputs *)

Module Examples.

Import Suites Runner.

(** How many bytes of two buffers differ, place by place. *)
Fixpoint differing (a b : Buffer) : Z :=
  match a, b with
  | x :: a', y :: b' =>
      (if Byte.eqb x y then 0 else 1) + differing a' b'
  | [], l | l, [] => Z.of_nat (List.length l)
  end.

(** Collaborators for the examples: a state is a line of text, a box is
    four integers, an image is compared byte by byte, a pattern is a
    plain word looked for as it is, and one that opens a group is
    refused. *)
#[export] Instance collaborators : Collaborators := {|
  State := string;
  Box := Z * Z * Z * Z;
  create_baseline := String.concat newline;
  diff_image := fun existing current =>
    let n := differing existing current in
    if n =? 0 then None
    else Some {| diff := current; pixels := n; percent := Js.of_Z n |};
  to_fixed := fun x _ =>
    match Js.to_Z x with Some z => pretty z +:+ ".00" | None => "NaN" end;
  path_join := String.concat "/";
  platform := "linux";
  regexp_valid := fun regex => negb (includes regex "(");
  regexp_match := fun regex d => includes d regex;
  number_to_string := fun x =>
    match Js.to_Z x with Some z => pretty z | None => "NaN" end
|}.

Definition line_test : Test := mk_test 1 "draws a line" false None None None.
Definition box_test : Test := mk_test 2 "draws [a] box" false (Some 5) (Some 2) None.
Definition skipped_line : Test := mk_test 3 "draws a line" true None None None.
Definition axis_test : Test := mk_test 4 "draws an axis" false None None None.

Definition glyphs : Suite := mk_suite 11 "glyphs" [] [line_test; box_test].
Definition glyphs_again : Suite := mk_suite 12 "glyphs" [] [skipped_line].
Definition top : Suite := mk_suite 10 "top" [glyphs; glyphs_again] [axis_test].

(** A page where every test passes and gives the state ["plot"], which
    is also the stored baseline; no test has a capturable region. *)
Definition plot_result : Result :=
  {| result_error := None; time := Js.of_Z 3; state := Some "plot"; bbox := None |}.

Definition passing : Attempt := {|
  new_entries := [];
  new_exceptions := [];
  run_output := Value plot_result;
  state_output := Value (Some "plot");
  existing_baseline := Some "plot";
  baseline_diff_text := EmptyString;
  captured := [];
  existing_image := None;
  clear_output := Value tt
|}.

Definition world (browser : string) (a : Attempt) : World := {|
  version := inr (browser, "1.3");
  connect_error := None;
  navigate_error := None;
  load_exceptions := [];
  ready_output := Value true;
  top_level_output := Value top;
  attempt_at := fun _ _ => a;
  readdir := [];
  now := 1700000000000
|}.

Definition config : Config := {|
  target := "http://localhost:5777/integration";
  git_ref := "HEAD";
  randomize := false;
  seed := None;
  k := None;
  grep := None;
  baselinesRoot := None;
  screenshot := None;
  retry := false;
  info := false
|}.

(** The same, with a baselines directory. *)
Definition config_with_baselines : Config := {|
  target := target config; git_ref := git_ref config; randomize := false;
  seed := None; k := None; grep := None; baselinesRoot := Some "baselines";
  screenshot := None; retry := false; info := false
|}.

(** The same, with a keyword that no description contains. *)
Definition config_with_keyword : Config := {|
  target := target config; git_ref := git_ref config; randomize := true;
  seed := Some (Js.of_Z 42); k := Some ["no such test"]; grep := None; baselinesRoot := None;
  screenshot := None; retry := false; info := false
|}.

(** A page that gives one state with the result and another one when
    asked again. *)
Definition unsettled : Attempt := {|
  new_entries := []; new_exceptions := [];
  run_output := Value plot_result;
  state_output := Value (Some "plot, hovered");
  existing_baseline := Some "plot";
  baseline_diff_text := EmptyString;
  captured := []; existing_image := None; clear_output := Value tt
|}.

(** A page whose screenshot differs from the stored image in one byte. *)
Definition box_result : Result :=
  {| result_error := None; time := Js.of_Z 3; state := Some "plot";
     bbox := Some (0, 0, 300, 300) |}.

Definition one_pixel_off : Attempt := {|
  new_entries := []; new_exceptions := [];
  run_output := Value box_result;
  state_output := Value (Some "plot");
  existing_baseline := Some "plot";
  baseline_diff_text := EmptyString;
  captured := [Byte.x89; Byte.x50; Byte.x4e; Byte.x47];
  existing_image := Some [Byte.x89; Byte.x50; Byte.x4e; Byte.x46];
  clear_output := Value tt
|}.

Definition start : Run := mk_run new_status [] [] false [] None.

(** A suite whose three tests are all declared skip, and the page that
    gives it. *)
Definition postponed : Suite :=
  mk_suite 20 "postponed" []
    [mk_test 21 "first" true None None None;
     mk_test 22 "second" true None None None;
     mk_test 23 "third" true None None None].

Definition world_postponed : World := {|
  version := inr ("Chrome/107.0.5304.87", "1.3");
  connect_error := None;
  navigate_error := None;
  load_exceptions := [];
  ready_output := Value true;
  top_level_output := Value postponed;
  attempt_at := fun _ _ => passing;
  readdir := [];
  now := 1700000000000
|}.

(** [--randomize --seed=-2147483646] *)
Definition config_with_state_zero : Config := {|
  target := target config; git_ref := git_ref config; randomize := true;
  seed := Some (Js.of_Z (-2147483646)); k := None; grep := None; baselinesRoot := None;
  screenshot := None; retry := false; info := false
|}.

(** [--grep "("] *)
Definition config_with_refused_pattern : Config := {|
  target := target config; git_ref := git_ref config; randomize := false;
  seed := None; k := None; grep := Some ["("]; baselinesRoot := None;
  screenshot := None; retry := false; info := false
|}.

(** The snapshot of the regression test of issue #11803, without the
    data of the columns. *)
Definition snapshot : list Document.Json :=
  [Document.JObject "Plot" "1002"
     [("renderers",
       Document.JList
         [Document.JObject "GlyphRenderer" "1005"
            [("data_source", Document.JObject "ColumnDataSource" "1003" []);
             ("glyph", Document.JObject "Line" "1004"
                         [("x", Document.JStr "x"); ("y", Document.JStr "y1")])];
          Document.JObject "GlyphRenderer" "1007"
            [("data_source", Document.JRef "1003");
             ("glyph", Document.JObject "Line" "1006"
                         [("x", Document.JStr "x"); ("y", Document.JStr "y0")])]]);
      ("x_range", Document.JObject "DataRange1d" "1008" []);
      ("x_scale", Document.JObject "LinearScale" "1010" []);
      ("y_range", Document.JObject "DataRange1d" "1009" []);
      ("y_scale", Document.JObject "LinearScale" "1011" [])]].

Definition loaded : Document.t :=
  Eval vm_compute in
    match Document.from_snapshot snapshot with
    | Some d => d
    | None => Document.empty
    end.

End Examples.

(** * The markers of [LRTBGL]

    [LRTBGL._set_data] of [bokehjs/src/lib/models/glyphs/webgl/lrtb.ts]:
    for every marker the screen coordinates of the four sides are read
    and the centre, the height and the width are assigned to the buffers
    of the program.  The values are modelled as they are assigned, in
    double precision; the buffers are [Float32Array]s and keep them in
    single precision.  [SingleMarkerGL.missing_point] is defined in
    another file and is a parameter here. *)

Module Lrtb.

Definition add (x y : Js.number) : Js.number := SFadd Js.prec Js.emax x y.
Definition sub (x y : Js.number) : Js.number := SFsub Js.prec Js.emax x y.

(** [isFinite(x)] *)
Definition is_finite (x : Js.number) : bool :=
  match x with
  | S754_zero _ | S754_finite _ _ _ => true
  | _ => false
  end.

(** [a[i]] for a typed array of numbers: past the end the value is
    [undefined], which every sum turns into NaN. *)
Definition read (a : list Js.number) (i : nat) : Js.number := nth i a S754_nan.

(** What is assigned for one marker: [centers_array[2*i]],
    [centers_array[2*i+1]], [heights_array[i]] and [widths_array[i]]. *)
Record Marker : Type := mk_marker {
  center_x : Js.number;
  center_y : Js.number;
  height : Js.number;
  width : Js.number
}.

(** The body of the loop. *)
Definition marker (missing_point l r t b : Js.number) : Marker :=
  if is_finite (add (add (add l r) t) b) then
    mk_marker (Js.div (add l r) (Js.of_Z 2)) (Js.div (add t b) (Js.of_Z 2))
              (SFabs (sub t b)) (SFabs (sub r l))
  else
    mk_marker missing_point missing_point missing_point missing_point.

(** The loop of [_set_data], for [nmarkers] markers. *)
Definition set_data (missing_point : Js.number) (nmarkers : nat)
    (sleft sright stop sbottom : list Js.number) : list Marker :=
  map (fun i => marker missing_point (read sleft i) (read sright i)
                       (read stop i) (read sbottom i))
      (List.seq 0 nmarkers).

(** The three arrays as they are filled. *)
Definition centers_array (ms : list Marker) : list Js.number :=
  flat_map (fun m => [center_x m; center_y m]) ms.
Definition heights_array (ms : list Marker) : list Js.number := map height ms.
Definition widths_array (ms : list Marker) : list Js.number := map width ms.

End Lrtb.

(** * What the further properties speak of *)

Section FurtherObservations.

Import Suites Runner.

(** The characters that [encode] replaces. *)
Definition reserved (c : ascii) : Prop :=
  c = " "%char \/ c = "/"%char \/ c = "["%char \/ c = "]"%char.

(** A text made of decimal digits, one at least. *)
Definition is_number (d : list ascii) : Prop :=
  d <> [] /\ Forall (fun c => is_digit c = true) d.

(** [s] ends with [suffix]. *)
Fixpoint ends_with (suffix s : string) : bool :=
  String.eqb s suffix
  || match s with
     | String _ s' => ends_with suffix s'
     | EmptyString => false
     end.

(** What a filter may change of a test case: nothing but [test.skip]. *)
Definition same_but_skip (it it' : TestItem) : Prop :=
  item_suites it' = item_suites it
  /\ item_status it' = item_status it
  /\ test_ref (item_test it') = test_ref (item_test it)
  /\ test_description (item_test it') = test_description (item_test it)
  /\ threshold (item_test it') = threshold (item_test it)
  /\ retries (item_test it') = retries (item_test it)
  /\ dpr (item_test it') = dpr (item_test it).

(** The files of the baselines directory that a run accounts for: the
    two reports, and the state and image files of the test cases gone
    through. *)
Definition accounted (gone : list TestItem) (f : string) : Prop :=
  f = "report.json" \/ f = "report.out"
  \/ exists it, In it gone
                /\ (f = baseline_name_of it +:+ ".blf" \/ f = baseline_name_of it +:+ ".png").

(** How many statuses of test cases satisfy [p]. *)
Definition count (p : Status -> bool) (gone : list TestItem) : nat :=
  List.length (List.filter (fun it => p (item_status it)) gone).

(** A screenshot mode that the runner does not know. *)
Definition unknown_mode (mode : string) : Prop :=
  mode <> "test" /\ mode <> "save" /\ mode <> "skip".

(** Every index drawn by [shuffle] is an index of the array, at most the
    place it is exchanged with. *)
Definition draws_within_bounds (sw : list (nat * Js.number)) : Prop :=
  Forall (fun ij => exists j, Js.to_index (snd ij) = Some j /\ (j <= fst ij)%nat) sw.

(** The texts of the console entries of level [error]. *)
Definition console_errors (es : list LogEntry) : list string :=
  map entry_text (filter is_error es).

Context `{Collaborators}.

(** An event that is a message or the exit of the process. *)
Definition is_message (e : Event) : bool :=
  match e with Log _ | ProcessExit _ => true | _ => false end.

(** The page is set up: the browser answers, the page loads without an
    exception, Bokeh is defined and the suite is received. *)
Definition page_ready (w : World) : bool :=
  match connect_error w, navigate_error w, load_exceptions w,
        ready_output w, top_level_output w with
  | None, None, [], Value true, Value _ => true
  | _, _, _, _, _ => false
  end.

(** The events of a call of [run_test] that compares nothing. *)
Definition plain_call (top_level : Suite) (suites : list Suite) (test : Test)
    (attempt : option nat) : list Event :=
  [RunTest attempt]
  ++ match dpr test with Some d => [OverrideMetrics d] | None => [] end
  ++ [Evaluate ("Tests.run(" +:+ seq top_level suites test +:+ ")")]
  ++ match dpr test with Some _ => [OverrideMetrics (Js.of_Z 1)] | None => [] end
  ++ [Evaluate ("Tests.clear(" +:+ seq top_level suites test +:+ ")")].

(** What makes a call of [run_test] ask for a retry: a stored baseline
    that differs from the state, for a test that declares [retries] ... *)
Definition baseline_differs (test : Test) (result : Result) (a : Attempt) : Prop :=
  is_Some (retries test)
  /\ exists state_early state_later existing,
       state result = Some state_early
       /\ state_output a = Value (Some state_later)
       /\ create_baseline [state_early] = create_baseline [state_later]
       /\ existing_baseline a = Some existing
       /\ existing <> create_baseline [state_later].

(** What makes a call of [run_test] throw: a region to capture and a
    screenshot mode that the runner does not know. *)
Definition mode_refused (cfg : Config) (result : Result) : Prop :=
  is_Some (bbox result)
  /\ exists mode, screenshot cfg = Some mode /\ unknown_mode mode.

(** ... or, when screenshots are tested, a stored image that differs
    from the screenshot, by however little. *)
Definition image_differs (cfg : Config) (result : Result) (a : Attempt) : Prop :=
  (screenshot cfg = None \/ screenshot cfg = Some "test")
  /\ exists box existing d,
       bbox result = Some box
       /\ existing_image a = Some existing
       /\ buffer_equals existing (captured a) = false
       /\ diff_image existing (captured a) = Some d.

End FurtherObservations.

(** * Further inputs *)

Module MoreExamples.

Import Suites Runner Examples.

(** A suite where no two tests have the same name. *)
Definition plots : Suite := mk_suite 20 "plots" [glyphs] [axis_test].

(** A page that gives [plots], where every test passes, and a baselines
    directory that holds [files]. *)
Definition passing_world (files : list string) : World := {|
  version := inr ("Chrome/107.0.5304.87", "1.3");
  connect_error := None;
  navigate_error := None;
  load_exceptions := [];
  ready_output := Value true;
  top_level_output := Value plots;
  attempt_at := fun _ _ => passing;
  readdir := files;
  now := 1700000000000
|}.

(** The configuration with a baselines directory and a screenshot mode
    that does not exist. *)
Definition config_with_unknown_mode : Config := {|
  target := target config; git_ref := git_ref config; randomize := false;
  seed := None; k := None; grep := None; baselinesRoot := Some "baselines";
  screenshot := Some "update"; retry := false; info := false
|}.

(** The loop before the first test case. *)
Definition fresh : Loop := mk_loop ∅ O O [] [] None.

(** [test_suite] for [plots], neither shuffled nor filtered. *)
Definition plots_suite : list (Js.slot TestItem) :=
  Js.items (all_tests plots).

End MoreExamples.

(** * Properties *)

(** ** The seeded shuffle *)

Section ShuffleFacts.

Import Js Random.

Context {A B : Type} (f : A -> B).

Lemma lookup_prop_map (k : number) (ps : list (number * option A)) :
  lookup_prop k (map (fun kv => (fst kv, option_map f (snd kv))) ps)
  = option_map f (lookup_prop k ps).
Proof.
  induction ps as [|[k' v] ps IH]; simpl; [reflexivity|].
  destruct (number_eqb k k'); [reflexivity | exact IH].
Qed.

Lemma get_array_map (a : array A) (k : number) :
  get (array_map f a) k = option_map f (get a k).
Proof.
  unfold get, array_map; simpl.
  destruct (to_index k) as [i|]; [|apply lookup_prop_map].
  rewrite nth_error_map.
  destruct (nth_error (items a) i) as [[|v]|]; reflexivity.
Qed.

Lemma set_item_nil_map (i : nat) (v : option A) :
  set_item [] i (option_map f v) = map (slot_map f) (set_item [] i v).
Proof. induction i as [|i IH]; simpl; [reflexivity | now rewrite IH]. Qed.

Lemma set_item_map (l : list (slot A)) (i : nat) (v : option A) :
  set_item (map (slot_map f) l) i (option_map f v) = map (slot_map f) (set_item l i v).
Proof.
  revert i; induction l as [|x l IH]; intros i.
  - apply set_item_nil_map.
  - destruct i as [|i]; simpl; [reflexivity | now rewrite IH].
Qed.

Lemma set_array_map (a : array A) (k : number) (v : option A) :
  set (array_map f a) k (option_map f v) = array_map f (set a k v).
Proof.
  unfold set, array_map; simpl.
  destruct (to_index k) as [i|]; simpl; [|reflexivity].
  now rewrite set_item_map.
Qed.

Lemma exchange_array_map (a : array A) (i : nat) (j : number) :
  exchange (array_map f a) i j = array_map f (exchange a i j).
Proof.
  unfold exchange.
  now rewrite !get_array_map, !set_array_map.
Qed.

Lemma shuffle_from_array_map (i : nat) (a : array A) (r : Random.t) :
  shuffle_from i (array_map f a) r
  = (array_map f (fst (shuffle_from i a r)), snd (shuffle_from i a r)).
Proof.
  revert a r; induction i as [|i IH]; intros a r; simpl.
  - reflexivity.
  - destruct (draw (S i) r) as [j r'].
    now rewrite exchange_array_map, IH.
Qed.

Lemma length_array_map (a : array A) : Js.length (array_map f a) = Js.length a.
Proof. unfold Js.length, array_map; simpl. apply length_map. Qed.

End ShuffleFacts.

Section SwapFacts.

Import Js Random.

Context {A : Type}.

Lemma shuffle_from_swaps (i : nat) (a : array A) (r : Random.t) :
  fst (shuffle_from i a r) = apply_swaps (swaps_from i r) a.
Proof.
  revert a r; induction i as [|i IH]; intros a r; simpl.
  - reflexivity.
  - destruct (draw (S i) r) as [j r']; simpl.
    apply IH.
Qed.

Lemma shuffle_from_state (i : nat) (a : array A) (r : Random.t) :
  snd (shuffle_from i a r) = Nat.iter i (fun r => snd (integer r)) r.
Proof.
  revert a r; induction i as [|i IH]; intros a r.
  - reflexivity.
  - rewrite Nat.iter_succ_r. simpl.
    unfold draw, float. destruct (integer r) as [n r'] eqn:E; simpl.
    rewrite IH. reflexivity.
Qed.

End SwapFacts.

(** C3: the exchanges that [shuffle] performs are those of [swaps], which
    are computed from the seed and the length of the array alone, and so is
    the state the generator is left in; hence the order that comes out is
    the same from one run to the next: shuffling the images of the
    elements under any [f] gives the images of the shuffled elements. *)
Theorem shuffle_is_function_of_seed_and_length :
  forall (seed : Js.number) (A B : Type) (f : A -> B) (a : Js.array A),
    fst (Random.shuffle a (Random.new seed))
    = Random.apply_swaps (Random.swaps (Js.length a) (Random.new seed)) a
    /\ snd (Random.shuffle a (Random.new seed))
       = Nat.iter (Js.length a - 1) (fun r => snd (Random.integer r)) (Random.new seed)
    /\ Random.swaps (Js.length (Js.array_map f a)) (Random.new seed)
       = Random.swaps (Js.length a) (Random.new seed)
    /\ fst (Random.shuffle (Js.array_map f a) (Random.new seed))
       = Js.array_map f (fst (Random.shuffle a (Random.new seed))).
Proof.
  intros seed A B f a. unfold Random.shuffle, Random.swaps.
  rewrite length_array_map.
  repeat split.
  - apply shuffle_from_swaps.
  - apply shuffle_from_state.
  - now rewrite shuffle_from_array_map.
Qed.

(** ** The state of the generator *)

(** C10: at the seed [-2147483646] the constructor leaves the state at 0,
    outside [1, 2^31 - 2]; [integer] then returns 0 for ever, [float]
    returns a negative number, the index drawn by [shuffle] is [-1], and
    shuffling three elements loses one of them and leaves [undefined] in
    the last place. *)
Theorem seed_state_zero_breaks_shuffle :
  Random.seed (Random.new (Js.of_Z (-2147483646))) = Js.of_Z 0
  /\ Random.integer (Random.new (Js.of_Z (-2147483646)))
     = (Js.of_Z 0, Random.new (Js.of_Z (-2147483646)))
  /\ SFltb (fst (Random.float (Random.new (Js.of_Z (-2147483646))))) (Js.of_Z 0) = true
  /\ Js.to_Z (fst (Random.draw 2 (Random.new (Js.of_Z (-2147483646))))) = Some (-1)
  /\ Js.items (fst (Random.shuffle (Js.of_list [10; 20; 30])
                                   (Random.new (Js.of_Z (-2147483646)))))
     = [Js.elem (Some 10); Js.elem (Some 30); Js.elem None].
Proof. vm_compute. repeat split. Qed.

(** ** Flattening a suite and the positions of its tests *)

Section SuiteFacts.

Import Suites.

(** Induction on a suite, with the property known of the nested suites. *)
Lemma Suite_ind (P : Suite -> Prop) :
  (forall r d ss ts, Forall P ss -> P (mk_suite r d ss ts)) -> forall s, P s.
Proof.
  intros step.
  fix IH 1. intros [r d ss ts]. apply step.
  induction ss as [|c ss IHss]; constructor; [apply IH | exact IHss].
Qed.

Lemma distinct_objects_nested (r : nat) (d : string) (ss : list Suite) (ts : list Test) :
  distinct_objects (mk_suite r d ss ts) ->
  NoDup (map suite_ref ss) /\ NoDup (map test_ref ts) /\ Forall distinct_objects ss.
Proof.
  simpl. intros (Hs & Ht & Hn). repeat split; try assumption.
  clear Hs. induction ss as [|c ss IH]; constructor; simpl in Hn; tauto.
Qed.

(** The parents are a prefix of every path that [iter] yields. *)
Lemma iter_parents (s : Suite) :
  forall parents,
    iter s parents = map (fun p => (parents ++ fst p, snd p)) (iter s []).
Proof.
  induction s as [r d ss ts IH] using Suite_ind. intros parents. simpl.
  rewrite map_app, map_map; simpl. f_equal.
  - clear ts. induction IH as [|c ss Hc _ IHss]; simpl; [reflexivity|].
    rewrite map_app, IHss. f_equal.
    rewrite (Hc (parents ++ [c])), (Hc [c]), map_map. simpl.
    apply map_ext. intros [p t]; simpl. now rewrite <- app_assoc.
  - apply map_ext. intros t. now rewrite app_nil_r.
Qed.

(** What [iter] yields for a suite: the items of the nested suites, each
    path headed by the nested suite, then the tests of the suite. *)
Lemma iter_unfold (r : nat) (d : string) (ss : list Suite) (ts : list Test) :
  iter (mk_suite r d ss ts) []
  = flat_map (fun c => map (fun p => (c :: fst p, snd p)) (iter c [])) ss
    ++ map (fun t => ([], t)) ts.
Proof.
  simpl. f_equal. apply flat_map_ext. intros c. apply iter_parents.
Qed.

Section IndexOf.

Context {X : Type} (ref_of : X -> nat).

Lemma index_of_bounds (r : nat) (l : list X) :
  -1 <= index_of ref_of r l < Z.of_nat (List.length l).
Proof.
  induction l as [|x l IH]; simpl; [lia|].
  destruct (Nat.eqb (ref_of x) r); [lia|].
  destruct (Z.ltb_spec (index_of ref_of r l) 0); lia.
Qed.

(** With distinct objects, [indexOf] finds the place of an element. *)
Lemma index_of_split (l1 l2 : list X) (x : X) :
  NoDup (map ref_of (l1 ++ x :: l2)) ->
  index_of ref_of (ref_of x) (l1 ++ x :: l2) = Z.of_nat (List.length l1).
Proof.
  induction l1 as [|y l1 IH]; simpl; intros Hnd.
  - now rewrite Nat.eqb_refl.
  - inversion Hnd as [|? ? Hy Hnd']; subst.
    destruct (Nat.eqb_spec (ref_of y) (ref_of x)) as [E|_].
    + exfalso. apply Hy. rewrite E. apply list_elem_of_In.
      rewrite map_app. apply in_or_app. right. now left.
    + rewrite IH by assumption.
      destruct (Z.ltb_spec (Z.of_nat (List.length l1)) 0); lia.
Qed.

Lemma index_of_nth (l : list X) (x : X) :
  NoDup (map ref_of l) -> In x l ->
  0 <= index_of ref_of (ref_of x) l
  /\ nth_error l (Z.to_nat (index_of ref_of (ref_of x) l)) = Some x.
Proof.
  intros Hnd Hin. apply in_split in Hin. destruct Hin as (l1 & l2 & ->).
  rewrite index_of_split by assumption. split; [lia|].
  rewrite Nat2Z.id, nth_error_app2 by lia.
  now rewrite Nat.sub_diag.
Qed.

(** With distinct objects, the elements of a list come in the order of
    their indices. *)
Lemma sorted_by_index (l : list X) :
  NoDup (map ref_of l) ->
  StronglySorted
    (fun x y => index_of ref_of (ref_of x) l < index_of ref_of (ref_of y) l) l.
Proof.
  intros Hnd.
  assert (H : forall pre suf, l = pre ++ suf ->
    StronglySorted
      (fun x y => index_of ref_of (ref_of x) l < index_of ref_of (ref_of y) l) suf).
  { intros pre suf; revert pre.
    induction suf as [|x suf IH]; intros pre E; constructor.
    - apply (IH (pre ++ [x])). now rewrite <- app_assoc.
    - apply List.Forall_forall. intros y Hy.
      apply in_split in Hy. destruct Hy as (s1 & s2 & ->).
      rewrite E at 1. rewrite index_of_split by (now rewrite <- E).
      assert (E' : l = (pre ++ x :: s1) ++ y :: s2)
        by (now rewrite E, <- app_assoc).
      rewrite E' at 1. rewrite index_of_split by (now rewrite <- E').
      rewrite length_app. simpl. lia. }
  exact (H [] l eq_refl).
Qed.

End IndexOf.

Lemma StronglySorted_app {X : Type} (R : X -> X -> Prop) (l1 l2 : list X) :
  StronglySorted R l1 -> StronglySorted R l2 ->
  (forall x y, In x l1 -> In y l2 -> R x y) ->
  StronglySorted R (l1 ++ l2).
Proof.
  intros H1 H2 Hc. induction H1 as [|x l1 H1 IH Hx]; simpl; [exact H2|].
  constructor.
  - apply IH. intros u v Hu Hv. apply Hc; [now right | exact Hv].
  - apply Forall_app. split; [exact Hx|].
    apply List.Forall_forall. intros y Hy. apply Hc; [now left | exact Hy].
Qed.

Lemma StronglySorted_map {X Y : Type} (g : X -> Y) (R : Y -> Y -> Prop) (l : list X) :
  StronglySorted (fun x y => R (g x) (g y)) l -> StronglySorted R (map g l).
Proof.
  induction 1 as [|x l _ IH Hx]; simpl; constructor; [exact IH|].
  apply List.Forall_forall. intros y Hy. apply in_map_iff in Hy.
  destruct Hy as (u & <- & Hu).
  rewrite List.Forall_forall in Hx. now apply Hx.
Qed.

(** The sequence identifier of an item of a nested suite. *)
Lemma to_seq_nested (s c : Suite) (ss : list Suite) (t : Test) :
  to_seq s (c :: ss) t
  = (index_of suite_ref (suite_ref c) (suites s) :: fst (to_seq c ss t),
     snd (to_seq c ss t)).
Proof.
  unfold to_seq; simpl.
  destruct (to_seq_suites c ss) as [si cur]. reflexivity.
Qed.

End SuiteFacts.

Section FlatteningFacts.

Import Suites.

(** Following the sequence identifier of an item leads back to it. *)
Lemma locate_to_seq (s : Suite) :
  distinct_objects s ->
  forall ss t, In (ss, t) (iter s []) -> locate s (to_seq s ss t) = Some (ss, t).
Proof.
  induction s as [r d cs ts IH] using Suite_ind.
  intros Hd ss t Hin.
  apply distinct_objects_nested in Hd. destruct Hd as (Hcs & Hts & Hn).
  rewrite iter_unfold in Hin. apply in_app_or in Hin. destruct Hin as [Hin|Hin].
  - apply in_flat_map in Hin. destruct Hin as (c & Hc & Hin).
    apply in_map_iff in Hin. destruct Hin as ([ss' t'] & E & Hin).
    simpl in E. injection E as <- <-.
    rewrite to_seq_nested. unfold locate; simpl.
    destruct (index_of_nth suite_ref cs c Hcs Hc) as (Hge & Hnth).
    destruct (Z.ltb_spec (index_of suite_ref (suite_ref c) cs) 0); [lia|].
    rewrite Hnth.
    rewrite List.Forall_forall in IH, Hn.
    specialize (IH c Hc (Hn c Hc) ss' t' Hin). unfold locate in IH.
    rewrite IH. reflexivity.
  - apply in_map_iff in Hin. destruct Hin as (t' & E & Hin).
    injection E as <- <-.
    unfold locate, to_seq; simpl.
    destruct (index_of_nth test_ref ts t' Hts Hin) as (Hge & Hnth).
    destruct (Z.ltb_spec (index_of test_ref (test_ref t') ts) 0); [lia|].
    rewrite Hnth. reflexivity.
Qed.

(** Every test that a sequence identifier leads to is an item. *)
Lemma locate_in_iter (si : list Z) (ti : Z) :
  forall s p, locate_from s si ti = Some p -> In p (iter s []).
Proof.
  induction si as [|i si IH]; intros [r d cs ts] p;
    rewrite iter_unfold; cbn [locate_from tests suites].
  - destruct (ti <? 0); [discriminate|].
    destruct (nth_error ts (Z.to_nat ti)) as [t|] eqn:E; [|discriminate].
    simpl. intros [= <-]. apply in_or_app. right.
    apply in_map. eapply nth_error_In, E.
  - destruct (i <? 0); [discriminate|].
    destruct (nth_error cs (Z.to_nat i)) as [c|] eqn:E; [|discriminate].
    destruct (locate_from c si ti) as [q|] eqn:Eq; [|discriminate].
    simpl. intros [= <-]. apply in_or_app. left.
    apply in_flat_map. exists c. split; [eapply nth_error_In, E|].
    apply in_map_iff. exists q. split; [reflexivity|]. now apply IH.
Qed.

(** The items come in the order of their positions. *)
Lemma iter_sorted (s : Suite) :
  distinct_objects s ->
  StronglySorted (fun p q => seq_before (seq_of s p) (seq_of s q)) (iter s []).
Proof.
  induction s as [r d cs ts IH] using Suite_ind.
  intros Hd.
  apply distinct_objects_nested in Hd. destruct Hd as (Hcs & Hts & Hn).
  rewrite iter_unfold. apply StronglySorted_app.
  - set (s := mk_suite r d cs ts).
    assert (H : forall pre suf, cs = pre ++ suf ->
      StronglySorted (fun p q => seq_before (seq_of s p) (seq_of s q))
        (flat_map (fun c => map (fun p => (c :: fst p, snd p)) (iter c [])) suf)).
    { intros pre suf; revert pre.
      induction suf as [|c suf IHsuf]; intros pre E; simpl; [constructor|].
      assert (Hc : In c cs) by (rewrite E; apply in_or_app; right; now left).
      apply StronglySorted_app.
      - apply StronglySorted_map.
        rewrite List.Forall_forall in IH, Hn.
        specialize (IH c Hc (Hn c Hc)).
        eapply StronglySorted_ind with (P := fun l =>
          StronglySorted (fun x y => seq_before
            (seq_of s (c :: fst x, snd x)) (seq_of s (c :: fst y, snd y))) l);
          [constructor | | exact IH].
        intros x l _ Hl Hx. constructor; [exact Hl|].
        apply List.Forall_forall. intros y Hy.
        rewrite List.Forall_forall in Hx. specialize (Hx y Hy).
        unfold seq_of, seq_before in *. simpl.
        rewrite !to_seq_nested. simpl. right. split; [reflexivity | exact Hx].
      - apply (IHsuf (pre ++ [c])). now rewrite <- app_assoc.
      - intros x y Hx Hy.
        apply in_map_iff in Hx. destruct Hx as (x' & <- & _).
        apply in_flat_map in Hy. destruct Hy as (c' & Hc' & Hy).
        apply in_map_iff in Hy. destruct Hy as (y' & <- & _).
        unfold seq_of, seq_before. simpl. rewrite !to_seq_nested. simpl. left.
        apply in_split in Hc'. destruct Hc' as (s1 & s2 & ->).
        rewrite E at 1. rewrite index_of_split by (now rewrite <- E).
        assert (E' : cs = (pre ++ c :: s1) ++ c' :: s2)
          by (now rewrite E, <- app_assoc).
        rewrite E' at 1. rewrite index_of_split by (now rewrite <- E').
        rewrite length_app. simpl. lia. }
    exact (H [] cs eq_refl).
  - apply StronglySorted_map. unfold seq_of, seq_before, to_seq. simpl.
    now apply sorted_by_index.
  - intros x y Hx Hy.
    apply in_flat_map in Hx. destruct Hx as (c & _ & Hx).
    apply in_map_iff in Hx. destruct Hx as (x' & <- & _).
    apply in_map_iff in Hy. destruct Hy as (t & <- & _).
    unfold seq_of, seq_before. simpl. rewrite to_seq_nested. simpl. exact I.
Qed.

End FlatteningFacts.

(** C8: in a suite tree whose objects are distinct, the items that [iter]
    yields come strictly in the order of their positions (nested suites in
    the order of [suites], then the tests in the order of [tests]), the
    sequence identifier that [to_seq] computes for an item leads back to
    exactly that item when followed from the top-level suite, and every
    test that a sequence identifier leads to is among the items. *)
Theorem iter_keeps_declaration_order_and_to_seq_locates :
  forall top : Suites.Suite,
    Suites.distinct_objects top ->
    StronglySorted
      (fun p q => Suites.seq_before (seq_of top p) (seq_of top q))
      (Suites.iter top [])
    /\ (forall ss t,
          In (ss, t) (Suites.iter top []) ->
          Suites.locate top (Suites.to_seq top ss t) = Some (ss, t))
    /\ (forall seq p, Suites.locate top seq = Some p -> In p (Suites.iter top [])).
Proof.
  intros top Hd. repeat split.
  - now apply iter_sorted.
  - now apply locate_to_seq.
  - intros [si ti] p. apply locate_in_iter.
Qed.

(** ** What a test case never loses *)

Section StatusFacts.

Import Runner.

Lemma keeps_refl (s : Status) : keeps s s.
Proof.
  split; [tauto|]. split; [exists []; now rewrite app_nil_r | reflexivity].
Qed.

Lemma keeps_trans (s1 s2 s3 : Status) : keeps s1 s2 -> keeps s2 s3 -> keeps s1 s3.
Proof.
  intros (F1 & (e1 & E1) & N1) (F2 & (e2 & E2) & N2).
  split; [auto|]. split; [|congruence].
  exists (e1 ++ e2). now rewrite E2, E1, app_assoc.
Qed.

Lemma keeping_push_errors (es : list string) : keeping (push_errors es).
Proof.
  intros s. split; [simpl; tauto|]. split; [now exists es | reflexivity].
Qed.

Lemma keeping_set_failure : keeping set_failure.
Proof.
  intros s. split; [reflexivity|].
  split; [exists []; simpl; now rewrite app_nil_r | reflexivity].
Qed.

Lemma keeping_set_timeout : keeping set_timeout.
Proof.
  intros s. split; [simpl; tauto|].
  split; [exists []; simpl; now rewrite app_nil_r | reflexivity].
Qed.

Lemma keeping_set_skipped : keeping set_skipped.
Proof.
  intros s. split; [simpl; tauto|].
  split; [exists []; simpl; now rewrite app_nil_r | reflexivity].
Qed.

Lemma keeping_set_baseline (b : string) : keeping (set_baseline b).
Proof.
  intros s. split; [simpl; tauto|].
  split; [exists []; simpl; now rewrite app_nil_r | reflexivity].
Qed.

Lemma keeping_set_baseline_diff (d : string) : keeping (set_baseline_diff d).
Proof.
  intros s. split; [simpl; tauto|].
  split; [exists []; simpl; now rewrite app_nil_r | reflexivity].
Qed.

Lemma keeping_set_reference (b : Buffer) : keeping (set_reference b).
Proof.
  intros s. split; [simpl; tauto|].
  split; [exists []; simpl; now rewrite app_nil_r | reflexivity].
Qed.

Lemma keeping_set_image (b : Buffer) : keeping (set_image b).
Proof.
  intros s. split; [simpl; tauto|].
  split; [exists []; simpl; now rewrite app_nil_r | reflexivity].
Qed.

Lemma keeping_set_image_diff (b : Buffer) : keeping (set_image_diff b).
Proof.
  intros s. split; [simpl; tauto|].
  split; [exists []; simpl; now rewrite app_nil_r | reflexivity].
Qed.

End StatusFacts.

Section RunFacts.

Import Suites Runner.

Context `{Collaborators}.

Section Advances.

Variable P : Event -> Prop.
Variable Q : Status -> Status -> Prop.
Context {Q_preorder : PreOrder Q}.

Lemma advances_refl (r : Run) : advances P Q r r.
Proof.
  split; [reflexivity|]. exists []. split; [now rewrite app_nil_r | constructor].
Qed.

Lemma advances_trans (r1 r2 r3 : Run) :
  advances P Q r1 r2 -> advances P Q r2 r3 -> advances P Q r1 r3.
Proof.
  intros (K1 & e1 & E1 & F1) (K2 & e2 & E2 & F2). split.
  - etransitivity; eassumption.
  - exists (e1 ++ e2). split; [now rewrite E2, E1, app_assoc|].
    apply Forall_app. now split.
Qed.

Lemma advances_update (f : Status -> Status) (r r' : Run) :
  allowed Q f -> advances P Q r r' -> advances P Q r (update f r').
Proof.
  intros Hf (K & evs & E & F). split; simpl.
  - etransitivity; [exact K | apply Hf].
  - now exists evs.
Qed.

Lemma advances_emit (e : Event) (r r' : Run) :
  P e -> advances P Q r r' -> advances P Q r (emit e r').
Proof.
  intros He (K & evs & E & F). split; simpl; [exact K|].
  exists (evs ++ [e]). split; [now rewrite E, app_assoc|].
  apply Forall_app. split; [exact F | now constructor].
Qed.

Lemma advances_set_may_retry (b : bool) (r r' : Run) :
  advances P Q r r' -> advances P Q r (set_may_retry b r').
Proof. intros (K & evs & E). split; simpl; [exact K | now exists evs]. Qed.

Lemma advances_throw (t : Thrown) (r r' : Run) :
  advances P Q r r' -> advances P Q r (throw t r').
Proof. intros (K & evs & E). split; simpl; [exact K | now exists evs]. Qed.

Lemma advances_receive (a : Attempt) (r r' : Run) :
  advances P Q r r' -> advances P Q r (receive a r').
Proof. intros (K & evs & E). split; simpl; [exact K | now exists evs]. Qed.

End Advances.

End RunFacts.

#[export] Instance keeps_preorder : PreOrder keeps.
Proof. split; [intros s; apply keeps_refl | intros a b c; apply keeps_trans]. Qed.

#[export] Instance same_baseline_preorder : PreOrder same_baseline.
Proof.
  split; [intros s; now split|].
  intros a b c [E1 E2] [E3 E4]. split; congruence.
Qed.

#[export] Instance any_status_preorder : PreOrder (fun _ _ : Runner.Status => True).
Proof. split; [intros s; exact I | intros a b c _ _; exact I]. Qed.

(** Goals [advances P Q r (...)], for the three instances above, where
    the right side is built from the operations of a run. *)
Ltac solve_allowed :=
  intros ?;
  first
    [ apply keeping_push_errors | apply keeping_set_failure | apply keeping_set_timeout
    | apply keeping_set_skipped | apply keeping_set_baseline
    | apply keeping_set_baseline_diff | apply keeping_set_reference
    | apply keeping_set_image | apply keeping_set_image_diff
    | solve [split; reflexivity]
    | exact I ].

Ltac advances_step :=
  first
    [ assumption
    | apply advances_refl; typeclasses eauto
    | apply advances_update; [typeclasses eauto | solve_allowed |]
    | apply advances_emit; [first [exact I | reflexivity] |]
    | apply advances_set_may_retry
    | apply advances_throw
    | apply advances_receive ].

Ltac advances_auto :=
  repeat first
    [ advances_step
    | match goal with
      | |- advances _ _ _ (match ?x with _ => _ end) => destruct x eqn:?
      | |- advances _ _ _ (if ?x then _ else _) => destruct x eqn:?
      end ].

Section AttemptFacts.

Import Suites Runner.

Context `{Collaborators}.
Variables (cfg : Config) (top_level : Suite) (suites : list Suite) (test : Test)
          (baseline_name : string).

Lemma test_screenshot_extends attempt file current existing (r0 r : Run) :
  extends r0 r -> extends r0 (test_screenshot test attempt file current existing r).
Proof. unfold extends, test_screenshot. intros Hr. advances_auto. Qed.

Lemma test_screenshot_without_baseline attempt file current existing (r0 r : Run) :
  without_baseline r0 r ->
  without_baseline r0 (test_screenshot test attempt file current existing r).
Proof. unfold without_baseline, test_screenshot. intros Hr. advances_auto. Qed.

Lemma test_screenshot_within_call attempt file current existing (r0 r : Run) :
  within_call r0 r ->
  within_call r0 (test_screenshot test attempt file current existing r).
Proof. unfold within_call, test_screenshot. intros Hr. advances_auto. Qed.

Lemma compare_screenshot_extends attempt path result a (r0 r : Run) :
  extends r0 r -> extends r0 (compare_screenshot cfg test attempt path result a r).
Proof.
  intros Hr. unfold compare_screenshot.
  destruct (bbox result); [|assumption].
  destruct (screenshot cfg) as [mode|];
    repeat match goal with |- extends _ (if ?x then _ else _) => destruct x end;
    try apply test_screenshot_extends; unfold extends in *; advances_auto.
Qed.

Lemma compare_screenshot_without_baseline attempt path result a (r0 r : Run) :
  without_baseline r0 r ->
  without_baseline r0 (compare_screenshot cfg test attempt path result a r).
Proof.
  intros Hr. unfold compare_screenshot.
  destruct (bbox result); [|assumption].
  destruct (screenshot cfg) as [mode|];
    repeat match goal with |- without_baseline _ (if ?x then _ else _) => destruct x end;
    try apply test_screenshot_without_baseline; unfold without_baseline in *; advances_auto.
Qed.

Lemma compare_screenshot_within_call attempt path result a (r0 r : Run) :
  within_call r0 r ->
  within_call r0 (compare_screenshot cfg test attempt path result a r).
Proof.
  intros Hr. unfold compare_screenshot.
  destruct (bbox result); [|assumption].
  destruct (screenshot cfg) as [mode|];
    repeat match goal with |- within_call _ (if ?x then _ else _) => destruct x end;
    try apply test_screenshot_within_call; unfold within_call in *; advances_auto.
Qed.

Lemma compare_baseline_extends path state_early state a (r0 r : Run) :
  extends r0 r -> extends r0 (compare_baseline cfg test path state_early state a r).
Proof. unfold extends, compare_baseline. intros Hr. advances_auto. Qed.

Lemma compare_baseline_within_call path state_early state a (r0 r : Run) :
  within_call r0 r -> within_call r0 (compare_baseline cfg test path state_early state a r).
Proof. unfold within_call, compare_baseline. intros Hr. advances_auto. Qed.

Lemma check_result_extends attempt result a (r0 r : Run) :
  extends r0 r ->
  extends r0 (check_result cfg top_level suites test baseline_name attempt result a r).
Proof.
  intros Hr. unfold check_result, state_not_present.
  destruct (baselinesRoot cfg); [|unfold extends in *; advances_auto].
  apply compare_screenshot_extends.
  destruct (state result); [|unfold extends in *; advances_auto].
  destruct (state_output a) as [[st|]| |];
    try apply compare_baseline_extends; unfold extends in *; advances_auto.
Qed.

Lemma check_result_within_call attempt result a (r0 r : Run) :
  within_call r0 r ->
  within_call r0 (check_result cfg top_level suites test baseline_name attempt result a r).
Proof.
  intros Hr. unfold check_result, state_not_present.
  destruct (baselinesRoot cfg); [|unfold within_call in *; advances_auto].
  apply compare_screenshot_within_call.
  destruct (state result); [|unfold within_call in *; advances_auto].
  destruct (state_output a) as [[st|]| |];
    try apply compare_baseline_within_call; unfold within_call in *; advances_auto.
Qed.

Lemma check_output_extends attempt a (r0 r : Run) :
  extends r0 r ->
  extends r0 (check_output cfg top_level suites test baseline_name attempt a r).
Proof.
  intros Hr. unfold check_output.
  destruct (run_output a); [apply check_result_extends| |];
    unfold extends in *; advances_auto.
Qed.

Lemma check_output_within_call attempt a (r0 r : Run) :
  within_call r0 r ->
  within_call r0 (check_output cfg top_level suites test baseline_name attempt a r).
Proof.
  intros Hr. unfold check_output.
  destruct (run_output a); [apply check_result_within_call| |];
    unfold within_call in *; advances_auto.
Qed.

Lemma run_test_extends attempt a (r0 r : Run) :
  extends r0 r ->
  extends r0 (run_test cfg top_level suites test baseline_name attempt a r).
Proof.
  intros Hr. unfold run_test.
  assert (Hc : forall r1, extends r0 r1 ->
    extends r0 (emit (Evaluate ("Tests.clear(" +:+ seq top_level suites test +:+ ")"))
      (check_output cfg top_level suites test baseline_name attempt a r1))).
  { intros r1 H1. apply advances_emit; [exact I|]. now apply check_output_extends. }
  destruct (clear_output a);
    [| apply advances_update; [typeclasses eauto | solve_allowed |];
       apply advances_update; [typeclasses eauto | solve_allowed |] |];
    apply Hc; unfold extends in *; advances_auto.
Qed.

Lemma retry_loop_extends answers n : forall i (r0 r : Run),
  extends r0 r ->
  extends r0 (retry_loop cfg top_level suites test baseline_name answers n i r).
Proof.
  induction n as [|n IH]; intros i r0 r Hr; simpl; [assumption|].
  destruct (thrown _); [now apply run_test_extends|].
  destruct (may_retry _); [|now apply run_test_extends].
  apply IH. now apply run_test_extends.
Qed.

Lemma run_attempts_extends answers (r0 r : Run) :
  extends r0 r ->
  extends r0 (run_attempts cfg top_level suites test baseline_name answers r).
Proof.
  intros Hr. unfold run_attempts.
  destruct (thrown _); [now apply run_test_extends|].
  destruct (_ && _); [|now apply run_test_extends].
  apply retry_loop_extends. now apply run_test_extends.
Qed.

End AttemptFacts.

(** ** The two snapshots of the state *)

Section InconsistentState.

Import Suites Runner.

Context `{Collaborators}.

(** C2: in a call of [run_test] with a baselines directory configured,
    when the state embedded in the result of the run and the state
    returned by the follow-up query give different baseline texts, the
    status is marked failed, the errors record "inconsistent state" with
    both texts, and nothing of the comparison with the stored baseline
    happens in that call (no baseline file is written, loaded or
    compared; [baseline] and [baseline_diff] are left as they were),
    whatever the stored baseline is. *)
Theorem inconsistent_state_is_a_failure
    (cfg : Config) (top_level : Suite) (suites : list Suite) (test : Test)
    (baseline_name : string) (attempt : option nat) (a : Attempt) (r : Run)
    (root : string) (result : Result) (state_early state_later : State) :
  baselinesRoot cfg = Some root ->
  run_output a = Value result ->
  state result = Some state_early ->
  state_output a = Value (Some state_later) ->
  create_baseline [state_early] <> create_baseline [state_later] ->
  let r' := run_test cfg top_level suites test baseline_name attempt a r in
  failure (status r') = Some true
  /\ (exists before after,
        errors (status r')
        = before
          ++ ["inconsistent state"; "early:"; create_baseline [state_early];
              "later:"; create_baseline [state_later]]
          ++ after)
  /\ (exists evs,
        events r' = events r ++ evs
        /\ Forall (fun e => is_baseline_io e = false) evs)
  /\ baseline (status r') = baseline (status r)
  /\ baseline_diff (status r') = baseline_diff (status r).
Proof.
  intros Hroot Hrun Hstate Hlater Hne r'.
  apply String.eqb_neq in Hne.
  subst r'. unfold run_test, check_output. rewrite Hrun.
  unfold check_result. rewrite Hroot, Hstate, Hlater.
  unfold compare_baseline. rewrite Hne. cbn [negb].
  match goal with
  | |- context [update (push_errors ["inconsistent state"]) ?y] => set (Y := y)
  end.
  match goal with
  | |- context [compare_screenshot _ _ _ _ _ _ ?x] => set (X := x)
  end.
  match goal with
  | |- context [emit ?e (compare_screenshot ?c ?t ?at' ?p ?res ?a' X)] =>
      set (Z := emit e (compare_screenshot c t at' p res a' X))
  end.
  assert (HrY : without_baseline r Y).
  { subst Y. unfold without_baseline. advances_auto. }
  assert (HYX : without_baseline Y X).
  { subst X. unfold without_baseline. advances_auto. }
  assert (HXZ : without_baseline X Z /\ extends X Z).
  { subst Z. split.
    - apply advances_emit; [reflexivity|].
      apply compare_screenshot_without_baseline. apply advances_refl. typeclasses eauto.
    - apply advances_emit; [exact I|].
      apply compare_screenshot_extends. apply advances_refl. typeclasses eauto. }
  destruct HXZ as [HXZ HXZ'].
  match goal with
  | |- context [failure (status ?f)] => set (F := f)
  end.
  assert (HZF : without_baseline Z F /\ extends Z F).
  { subst F. destruct (clear_output a); split;
      unfold without_baseline, extends; advances_auto. }
  destruct HZF as [HZF HZF'].
  assert (HrF : without_baseline r F).
  { eapply advances_trans; [typeclasses eauto | exact HrY |].
    eapply advances_trans; [typeclasses eauto | exact HYX |].
    eapply advances_trans; [typeclasses eauto | exact HXZ | exact HZF]. }
  assert (HXF : extends X F).
  { eapply advances_trans; [typeclasses eauto | exact HXZ' | exact HZF']. }
  destruct HXF as ((Hf & (es & Hes) & _) & _).
  destruct HrF as ((Hb & Hd) & evs & Hevs & Hio).
  split; [apply Hf; reflexivity|].
  split.
  - exists (errors (status Y)), es. rewrite Hes. subst X. simpl.
    now rewrite <- !app_assoc.
  - split; [now exists evs|]. now split.
Qed.

End InconsistentState.

(** ** The comparison of the screenshot *)

Section Screenshots.

Import Suites Runner.

Context `{Collaborators}.

Lemma buffer_equals_false (a b : Buffer) : a <> b -> buffer_equals a b = false.
Proof. intros Hne. unfold buffer_equals. now destruct (List.list_eq_dec _ a b). Qed.

(** What the screenshot step does when the reference image exists and
    [diff_image] reports a difference. *)
Lemma test_screenshot_differs (test : Test) (attempt : option nat) (file : string)
    (current existing : Buffer) (d : ImageDiff) (r : Run) :
  existing <> current ->
  diff_image existing current = Some d ->
  test_screenshot test attempt file current (Some existing) r
  = let r1 := set_may_retry true (update (set_reference existing) r) in
    if (match threshold test with Some t => t | None => 0 end) <? pixels d then
      update (push_errors [images_differ d attempt])
        (update (set_image_diff (diff d))
           (update set_failure (emit (WriteImage file current) r1)))
    else r1.
Proof.
  intros Hne Hd. unfold test_screenshot.
  now rewrite (buffer_equals_false _ _ Hne), Hd.
Qed.

Lemma compare_screenshot_test_mode (cfg : Config) (test : Test) (attempt : option nat)
    (path : string) (result : Result) (a : Attempt) (r : Run) (box : Box) :
  screenshot cfg = None \/ screenshot cfg = Some "test" ->
  bbox result = Some box ->
  compare_screenshot cfg test attempt path result a r
  = test_screenshot test attempt (path +:+ ".png") (captured a) (existing_image a)
      (emit (LoadBaselineImage (path +:+ ".png") (git_ref cfg))
         (update (set_image (captured a)) (emit (CaptureScreenshot box) r))).
Proof.
  intros Hmode Hbox. unfold compare_screenshot. rewrite Hbox.
  destruct Hmode as [-> | ->]; reflexivity.
Qed.

(** C5, as amended: in screenshot mode "test", for a test with a
    capturable region and a stored reference image from which the
    captured bitmap differs, the screenshot step records a failure, with
    the message that gives the pixel count and the percentage, exactly
    when the pixel count exceeds the threshold of the test (0 when it has
    none); at or below the threshold the status keeps its failure flag,
    its errors and its image difference; and every difference above the
    threshold makes the call of [run_test] return [may_retry] set, with
    the failure and the message in the status. *)
Theorem image_difference_fails_above_threshold
    (cfg : Config) (top_level : Suite) (suites : list Suite) (test : Test)
    (baseline_name : string) (attempt : option nat) (a : Attempt) (r : Run)
    (path root : string) (result : Result) (box : Box) (existing : Buffer)
    (d : ImageDiff) :
  screenshot cfg = None \/ screenshot cfg = Some "test" ->
  bbox result = Some box ->
  existing_image a = Some existing ->
  existing <> captured a ->
  diff_image existing (captured a) = Some d ->
  let limit := match threshold test with Some t => t | None => 0 end in
  let r' := compare_screenshot cfg test attempt path result a r in
  errors (status r')
  = errors (status r) ++ (if limit <? pixels d then [images_differ d attempt] else [])
  /\ failure (status r')
     = (if limit <? pixels d then Some true else failure (status r))
  /\ image_diff (status r')
     = (if limit <? pixels d then Some (diff d) else image_diff (status r))
  /\ (limit < pixels d -> may_retry r' = true)
  /\ (limit < pixels d ->
      baselinesRoot cfg = Some root ->
      run_output a = Value result ->
      let r'' := run_test cfg top_level suites test baseline_name attempt a r in
      may_retry r'' = true
      /\ failure (status r'') = Some true
      /\ In (images_differ d attempt) (errors (status r''))).
Proof.
  intros Hmode Hbox Hex Hne Hd limit r'.
  assert (E : forall p r0,
    compare_screenshot cfg test attempt p result a r0
    = let r1 := set_may_retry true (update (set_reference existing)
                  (emit (LoadBaselineImage (p +:+ ".png") (git_ref cfg))
                     (update (set_image (captured a))
                        (emit (CaptureScreenshot box) r0)))) in
      if limit <? pixels d then
        update (push_errors [images_differ d attempt])
          (update (set_image_diff (diff d))
             (update set_failure (emit (WriteImage (p +:+ ".png") (captured a)) r1)))
      else r1).
  { intros p r0.
    rewrite (compare_screenshot_test_mode _ _ _ _ _ _ _ box Hmode Hbox), Hex.
    now rewrite (test_screenshot_differs _ _ _ _ _ d _ Hne Hd). }
  subst r'. rewrite E.
  destruct (Z.ltb_spec limit (pixels d)) as [Hlt|Hle]; simpl.
  - split; [reflexivity|]. split; [reflexivity|]. split; [reflexivity|].
    split; [reflexivity|].
    intros _ Hroot Hrun.
    unfold run_test, check_output. rewrite Hrun.
    unfold check_result. rewrite Hroot, E. cbv zeta.
    match goal with
    | |- context [emit ?e (update (push_errors ?m) ?x)] =>
        set (X := update (push_errors m) x); set (Y := emit e X)
    end.
    assert (HX : may_retry X = true /\ failure (status X) = Some true
                 /\ In (images_differ d attempt) (errors (status X))).
    { subst X; simpl. repeat split. apply in_or_app. right. now left. }
    destruct HX as (HXm & HXf & HXe). clearbody X.
    assert (HY : may_retry Y = true /\ extends X Y).
    { subst Y. split; [exact HXm|].
      apply advances_emit; [exact I|]. apply advances_refl. typeclasses eauto. }
    destruct HY as (HYm & HYX). clearbody Y.
    match goal with
    | |- context [may_retry ?f] => set (F := f)
    end.
    assert (HF : may_retry F = true /\ extends X F).
    { subst F. destruct (clear_output a); split; try exact HYm; try exact HYX.
      unfold extends in *. advances_auto. }
    destruct HF as (HFm & (Hf & (es & Hes) & _) & _).
    split; [exact HFm|]. split; [now apply Hf|].
    rewrite Hes. apply in_or_app. now left.
  - rewrite app_nil_r. split; [reflexivity|]. split; [reflexivity|].
    split; [reflexivity|]. split; intros; lia.
Qed.

End Screenshots.

(** ** The retries *)

Section Retries.

Import Suites Runner.

Context `{Collaborators}.

Lemma calls_app (e1 e2 : list Event) : calls (e1 ++ e2) = calls e1 ++ calls e2.
Proof. apply flat_map_app. Qed.

Lemma calls_none (evs : list Event) :
  Forall (fun e => is_call e = false) evs -> calls evs = [].
Proof.
  induction 1 as [|e evs He _ IH]; [reflexivity|].
  unfold calls in *; simpl. rewrite IH. now destruct e.
Qed.

Variables (cfg : Config) (top_level : Suite) (suites : list Suite) (test : Test)
          (baseline_name : string).

Abbreviation run_test := (run_test cfg top_level suites test baseline_name).
Abbreviation retry_loop := (retry_loop cfg top_level suites test baseline_name).
Abbreviation run_attempts := (run_attempts cfg top_level suites test baseline_name).

(** A call of [run_test] is one call, tagged with its [attempt]. *)
Lemma run_test_calls (attempt : option nat) (a : Attempt) (r : Run) :
  calls (events (run_test attempt a r)) = calls (events r) ++ [attempt].
Proof.
  assert (W : within_call (emit (RunTest attempt) (set_may_retry false r))
                          (run_test attempt a r)).
  { unfold Runner.run_test.
    set (r1 := emit (RunTest attempt) (set_may_retry false r)).
    assert (Hc : forall r2, within_call r1 r2 ->
      within_call r1
        (emit (Evaluate ("Tests.clear(" +:+ seq top_level suites test +:+ ")"))
           (check_output cfg top_level suites test baseline_name attempt a r2))).
    { intros r2 H2. apply advances_emit; [reflexivity|].
      now apply check_output_within_call. }
    destruct (clear_output a);
      [| apply advances_update; [typeclasses eauto | solve_allowed |];
         apply advances_update; [typeclasses eauto | solve_allowed |] |];
      apply Hc; unfold within_call; advances_auto. }
  destruct W as (_ & evs & E & F).
  rewrite E, calls_app, (calls_none _ F), app_nil_r. simpl.
  now rewrite calls_app.
Qed.

(** The [for] loop of the retries goes round [m] times, at most [n]; the
    rounds are tagged [i], [i + 1], ...; after every round but the last
    the call has returned [may_retry] set and nothing was thrown; and if
    rounds were left, the last call did not return [may_retry] set, or
    something was thrown. *)
Lemma retry_loop_rounds (answers : nat -> Attempt) (n : nat) :
  forall (i : nat) (r : Run),
  exists m : nat,
    (m <= n)%nat
    /\ retry_loop answers n i r = retry_loop answers m i r
    /\ calls (events (retry_loop answers n i r))
       = calls (events r) ++ map Some (List.seq i m)
    /\ (forall q, (0 < q < m)%nat ->
          may_retry (retry_loop answers q i r) = true
          /\ thrown (retry_loop answers q i r) = None)
    /\ ((m < n)%nat ->
          may_retry (retry_loop answers m i r) = false
          \/ thrown (retry_loop answers m i r) <> None).
Proof.
  induction n as [|n IH]; intros i r.
  - exists O. split; [lia|]. split; [reflexivity|].
    split; [simpl; now rewrite app_nil_r|]. split; intros; lia.
  - set (r1 := run_test (Some i) (answers (S i)) r).
    assert (Hstep : forall k, retry_loop answers (S k) i r
              = match thrown r1 with
                | Some _ => r1
                | None => if may_retry r1 then retry_loop answers k (S i) r1 else r1
                end) by reflexivity.
    assert (Hc1 : calls (events r1) = calls (events r) ++ [Some i])
      by apply run_test_calls.
    destruct (thrown r1) as [t|] eqn:Et; [|destruct (may_retry r1) eqn:Em].
    + exists 1%nat. rewrite !Hstep.
      split; [lia|]. split; [reflexivity|]. split; [exact Hc1|].
      split; [intros; lia|]. intros _. right. congruence.
    + destruct (IH (S i) r1) as (m & Hm & Heq & Hcalls & Hmid & Hlast).
      exists (S m). rewrite !Hstep.
      split; [lia|]. split; [exact Heq|].
      split; [rewrite Hcalls, Hc1, <- app_assoc; reflexivity|].
      split.
      * intros [|q] Hq; [lia|]. rewrite Hstep.
        destruct q as [|q]; [now split|]. apply Hmid. lia.
      * intros Hlt. apply Hlast. lia.
    + exists 1%nat. rewrite !Hstep.
      split; [lia|]. split; [reflexivity|]. split; [exact Hc1|].
      split; [intros; lia|]. intros _. now left.
Qed.

(** C6: for a test case that is run, [run_test] is called once without a
    tag and then [m] more times, tagged 0, 1, ..., [m - 1], where [m] is at
    most the budget ([test.retries], or 10 when the test has none; a
    negative budget counts as none); a retry happens only if the test
    declares a budget or the global flag is set, and only after a call
    that returned [may_retry] set and threw nothing; and when the budget
    is not used up, the last call did not return [may_retry] set, or
    threw, or the test was not eligible at all. *)
Theorem retries_stop_at_budget_or_first_ineligible_attempt
    (answers : nat -> Attempt) (r : Run) :
  let budget := match retries test with Some n => n | None => 10 end in
  let first := run_test None (answers O) r in
  let r' := run_attempts answers r in
  exists m : nat,
    r' = retry_loop answers m O first
    /\ calls (events r') = calls (events r) ++ None :: map Some (List.seq 0 m)
    /\ Z.of_nat m <= Z.max 0 budget
    /\ Z.of_nat (List.length (calls (events r')) - List.length (calls (events r)))
       <= 1 + Z.max 0 budget
    /\ (forall q, (q < m)%nat ->
          (retry cfg = true \/ is_Some (retries test))
          /\ may_retry (retry_loop answers q O first) = true
          /\ thrown (retry_loop answers q O first) = None)
    /\ ((m < Z.to_nat budget)%nat ->
          may_retry r' = false \/ thrown r' <> None
          \/ (retry cfg = false /\ retries test = None)).
Proof.
  intros budget first r'.
  assert (Hc1 : calls (events first) = calls (events r) ++ [None])
    by apply run_test_calls.
  assert (Hzero :
    r' = first ->
    (thrown first <> None \/ may_retry first = false
     \/ (retry cfg = false /\ retries test = None)) ->
    exists m : nat,
      r' = retry_loop answers m O first
      /\ calls (events r') = calls (events r) ++ None :: map Some (List.seq 0 m)
      /\ Z.of_nat m <= Z.max 0 budget
      /\ Z.of_nat (List.length (calls (events r')) - List.length (calls (events r)))
         <= 1 + Z.max 0 budget
      /\ (forall q, (q < m)%nat ->
            (retry cfg = true \/ is_Some (retries test))
            /\ may_retry (retry_loop answers q O first) = true
            /\ thrown (retry_loop answers q O first) = None)
      /\ ((m < Z.to_nat budget)%nat ->
            may_retry r' = false \/ thrown r' <> None
            \/ (retry cfg = false /\ retries test = None))).
  { intros E Hwhy. exists O. rewrite E.
    split; [reflexivity|]. split; [exact Hc1|]. split; [lia|].
    split; [rewrite Hc1, length_app; simpl; lia|].
    split; [intros; lia|]. intros _. tauto. }
  subst r'. unfold Runner.run_attempts in *. fold first in Hzero |- *.
  destruct (thrown first) as [t|] eqn:Et.
  { apply Hzero; [reflexivity|]. left. congruence. }
  destruct (may_retry first) eqn:Em; cycle 1.
  { rewrite andb_false_r in *. apply Hzero; [reflexivity|]. tauto. }
  rewrite andb_true_r in *.
  destruct (retry cfg || bool_decide (is_Some (retries test))) eqn:El; cycle 1.
  { apply Hzero; [reflexivity|]. right. right.
    apply orb_false_iff in El. destruct El as [E1 E2].
    split; [exact E1|]. apply bool_decide_eq_false in E2.
    destruct (retries test); [exfalso; apply E2; eauto | reflexivity]. }
  clear Hzero. fold budget.
  destruct (retry_loop_rounds answers (Z.to_nat budget) O first)
    as (m & Hm & Heq & Hcalls & Hmid & Hlast).
  exists m. split; [exact Heq|].
  split; [rewrite Hcalls, Hc1, <- app_assoc; reflexivity|].
  split; [lia|].
  split; [rewrite Hcalls, Hc1, !length_app, length_map, length_seq; simpl; lia|].
  split.
  - intros q Hq. split.
    + apply orb_true_iff in El. destruct El as [E1|E2]; [now left|].
      right. now apply bool_decide_eq_true in E2.
    + destruct q as [|q]; [now split|]. apply Hmid. lia.
  - intros Hlt. rewrite Heq. destruct (Hlast Hlt) as [E|E]; tauto.
Qed.

End Retries.

(** ** Names of baselines used twice *)

Section DuplicateNames.

Import Suites Runner.

Context `{Collaborators}.

Variables (cfg : Config) (w : World) (top_level : Suite).

Lemma run_case_processed (pos : nat) (it : TestItem) (l : Loop) :
  exists st,
    processed (run_case cfg w top_level pos it l)
    = processed l ++ [(item_suites it, item_test it, st)]
    /\ (baseline_name_of it ∈ baseline_names l ->
        marked_duplicate (item_suites it, item_test it, st))
    /\ (skip (item_test it) = true -> skipped st = Some true)
    /\ (loop_thrown (run_case cfg w top_level pos it l) = None ->
        failed st = true -> (0 < failures (run_case cfg w top_level pos it l))%nat)
    /\ (loop_thrown (run_case cfg w top_level pos it l) = None ->
        (failures l <= failures (run_case cfg w top_level pos it l))%nat)
    /\ (forall x, x ∈ baseline_names (run_case cfg w top_level pos it l)
                  <-> x = baseline_name_of it \/ x ∈ baseline_names l).
Proof.
  unfold run_case. fold (baseline_name_of it).
  set (name := baseline_name_of it).
  set (st0 := set_baseline_name name (item_status it)).
  set (dup := bool_decide (name ∈ baseline_names l)).
  set (st1 := if dup then set_failure (push_errors ["duplicated description"] st0) else st0).
  set (r0 := mk_run st1 [] [] false (loop_events l) None).
  set (r := if skip (item_test it) then update set_skipped r0
            else run_attempts cfg top_level (item_suites it) (item_test it) name
                   (attempt_at w pos) r0).
  assert (Hext : extends r0 r).
  { subst r. destruct (skip (item_test it)).
    - unfold extends. advances_auto.
    - apply run_attempts_extends. apply advances_refl. typeclasses eauto. }
  destruct Hext as ((Hf & (es & Hes) & _) & _).
  exists (status r).
  split; [destruct (thrown r); reflexivity|].
  split.
  { intros Hin. unfold marked_duplicate, item_status; simpl.
    assert (Hd : dup = true) by (now apply bool_decide_eq_true).
    assert (E1 : st1 = set_failure (push_errors ["duplicated description"] st0))
      by (subst st1; now rewrite Hd).
    split.
    - rewrite Hes. apply in_or_app. left. simpl status. rewrite E1. simpl.
      apply in_or_app. right. now left.
    - apply Hf. simpl status. now rewrite E1. }
  split.
  { intros Hs. subst r. rewrite Hs. reflexivity. }
  split.
  { destruct (thrown r); [discriminate|]. simpl. intros _ ->. lia. }
  split.
  { destruct (thrown r); [discriminate|]. simpl. intros _.
    destruct (failed (status r)); lia. }
  intros x. unfold dup.
  destruct (thrown r); simpl;
    destruct (bool_decide_reflect (name ∈ baseline_names l)) as [Hin|Hin];
    rewrite ?elem_of_union, ?elem_of_singleton;
    try tauto; (split; [tauto | intros [-> | ?]; assumption]).
Qed.

(** The body of the loop keeps the invariant. *)
Lemma run_case_invariant (pos : nat) (it : TestItem) (l : Loop) :
  loop_thrown l = None ->
  loop_invariant l -> loop_invariant (run_case cfg w top_level pos it l).
Proof.
  intros Hl [Hn Hd Hs Hc].
  destruct (run_case_processed pos it l) as (st & Hp & Hdup & Hskip & Hfail & Hmono & Hnames).
  set (it' := (item_suites it, item_test it, st)) in *.
  assert (Hname : baseline_name_of it' = baseline_name_of it) by reflexivity.
  constructor; rewrite ?Hp.
  - intros x. rewrite Hnames, Hn. split.
    + intros [-> | (i0 & Hi0 & <-)].
      * exists it'. split; [apply in_or_app; right; now left | exact Hname].
      * exists i0. split; [apply in_or_app; now left | reflexivity].
    + intros (i0 & Hi0 & <-). apply in_app_or in Hi0.
      destruct Hi0 as [Hi0 | [<- | []]]; [right; eauto | left; exact Hname].
  - intros k i0 Hk (j & i1 & Hj & Hi1 & Heq).
    assert (Hjl : (j < List.length (processed l))%nat).
    { assert (Hk' : (k < List.length (processed l ++ [it']))%nat)
        by (apply nth_error_Some; congruence).
      rewrite length_app in Hk'; simpl in Hk'. lia. }
    rewrite nth_error_app1 in Hi1 by exact Hjl.
    destruct (Nat.lt_ge_cases k (List.length (processed l))) as [Hkl|Hkl].
    + rewrite nth_error_app1 in Hk by exact Hkl.
      apply (Hd k i0 Hk). exists j, i1. repeat split; assumption.
    + rewrite nth_error_app2 in Hk by exact Hkl.
      destruct (k - List.length (processed l))%nat as [|[|?]] eqn:Ek;
        simpl in Hk; try discriminate.
      injection Hk as <-. apply Hdup. rewrite <- Hname, <- Heq.
      apply Hn. exists i1. split; [eapply nth_error_In, Hi1 | reflexivity].
  - intros i0 Hi0 Hsk. apply in_app_or in Hi0.
    destruct Hi0 as [Hi0 | [<- | []]]; [now apply Hs | now apply Hskip].
  - intros Ht i0 Hi0 Hf. apply in_app_or in Hi0.
    destruct Hi0 as [Hi0 | [<- | []]]; [|now apply Hfail].
    specialize (Hmono Ht). specialize (Hc Hl i0 Hi0 Hf). lia.
Qed.

End DuplicateNames.

Section WholeRun.

Import Suites Runner.

Context `{Collaborators}.

Variables (cfg : Config) (w : World).

Lemma loop_invariant_start (evs : list Event) : loop_invariant (mk_loop ∅ O O [] evs None).
Proof.
  constructor; simpl.
  - intros x. split; [intros Hx; now apply not_elem_of_empty in Hx|].
    intros (it & [] & _).
  - intros [|k] it; discriminate.
  - intros it [].
  - intros _ it [].
Qed.

(** The loop keeps the invariant. *)
Lemma run_loop_invariant (top_level : Suite) (ts : list (Js.slot TestItem)) :
  forall (pos : nat) (l : Loop),
    loop_thrown l = None -> loop_invariant l ->
    loop_invariant (run_loop cfg w top_level pos ts l).
Proof.
  induction ts as [|[|[it|]] ts IH]; intros pos l Hl Hinv; simpl.
  - exact Hinv.
  - destruct Hinv as [Hn Hd Hs Hc]. constructor; simpl; try assumption. discriminate.
  - pose proof (run_case_invariant cfg w top_level pos it l Hl Hinv) as Hinv'.
    destruct (loop_thrown (run_case cfg w top_level pos it l)) eqn:Et; [exact Hinv'|].
    now apply IH.
  - destruct Hinv as [Hn Hd Hs Hc]. constructor; simpl; try assumption. discriminate.
Qed.

(** Without anything thrown, the loop goes through every test case, in
    the order of [test_suite]. *)
Lemma run_loop_goes_through_every_test_case (top_level : Suite)
    (ts : list (Js.slot TestItem)) :
  forall (pos : nat) (l : Loop),
    loop_thrown (run_loop cfg w top_level pos ts l) = None ->
    exists gone,
      processed (run_loop cfg w top_level pos ts l) = processed l ++ gone
      /\ map (Js.slot_map (fun it => (item_suites it, item_test it))) ts
         = map (fun it => Js.elem (Some (item_suites it, item_test it))) gone.
Proof.
  induction ts as [|[|[it|]] ts IH]; intros pos l; simpl; try discriminate.
  - intros _. exists []. now rewrite app_nil_r.
  - destruct (loop_thrown (run_case cfg w top_level pos it l)) eqn:Et.
    + rewrite Et. discriminate.
    + intros Hn. destruct (IH _ _ Hn) as (gone & Hp & Hm).
      destruct (run_case_processed cfg w top_level pos it l) as (st & Hst & _).
      exists ((item_suites it, item_test it, st) :: gone).
      rewrite Hp, Hst, <- app_assoc. split; [reflexivity|].
      simpl. now rewrite Hm.
Qed.

Lemma finalize_throws (l : Loop) :
  (0 < failures l)%nat -> snd (finalize cfg w l) <> None.
Proof.
  intros Hf. unfold finalize.
  assert (E : (failures l =? 0)%nat = false) by (apply Nat.eqb_neq; lia).
  destruct (baselinesRoot cfg); [destruct (outdated w (baseline_names l))|];
    simpl; rewrite ?E; discriminate.
Qed.

(** After [run_suite], a case that has the name of an earlier one is
    marked, the skipped cases are marked skipped, and with a marked case
    something is thrown. *)
Lemma run_suite_marks_duplicates (top_level : Suite) (evs : list Event) :
  let l := run_suite cfg w top_level evs in
  (forall k it, nth_error (processed l) k = Some it ->
                name_seen_before (processed l) k it ->
                marked_duplicate it /\ loop_thrown l <> None)
  /\ (forall it, In it (processed l) -> skip (item_test it) = true ->
                 skipped (item_status it) = Some true).
Proof.
  unfold run_suite.
  set (evs1 := if randomize cfg then _ else _).
  destruct (filtered cfg (Js.items (shuffled cfg w top_level))) as [t0|ts];
    [split; [intros [|k] it; discriminate | intros it []]|].
  destruct (List.length ts =? 0)%nat;
    [split; [intros [|k] it; discriminate | intros it []]|].
  destruct (some_not_skipped ts) as [[|]|];
    [ | split; [intros [|k] it; discriminate | intros it []]
      | split; [intros [|k] it; discriminate | intros it []] ].
  set (l0 := mk_loop ∅ O O [] (evs ++ evs1) None).
  pose proof (run_loop_invariant top_level ts O l0 eq_refl (loop_invariant_start _))
    as [Hn Hd Hs Hc].
  set (rl := run_loop cfg w top_level O ts l0) in *.
  destruct (loop_thrown rl) eqn:Et.
  - rewrite Et. split; [|exact Hs].
    intros k it Hk Hdup. split; [now apply (Hd k)|discriminate].
  - pose proof (finalize_throws rl) as Hfin.
    destruct (finalize cfg w rl) as [evs2 t]. simpl in *.
    split; [|exact Hs].
    intros k it Hk Hdup. pose proof (Hd k it Hk Hdup) as Hm.
    split; [exact Hm|]. apply Hfin.
    apply (Hc eq_refl it); [eapply nth_error_In, Hk|].
    destruct Hm as [_ Hf]. unfold failed. now rewrite Hf.
Qed.

Lemma settle_not_ok (evs : list Event) (t : option Thrown) (gone : list TestItem) :
  t <> None -> ok (settle evs t gone) = false.
Proof. destruct t as [[c|m]|]; [reflexivity | reflexivity | congruence]. Qed.

Lemma settle_cases (evs : list Event) (t : option Thrown) (gone : list TestItem) :
  cases (settle evs t gone) = gone.
Proof. destruct t as [[c|m]|]; reflexivity. Qed.

Lemma exit_code_last (evs : list Event) (c : Z) :
  exit_code (evs ++ [ProcessExit c]) = Some c.
Proof. unfold exit_code. now rewrite last_snoc. Qed.

(** When [run_tests] does not resolve to [true], the process exits with
    code 1. *)
Lemma run_exit_code (browser protocol : string) :
  version w = inr (browser, protocol) ->
  info cfg = false ->
  ok (run_tests cfg w) = false ->
  exit_code (run cfg w) = Some 1.
Proof.
  intros Hv Hi Hok. unfold run. rewrite Hv, Hi, Hok, andb_false_r.
  destruct (check_version browser); rewrite !app_assoc; apply exit_code_last.
Qed.

(** C1: in every run, a test case gone through (skipped or not) whose
    encoded baseline name is that of a test case gone through earlier has
    the error "duplicated description" in its status and is marked
    failed, whatever its own run gives; if it is marked skip it is marked
    skipped as well; [run_tests] then resolves to [false], and the
    process exits with code 1. *)
Theorem duplicated_baseline_name_fails_the_run (k : nat) (it : TestItem) :
  let out := run_tests cfg w in
  nth_error (cases out) k = Some it ->
  (exists j it', (j < k)%nat /\ nth_error (cases out) j = Some it'
                 /\ baseline_name_of it' = baseline_name_of it) ->
  In "duplicated description" (errors (item_status it))
  /\ failure (item_status it) = Some true
  /\ (skip (item_test it) = true -> skipped (item_status it) = Some true)
  /\ ok out = false
  /\ (info cfg = false ->
      forall browser protocol,
        version w = inr (browser, protocol) -> exit_code (run cfg w) = Some 1).
Proof.
  intros out Hk Hdup.
  assert (Hout : out = run_tests cfg w) by reflexivity.
  unfold run_tests in Hout.
  destruct (discover cfg w) as [evs [t|top_level]].
  - rewrite Hout, settle_cases in Hk. destruct k; discriminate.
  - destruct (run_suite_marks_duplicates top_level evs) as [Hmark Hskip].
    rewrite Hout, settle_cases in Hk, Hdup.
    destruct (Hmark k it Hk Hdup) as [[He Hf] Ht].
    assert (Hok : ok out = false) by (rewrite Hout; now apply settle_not_ok).
    split; [exact He|]. split; [exact Hf|].
    split; [apply Hskip; eapply nth_error_In, Hk|].
    split; [exact Hok|].
    intros Hi browser protocol Hv. now apply (run_exit_code browser protocol).
Qed.

End WholeRun.

(** ** Integers held by doubles *)

Section IndexFacts.

Import Js.

Lemma digits2_pos_iter (p k : positive) :
  digits2_pos (Pos.iter xO p k) = (digits2_pos p + k)%positive.
Proof.
  induction k as [|k IH] using Pos.peano_ind.
  - simpl. lia.
  - rewrite Pos.iter_succ. simpl. rewrite IH. lia.
Qed.

Lemma pos_iter_xO (p k : positive) : Z.pos (Pos.iter xO p k) = Z.pos p * 2 ^ Z.pos k.
Proof.
  induction k as [|k IH] using Pos.peano_ind.
  - simpl. lia.
  - rewrite Pos.iter_succ, Pos2Z.inj_xO, IH, Pos2Z.inj_succ, Z.pow_succ_r; lia.
Qed.

Lemma digits2_pos_lower (p : positive) : 2 ^ (Z.pos (digits2_pos p) - 1) <= Z.pos p.
Proof.
  induction p as [p IH|p IH|]; simpl digits2_pos.
  - rewrite Pos2Z.inj_succ.
    replace (Z.succ (Z.pos (digits2_pos p)) - 1) with (Z.succ (Z.pos (digits2_pos p) - 1)) by lia.
    rewrite Z.pow_succ_r by lia. lia.
  - rewrite Pos2Z.inj_succ.
    replace (Z.succ (Z.pos (digits2_pos p)) - 1) with (Z.succ (Z.pos (digits2_pos p) - 1)) by lia.
    rewrite Z.pow_succ_r by lia. lia.
  - simpl. lia.
Qed.

(** A mantissa that is already in canonical form is not rounded. *)
Lemma binary_round_aux_canonical (m : positive) (e : Z) :
  fexp prec emax (Z.pos (digits2_pos m) + e) = e ->
  e <= emax - prec ->
  binary_round_aux prec emax false (Z.pos m) e loc_Exact = S754_finite false m e.
Proof.
  intros Hc He. unfold binary_round_aux, shr_fexp.
  cbn [Zdigits2]. rewrite Hc, Z.sub_diag.
  cbn [shr shr_record_of_loc shr_m loc_of_shr_record round_nearest_even Zdigits2].
  rewrite Hc, Z.sub_diag. cbn [shr shr_m].
  apply Z.leb_le in He. now rewrite He.
Qed.

(** An integer below 2^53 is a double, and the double stands for it. *)
Lemma to_Z_of_Z (z : Z) : 0 <= z < 2 ^ 53 -> to_Z (of_Z z) = Some z.
Proof.
  intros Hz. destruct z as [|p|p]; [reflexivity| |lia].
  set (d := digits2_pos p).
  assert (Hd : Z.pos d <= 53).
  { pose proof (digits2_pos_lower p) as Hl. fold d in Hl.
    destruct (Z.le_gt_cases (Z.pos d) 53) as [Hle|Hgt]; [exact Hle|].
    assert (2 ^ 53 <= 2 ^ (Z.pos d - 1)) by (apply Z.pow_le_mono_r; lia). lia. }
  unfold of_Z, binary_normalize, binary_round.
  assert (Hfexp : fexp prec emax (Z.pos (digits2_pos p) + 0) = Z.pos d - 53).
  { unfold fexp, emin, prec, emax. fold d. lia. }
  rewrite Hfexp. unfold shl_align.
  destruct (Z.pos d - 53 - 0) as [|q|k] eqn:Ek; [| lia |].
  - (* no alignment is needed *)
    rewrite binary_round_aux_canonical.
    + simpl. f_equal. lia.
    + rewrite Hfexp. lia.
    + unfold emax, prec. lia.
  - assert (Hk : Z.pos k = 53 - Z.pos d) by lia.
    rewrite binary_round_aux_canonical.
    + unfold to_Z.
      assert (Hlt : (0 <=? Z.pos d - 53) = false) by (apply Z.leb_gt; lia).
      rewrite Hlt.
      assert (Hopp : - (Z.pos d - 53) = Z.pos k) by lia.
      rewrite Hopp, pos_iter_xO.
      rewrite Z.mod_mul by lia. cbn [Z.eqb].
      rewrite Z.div_mul by lia. reflexivity.
    + rewrite digits2_pos_iter. fold d.
      unfold fexp, emin, prec, emax. rewrite Pos2Z.inj_add. lia.
    + unfold emax, prec. lia.
Qed.

(** The indices of an array are doubles. *)
Lemma to_index_of_nat (i : nat) :
  Z.of_nat i <= 4294967294 -> to_index (of_Z (Z.of_nat i)) = Some i.
Proof.
  intros Hi. unfold to_index. rewrite to_Z_of_Z by lia.
  assert (H0 : (0 <=? Z.of_nat i) = true) by (apply Z.leb_le; lia).
  assert (H1 : (Z.of_nat i <=? 4294967294) = true) by (apply Z.leb_le; lia).
  rewrite H0, H1. simpl. now rewrite Nat2Z.id.
Qed.

End IndexFacts.

Section RoundingFacts.

Import Js.

Lemma digits2_pos_upper (p : positive) : Z.pos p < 2 ^ Z.pos (digits2_pos p).
Proof.
  induction p as [p IH|p IH|]; simpl digits2_pos.
  - rewrite Pos2Z.inj_succ, Z.pow_succ_r by lia. lia.
  - rewrite Pos2Z.inj_succ, Z.pow_succ_r by lia. lia.
  - simpl. lia.
Qed.

Lemma digits2_pos_unique (p : positive) (k : Z) :
  2 ^ (k - 1) <= Z.pos p < 2 ^ k -> Z.pos (digits2_pos p) = k.
Proof.
  intros [Hlo Hhi].
  pose proof (digits2_pos_lower p) as Hl. pose proof (digits2_pos_upper p) as Hu.
  set (d := Z.pos (digits2_pos p)) in *.
  assert (Hk : 0 < k).
  { destruct (Z.lt_ge_cases 0 k) as [H|H]; [exact H|].
    assert (2 ^ k <= 2 ^ 0) by (apply Z.pow_le_mono_r; lia). simpl in *. lia. }
  destruct (Z.lt_trichotomy d k) as [Hlt|[Heq|Hgt]]; [|exact Heq|].
  - assert (2 ^ d <= 2 ^ (k - 1)) by (apply Z.pow_le_mono_r; lia). lia.
  - assert (2 ^ k <= 2 ^ (d - 1)) by (apply Z.pow_le_mono_r; lia). lia.
Qed.

Lemma shr_m_shr_1 (mrs : shr_record) :
  0 <= shr_m mrs -> shr_m (shr_1 mrs) = shr_m mrs / 2.
Proof.
  destruct mrs as [m r s]. simpl. intros Hm.
  destruct m as [|[p|p|]|p]; simpl; try lia; try reflexivity.
  - rewrite Pos2Z.inj_xI. apply Z.div_unique with 1; lia.
  - rewrite Pos2Z.inj_xO. apply Z.div_unique with 0; lia.
Qed.

Lemma shr_m_iter (p : positive) : forall mrs : shr_record,
  0 <= shr_m mrs -> shr_m (SpecFloat.iter_pos shr_1 p mrs) = shr_m mrs / 2 ^ Z.pos p.
Proof.
  assert (Hnn : forall mrs, 0 <= shr_m mrs -> 0 <= shr_m (shr_1 mrs)).
  { intros mrs H. rewrite shr_m_shr_1 by exact H. apply Z.div_pos; lia. }
  induction p as [p IH|p IH|]; intros mrs Hm; simpl SpecFloat.iter_pos.
  - rewrite IH, IH, shr_m_shr_1; auto.
    + rewrite !Z.div_div by lia. f_equal.
      rewrite Pos2Z.inj_xI, <- Z.pow_add_r, <- Z.pow_succ_r by lia. f_equal. lia.
    + rewrite IH by auto. apply Z.div_pos; [|lia]. auto.
  - rewrite IH, IH; auto.
    + rewrite Z.div_div by lia. f_equal.
      rewrite Pos2Z.inj_xO, <- Z.pow_add_r by lia. f_equal. lia.
    + rewrite IH by auto. apply Z.div_pos; lia.
  - rewrite shr_m_shr_1 by exact Hm. reflexivity.
Qed.

Lemma shr_m_shr (m : Z) (l : location) (e n : Z) :
  0 <= m -> 0 <= n ->
  shr_m (fst (shr (shr_record_of_loc m l) e n)) = m / 2 ^ n
  /\ snd (shr (shr_record_of_loc m l) e n) = e + n.
Proof.
  intros Hm Hn.
  assert (H0 : shr_m (shr_record_of_loc m l) = m) by (now destruct l as [|[| |]]).
  destruct n as [|p|p]; [| |lia]; simpl.
  - rewrite H0, Z.div_1_r. split; [reflexivity | lia].
  - rewrite shr_m_iter by (rewrite H0; exact Hm). now rewrite H0.
Qed.

Lemma round_nearest_even_bound (m : Z) (l : location) :
  m <= round_nearest_even m l <= m + 1.
Proof.
  destruct l as [|[| |]]; simpl; try lia. destruct (Z.even m); lia.
Qed.

(** Rounding a mantissa of at least 53 digits: the digits beyond the
    53rd are dropped, and the result is the mantissa that is left or the
    one after it. *)
Lemma binary_round_aux_bound (m : positive) (e : Z) (l : location) :
  let d := Z.pos (digits2_pos m) in
  53 <= d -> -1074 <= e + d - 53 -> e + d - 53 < 970 ->
  exists (m' : positive) (e' : Z),
    binary_round_aux prec emax false (Z.pos m) e l = S754_finite false m' e'
    /\ Z.pos (digits2_pos m') = 53
    /\ e + d - 53 <= e' <= e + d - 52
    /\ Z.pos m / 2 ^ (d - 53) <= Z.pos m' * 2 ^ (e' - (e + d - 53))
       <= Z.pos m / 2 ^ (d - 53) + 1.
Proof.
  intros d Hd Hlo Hhi.
  pose proof (digits2_pos_lower m) as Hml. pose proof (digits2_pos_upper m) as Hmu.
  fold d in Hml, Hmu.
  unfold binary_round_aux, shr_fexp. cbn [Zdigits2]. fold d.
  assert (Hf : fexp prec emax (d + e) - e = d - 53)
    by (unfold fexp, emin, prec, emax; lia).
  rewrite Hf.
  destruct (shr_m_shr (Z.pos m) l e (d - 53)) as [Hm1 He1]; [lia | lia |].
  destruct (shr (shr_record_of_loc (Z.pos m) l) e (d - 53)) as [mrs' e1].
  simpl in Hm1, He1. subst e1.
  set (m1 := shr_m mrs') in *.
  assert (Hpow : 2 ^ d = 2 ^ (d - 53) * 2 ^ 53)
    by (rewrite <- Z.pow_add_r by lia; f_equal; lia).
  assert (Hpow' : 2 ^ (d - 1) = 2 ^ (d - 53) * 2 ^ 52)
    by (rewrite <- Z.pow_add_r by lia; f_equal; lia).
  assert (Hp : 0 < 2 ^ (d - 53)) by (apply Z.pow_pos_nonneg; lia).
  assert (Hm1b : 2 ^ 52 <= m1 < 2 ^ 53).
  { rewrite Hm1. split.
    - apply Z.div_le_lower_bound; lia.
    - apply Z.div_lt_upper_bound; lia. }
  pose proof (round_nearest_even_bound m1 (loc_of_shr_record mrs')) as Hm2.
  set (m2 := round_nearest_even m1 (loc_of_shr_record mrs')) in *.
  destruct m2 as [|q|q] eqn:Eq; [lia| |lia].
  cbn [Zdigits2 shr_record_of_loc].
  destruct (Z.eq_dec (Z.pos q) (2 ^ 53)) as [E53|N53].
  - (* the mantissa has grown to 54 digits *)
    assert (Hq : q = 9007199254740992%positive) by (apply Pos2Z.inj; rewrite E53; reflexivity).
    subst q. change (Z.pos (digits2_pos 9007199254740992)) with 54.
    assert (Hf2 : fexp prec emax (54 + (e + (d - 53))) - (e + (d - 53)) = 1)
      by (unfold fexp, emin, prec, emax; lia).
    rewrite Hf2. cbn [shr SpecFloat.iter_pos shr_1 shr_m].
    assert (Hle : (e + (d - 53) + 1 <=? emax - prec) = true)
      by (apply Z.leb_le; unfold emax, prec; lia).
    rewrite Hle.
    exists 4503599627370496%positive, (e + (d - 53) + 1).
    split; [reflexivity|]. split; [reflexivity|]. split; [lia|].
    replace (e + (d - 53) + 1 - (e + d - 53)) with 1 by lia.
    rewrite <- Hm1. change (Z.pos 4503599627370496 * 2 ^ 1) with (2 ^ 53). lia.
  - assert (Hd2 : Z.pos (digits2_pos q) = 53) by (apply digits2_pos_unique; lia).
    rewrite Hd2.
    assert (Hf2 : fexp prec emax (53 + (e + (d - 53))) - (e + (d - 53)) = 0)
      by (unfold fexp, emin, prec, emax; lia).
    rewrite Hf2. cbn [shr shr_m].
    assert (Hle : (e + (d - 53) <=? emax - prec) = true)
      by (apply Z.leb_le; unfold emax, prec; lia).
    rewrite Hle.
    exists q, (e + (d - 53)).
    split; [reflexivity|]. split; [exact Hd2|]. split; [lia|].
    replace (e + (d - 53) - (e + d - 53)) with 0 by lia.
    rewrite <- Hm1, Z.pow_0_r. lia.
Qed.

(** The double of a positive integer below 2^53. *)
Lemma of_Z_pos (p : positive) :
  Z.pos p < 2 ^ 53 ->
  exists (m : positive) (e : Z),
    of_Z (Z.pos p) = S754_finite false m e
    /\ Z.pos (digits2_pos m) = 53
    /\ e = Z.pos (digits2_pos p) - 53
    /\ Z.pos m = Z.pos p * 2 ^ (- e).
Proof.
  intros Hp.
  set (d := digits2_pos p).
  assert (Hd : Z.pos d <= 53).
  { pose proof (digits2_pos_lower p) as Hl. fold d in Hl.
    destruct (Z.le_gt_cases (Z.pos d) 53) as [Hle|Hgt]; [exact Hle|].
    assert (2 ^ 53 <= 2 ^ (Z.pos d - 1)) by (apply Z.pow_le_mono_r; lia). lia. }
  unfold of_Z, binary_normalize, binary_round.
  assert (Hfexp : fexp prec emax (Z.pos (digits2_pos p) + 0) = Z.pos d - 53).
  { unfold fexp, emin, prec, emax. fold d. lia. }
  rewrite Hfexp. unfold shl_align.
  destruct (Z.pos d - 53 - 0) as [|q|k] eqn:Ek; [| lia |].
  - exists p, 0. rewrite binary_round_aux_canonical.
    + split; [reflexivity|]. split; [fold d; lia|]. split; [lia|]. simpl. lia.
    + rewrite Hfexp. lia.
    + unfold emax, prec. lia.
  - assert (Hk : Z.pos k = 53 - Z.pos d) by lia.
    exists (Pos.iter xO p k), (Z.pos d - 53).
    rewrite binary_round_aux_canonical.
    + split; [reflexivity|]. split; [rewrite digits2_pos_iter; fold d; lia|].
      split; [reflexivity|].
      rewrite pos_iter_xO. f_equal. f_equal. lia.
    + rewrite digits2_pos_iter. fold d.
      unfold fexp, emin, prec, emax. rewrite Pos2Z.inj_add. lia.
    + unfold emax, prec. lia.
Qed.

(** [float()] for a state in range: a double below one, by 2^-32 at
    least.  The double [m * 2^e] is given by the integer [m * 2^(e + 84)]. *)
Lemma float_below_one (a : Z) :
  1 <= a <= 2147483645 ->
  exists (m : positive) (e : Z),
    div (of_Z a) (of_Z 2147483646) = S754_finite false m e
    /\ Z.pos (digits2_pos m) = 53
    /\ -84 <= e <= -53
    /\ Z.pos m * 2 ^ (e + 84) <= 2 ^ 84 - 2 ^ 52.
Proof.
  intros Ha. destruct a as [|p|p]; [lia| |lia].
  destruct (of_Z_pos p) as (ma & ea & Ea & Hdma & Hea & Hma); [lia|].
  set (da := Z.pos (digits2_pos p)) in *.
  assert (Hda : 1 <= da <= 31).
  { split; [unfold da; lia|].
    pose proof (digits2_pos_lower p) as Hl. fold da in Hl.
    destruct (Z.le_gt_cases da 31) as [Hle|Hgt]; [exact Hle|].
    assert (2 ^ 31 <= 2 ^ (da - 1)) by (apply Z.pow_le_mono_r; lia). lia. }
  assert (Eb : of_Z 2147483646 = S754_finite false 9007199246352384 (-22))
    by (vm_compute; reflexivity).
  unfold div, SFdiv. rewrite Ea, Eb. cbn [xorb].
  unfold SFdiv_core_binary. cbn [Zdigits2]. rewrite Hdma.
  change (Z.pos (digits2_pos 9007199246352384)) with 53.
  assert (He' : Z.min (fexp prec emax (53 + ea - (53 + -22))) (ea - -22) = ea - 31)
    by (unfold fexp, emin, prec, emax; lia).
  rewrite He'.
  assert (Hs : ea - -22 - (ea - 31) = 53) by lia.
  rewrite Hs. rewrite Z.shiftl_mul_pow2 by lia.
  pose proof (Z_div_mod (Z.pos ma * 2 ^ 53) (Z.pos 9007199246352384) eq_refl) as Hdiv.
  destruct (Z.div_eucl (Z.pos ma * 2 ^ 53) (Z.pos 9007199246352384)) as [q r].
  destruct Hdiv as [Hq Hr].
  (* the mantissa of [a] *)
  pose proof (digits2_pos_lower ma) as Hmal. pose proof (digits2_pos_upper ma) as Hmau.
  rewrite Hdma in Hmal, Hmau.
  assert (Hqb : 2 ^ 52 <= q < 2 ^ 54) by (change (2 ^ (53 - 1)) with (2 ^ 52) in Hmal; nia).
  destruct q as [|qp|qp]; [lia| |lia].
  set (dq := Z.pos (digits2_pos qp)).
  assert (Hdq : dq = 53 \/ dq = 54).
  { destruct (Z.lt_ge_cases (Z.pos qp) (2 ^ 53)) as [Hlt|Hge].
    - left. apply digits2_pos_unique. lia.
    - right. apply digits2_pos_unique. lia. }
  destruct (binary_round_aux_bound qp (ea - 31) (new_location (Z.pos 9007199246352384) r))
    as (m' & e' & Eround & Hdm' & He'' & Hval); fold dq; [lia | lia | lia |].
  fold dq in He'', Hval.
  exists m', e'. split; [exact Eround|]. split; [exact Hdm'|].
  (* the powers of two involved *)
  set (P32 := 2 ^ (52 - da)).
  assert (HP32 : 2 ^ 21 <= P32) by (apply Z.pow_le_mono_r; lia).
  assert (Hneg : 2 ^ (- ea) = 2 * P32).
  { unfold P32. rewrite <- (Z.pow_succ_r 2) by lia. f_equal. lia. }
  assert (HD : 2 ^ (ea - 31 + 84) * (4294967296 * P32) = 2 ^ 84).
  { change 4294967296 with (2 ^ 32). unfold P32.
    rewrite <- !Z.pow_add_r by lia. f_equal. lia. }
  assert (HD0 : 0 < 2 ^ (ea - 31 + 84)) by (apply Z.pow_pos_nonneg; lia).
  (* the quotient *)
  assert (Hquot : Z.pos qp * 2147483646 <= 2147483645 * (4294967296 * P32)).
  { rewrite Hma, Hneg in Hq. nia. }
  assert (Hsmall : Z.pos qp + 2 <= 4294967296 * P32 - P32) by lia.
  (* the result *)
  assert (Hm' : Z.pos m' * 2 ^ (e' - (ea - 31)) <= Z.pos qp + 2).
  { destruct Hdq as [E|E]; rewrite E in *.
    - replace (e' - (ea - 31 + 53 - 53)) with (e' - (ea - 31)) in Hval by lia.
      change (2 ^ (53 - 53)) with 1 in Hval. rewrite Z.div_1_r in Hval. lia.
    - change (2 ^ (54 - 53)) with 2 in Hval.
      replace (e' - (ea - 31)) with (e' - (ea - 31 + 54 - 53) + 1) by lia.
      rewrite Z.pow_add_r by lia. change (2 ^ 1) with 2.
      pose proof (Z.mul_div_le (Z.pos qp) 2 ltac:(lia)) as Hhalf.
      assert (0 <= 2 ^ (e' - (ea - 31 + 54 - 53))) by (apply Z.pow_nonneg; lia).
      nia. }
  assert (Hbound : Z.pos m' * 2 ^ (e' + 84) <= 2 ^ 84 - 2 ^ 52).
  { replace (e' + 84) with (e' - (ea - 31) + (ea - 31 + 84)) by lia.
    rewrite Z.pow_add_r by lia. rewrite Z.mul_assoc.
    assert (H52 : 2 ^ (ea - 31 + 84) * P32 = 2 ^ 52).
    { unfold P32. rewrite <- Z.pow_add_r by lia. f_equal. lia. }
    nia. }
  split; [|exact Hbound].
  split; [lia|].
  (* the exponent: the value is below one and the mantissa has 53 digits *)
  pose proof (digits2_pos_lower m') as Hl. rewrite Hdm' in Hl.
  change (2 ^ (53 - 1)) with (2 ^ 52) in Hl.
  destruct (Z.le_gt_cases e' (-53)) as [Hle|Hgt]; [exact Hle|].
  assert (2 ^ 32 <= 2 ^ (e' + 84)) by (apply Z.pow_le_mono_r; lia).
  assert (2 ^ 52 * 2 ^ 32 <= Z.pos m' * 2 ^ (e' + 84)) by (apply Z.mul_le_mono_nonneg; lia).
  change (2 ^ 52 * 2 ^ 32) with (2 ^ 84) in *. lia.
Qed.

(** The index drawn for a [float()] below one by 2^-32 at least and a
    place below 2^32 is an index up to the place. *)
Lemma floor_mul_below (m : positive) (e : Z) (n : Z) :
  Z.pos (digits2_pos m) = 53 -> -84 <= e <= -53 ->
  Z.pos m * 2 ^ (e + 84) <= 2 ^ 84 - 2 ^ 52 ->
  1 <= n < 2 ^ 32 ->
  exists j : nat,
    to_index (floor (mul (S754_finite false m e) (of_Z n))) = Some j
    /\ Z.of_nat j <= n - 1.
Proof.
  intros Hdm He Hx Hn. destruct n as [|pn|pn]; [lia| |lia].
  destruct (of_Z_pos pn) as (mn & en & En & Hdmn & Hen & Hmn).
  { assert (2 ^ 32 < 2 ^ 53) by (apply Z.pow_lt_mono_r; lia). lia. }
  set (dn := Z.pos (digits2_pos pn)) in *.
  pose proof (digits2_pos_lower pn) as Hnl. fold dn in Hnl.
  assert (Hdn : 1 <= dn <= 32).
  { split; [unfold dn; lia|].
    destruct (Z.le_gt_cases dn 32) as [Hle|Hgt]; [exact Hle|].
    assert (2 ^ 32 <= 2 ^ (dn - 1)) by (apply Z.pow_le_mono_r; lia). lia. }
  unfold mul, SFmul. rewrite En. cbn [xorb].
  (* the product of the mantissas *)
  pose proof (digits2_pos_lower m) as Hml. pose proof (digits2_pos_upper m) as Hmu.
  pose proof (digits2_pos_lower mn) as Hmnl. pose proof (digits2_pos_upper mn) as Hmnu.
  rewrite Hdm in Hml, Hmu. rewrite Hdmn in Hmnl, Hmnu.
  change (2 ^ (53 - 1)) with (2 ^ 52) in Hml, Hmnl.
  assert (HM : 2 ^ 104 <= Z.pos (m * mn) < 2 ^ 106).
  { rewrite Pos2Z.inj_mul. change (2 ^ 104) with (2 ^ 52 * 2 ^ 52).
    change (2 ^ 106) with (2 ^ 53 * 2 ^ 53). nia. }
  set (dM := Z.pos (digits2_pos (m * mn))).
  assert (HdM : dM = 105 \/ dM = 106).
  { destruct (Z.lt_ge_cases (Z.pos (m * mn)) (2 ^ 105)) as [Hlt|Hge].
    - left. apply digits2_pos_unique. change (2 ^ (105 - 1)) with (2 ^ 104). lia.
    - right. apply digits2_pos_unique. change (2 ^ (106 - 1)) with (2 ^ 105). lia. }
  destruct (binary_round_aux_bound (m * mn) (e + en) loc_Exact)
    as (m' & e' & Eround & Hdm' & He' & Hval); fold dM; [lia | lia | lia |].
  fold dM in He', Hval. rewrite Eround.
  set (s := dM - 53) in *.
  set (t := e + en + dM - 53) in *.
  (* the value of the product, 84 binary places down *)
  assert (Hprod : Z.pos m' * 2 ^ (e' + 84) < Z.pos pn * 2 ^ 84).
  { assert (Hs0 : 0 < 2 ^ s) by (apply Z.pow_pos_nonneg; lia).
    pose proof (Z.mul_div_le (Z.pos (m * mn)) (2 ^ s) Hs0) as Hfl.
    set (fl := Z.pos (m * mn) / 2 ^ s) in *.
    assert (HMeq : Z.pos (m * mn) = Z.pos m * Z.pos pn * 2 ^ (- en))
      by (rewrite Pos2Z.inj_mul, Hmn; ring).
    rewrite HMeq in Hfl.
    assert (Hc : 2 ^ s = 2 ^ (en + s) * 2 ^ (- en))
      by (rewrite <- Z.pow_add_r by lia; f_equal; lia).
    assert (Hen0 : 0 < 2 ^ (- en)) by (apply Z.pow_pos_nonneg; lia).
    assert (Hes0 : 0 < 2 ^ (en + s)) by (apply Z.pow_pos_nonneg; lia).
    assert (Hfl' : fl * 2 ^ (en + s) <= Z.pos m * Z.pos pn).
    { apply Z.mul_le_mono_pos_r with (p := 2 ^ (- en)); [exact Hen0|].
      rewrite <- Z.mul_assoc, <- Hc. lia. }
    clearbody fl.
    assert (Hu0 : 0 < 2 ^ (e + 84)) by (apply Z.pow_pos_nonneg; lia).
    assert (Ht : 2 ^ (t + 84) = 2 ^ (en + s) * 2 ^ (e + 84)).
    { rewrite <- Z.pow_add_r by lia. f_equal. unfold t, s. lia. }
    assert (Hstep : Z.pos m' * 2 ^ (e' + 84) <= (fl + 1) * 2 ^ (t + 84)).
    { replace (e' + 84) with (e' - t + (t + 84)) by lia.
      rewrite Z.pow_add_r by (unfold t in *; lia).
      rewrite Z.mul_assoc.
      apply Z.mul_le_mono_nonneg_r; [apply Z.pow_nonneg; lia|].
      exact (proj2 Hval). }
    assert (Hsmall : 2 ^ (t + 84) < Z.pos pn * 2 ^ 52).
    { assert (2 ^ (t + 84) <= 2 ^ (dn + 31))
        by (apply Z.pow_le_mono_r; [lia | unfold t; lia]).
      assert (2 ^ (dn + 31) < 2 ^ (dn - 1) * 2 ^ 52).
      { rewrite <- Z.pow_add_r by lia. apply Z.pow_lt_mono_r; lia. }
      assert (2 ^ (dn - 1) * 2 ^ 52 <= Z.pos pn * 2 ^ 52)
        by (apply Z.mul_le_mono_nonneg_r; lia).
      lia. }
    assert (Hmain : fl * 2 ^ (t + 84) <= Z.pos pn * (2 ^ 84 - 2 ^ 52)).
    { rewrite Ht, Z.mul_assoc.
      apply Z.le_trans with (Z.pos m * Z.pos pn * 2 ^ (e + 84)).
      - apply Z.mul_le_mono_nonneg_r; lia.
      - replace (Z.pos m * Z.pos pn * 2 ^ (e + 84))
          with (Z.pos pn * (Z.pos m * 2 ^ (e + 84))) by ring.
        apply Z.mul_le_mono_nonneg_l; lia. }
    lia. }
  unfold floor.
  destruct (Z.leb_spec 0 e') as [Hpos|Hneg].
  - (* the product is an integer *)
    unfold to_index, to_Z.
    assert (H0 : (0 <=? e') = true) by (apply Z.leb_le; lia). rewrite H0.
    assert (Hz : Z.pos m' * 2 ^ e' < Z.pos pn).
    { rewrite Z.pow_add_r in Hprod by lia. rewrite Z.mul_assoc in Hprod.
      apply Z.mul_lt_mono_pos_r in Hprod; [exact Hprod | lia]. }
    assert (Hz0 : 0 <= Z.pos m' * 2 ^ e') by (apply Z.mul_nonneg_nonneg; [lia | apply Z.pow_nonneg; lia]).
    assert (Hb1 : (0 <=? Z.pos m' * 2 ^ e') = true) by (apply Z.leb_le; lia).
    assert (Hb2 : (Z.pos m' * 2 ^ e' <=? 4294967294) = true)
      by (apply Z.leb_le; change (2 ^ 32) with 4294967296 in Hn; lia).
    rewrite Hb1, Hb2. simpl.
    eexists. split; [reflexivity|]. rewrite Z2Nat.id by lia. lia.
  - set (k := Z.pos m' / 2 ^ (- e')).
    assert (Hk0 : 0 <= k) by (apply Z.div_pos; [lia | apply Z.pow_pos_nonneg; lia]).
    assert (Hk : k < Z.pos pn).
    { apply Z.div_lt_upper_bound; [apply Z.pow_pos_nonneg; lia|].
      assert (E84 : 2 ^ 84 = 2 ^ (- e') * 2 ^ (e' + 84))
        by (rewrite <- Z.pow_add_r by lia; f_equal; lia).
      rewrite E84 in Hprod.
      assert (0 < 2 ^ (e' + 84)) by (apply Z.pow_pos_nonneg; lia).
      rewrite Z.mul_assoc in Hprod.
      apply Z.mul_lt_mono_pos_r in Hprod; [lia | assumption]. }
    exists (Z.to_nat k). rewrite <- (Z2Nat.id k Hk0) at 1.
    rewrite to_index_of_nat.
    + split; [reflexivity|]. rewrite Z2Nat.id by lia. lia.
    + rewrite Z2Nat.id by lia. change (2 ^ 32) with 4294967296 in Hn. lia.
Qed.

End RoundingFacts.

Section ExactFacts.

Import Js.

(** Shifting out a digit that is zero loses nothing. *)
Lemma shr_1_double (c : Z) :
  0 <= c -> shr_1 (Build_shr_record (2 * c) false false) = Build_shr_record c false false.
Proof. intros Hc. destruct c as [|p|p]; [reflexivity | reflexivity | lia]. Qed.

Lemma iter_shr_1_exact (p : positive) : forall c : Z,
  0 <= c ->
  SpecFloat.iter_pos shr_1 p (Build_shr_record (c * 2 ^ Z.pos p) false false)
  = Build_shr_record c false false.
Proof.
  induction p as [p IH|p IH|]; intros c Hc; cbn [SpecFloat.iter_pos].
  - replace (c * 2 ^ Z.pos p~1) with (2 * ((c * 2 ^ Z.pos p) * 2 ^ Z.pos p)).
    + assert (0 <= c * 2 ^ Z.pos p) by (apply Z.mul_nonneg_nonneg; lia).
      assert (0 <= c * 2 ^ Z.pos p * 2 ^ Z.pos p) by (apply Z.mul_nonneg_nonneg; lia).
      rewrite shr_1_double, IH, IH; auto.
    + assert (E : Z.pos p~1 = Z.pos p + Z.pos p + 1) by lia.
      rewrite E, !Z.pow_add_r by lia. rewrite Z.pow_1_r. ring.
  - replace (c * 2 ^ Z.pos p~0) with ((c * 2 ^ Z.pos p) * 2 ^ Z.pos p).
    + assert (0 <= c * 2 ^ Z.pos p) by (apply Z.mul_nonneg_nonneg; lia).
      rewrite IH, IH; auto.
    + assert (E : Z.pos p~0 = Z.pos p + Z.pos p) by lia.
      rewrite E, !Z.pow_add_r by lia. ring.
  - rewrite Z.pow_1_r, Z.mul_comm. now apply shr_1_double.
Qed.

(** Rounding a mantissa whose digits beyond the 53rd are all zero drops
    these digits and nothing else. *)
Lemma binary_round_aux_exact (s : bool) (m c : positive) (e n : Z) :
  0 <= n -> Z.pos m = Z.pos c * 2 ^ n -> Z.pos (digits2_pos c) = 53 ->
  -1074 <= e + n <= 971 ->
  binary_round_aux prec emax s (Z.pos m) e loc_Exact = S754_finite s c (e + n).
Proof.
  intros Hn Hm Hc He.
  pose proof (digits2_pos_lower c) as Hcl. pose proof (digits2_pos_upper c) as Hcu.
  rewrite Hc in Hcl, Hcu.
  assert (Hp : 0 < 2 ^ n) by (apply Z.pow_pos_nonneg; lia).
  assert (Hd : Z.pos (digits2_pos m) = 53 + n).
  { apply digits2_pos_unique. rewrite Hm.
    replace (53 + n - 1) with (52 + n) by lia.
    rewrite !Z.pow_add_r by lia. change (53 - 1) with 52 in Hcl. nia. }
  unfold binary_round_aux, shr_fexp. cbn [Zdigits2]. rewrite Hd.
  assert (Hf : fexp prec emax (53 + n + e) - e = n)
    by (unfold fexp, emin, prec, emax; lia).
  rewrite Hf.
  assert (Hshr : shr (shr_record_of_loc (Z.pos m) loc_Exact) e n
                 = (Build_shr_record (Z.pos c) false false, e + n)).
  { cbn [shr_record_of_loc]. destruct n as [|p|p]; [| |lia]; cbn [shr].
    - rewrite Hm, Z.pow_0_r, Z.mul_1_r, Z.add_0_r. reflexivity.
    - rewrite Hm, iter_shr_1_exact by lia. reflexivity. }
  rewrite Hshr. cbn [shr_m loc_of_shr_record round_nearest_even Zdigits2].
  rewrite Hc.
  assert (Hf2 : fexp prec emax (53 + (e + n)) - (e + n) = 0)
    by (unfold fexp, emin, prec, emax; lia).
  rewrite Hf2. cbn [shr shr_record_of_loc shr_m].
  assert (Hle : (e + n <=? emax - prec) = true)
    by (apply Z.leb_le; unfold emax, prec; lia).
  now rewrite Hle.
Qed.

(** The sign of what is rounded is the sign of the result. *)
Lemma binary_round_aux_sign (s : bool) (m e : Z) (l : location) (m' : positive) (e' : Z) :
  binary_round_aux prec emax false m e l = S754_finite false m' e' ->
  binary_round_aux prec emax s m e l = S754_finite s m' e'.
Proof.
  unfold binary_round_aux.
  destruct (shr_fexp prec emax m e l) as [mrs1 e1].
  destruct (shr_fexp prec emax _ e1 loc_Exact) as [mrs2 e2].
  destruct (shr_m mrs2); try discriminate.
  destruct (e2 <=? emax - prec); [|discriminate].
  now intros [= -> ->].
Qed.

(** An integer that is not zero, below 2^53 in absolute value, as a
    double. *)
Lemma of_Z_nonzero (k : Z) :
  k <> 0 -> Z.abs k < 2 ^ 53 ->
  exists (m : positive) (e : Z),
    of_Z k = S754_finite (k <? 0) m e
    /\ Z.pos (digits2_pos m) = 53
    /\ -52 <= e <= 0
    /\ Z.pos m = Z.abs k * 2 ^ (- e).
Proof.
  intros Hk Hb.
  assert (Hpos : forall p, Z.pos p < 2 ^ 53 ->
            exists (m : positive) (e : Z),
              binary_round prec emax false p 0 = S754_finite false m e
              /\ Z.pos (digits2_pos m) = 53 /\ -52 <= e <= 0
              /\ Z.pos m = Z.pos p * 2 ^ (- e)).
  { intros p Hp. destruct (of_Z_pos p Hp) as (m & e & E & Hd & He & Hm).
    exists m, e. split; [exact E|]. split; [exact Hd|]. split; [|exact Hm].
    assert (Z.pos (digits2_pos p) <= 53).
    { pose proof (digits2_pos_lower p) as Hl.
      destruct (Z.le_gt_cases (Z.pos (digits2_pos p)) 53) as [Hle|Hgt]; [exact Hle|].
      assert (2 ^ 53 <= 2 ^ (Z.pos (digits2_pos p) - 1)) by (apply Z.pow_le_mono_r; lia).
      lia. }
    lia. }
  destruct k as [|p|p]; [contradiction| |].
  - apply (Hpos p Hb).
  - destruct (Hpos p Hb) as (m & e & E & Hd & He & Hm).
    exists m, e. split; [|auto].
    unfold of_Z, binary_normalize, binary_round in *.
    destruct (shl_align p 0 _) as [mz ez].
    now apply binary_round_aux_sign.
Qed.

(** The value [k * 2^j], given with the exponent [-j], is the double
    of [k]. *)
Lemma binary_normalize_exact (k j : Z) :
  k <> 0 -> Z.abs k < 2 ^ 53 -> 0 <= j ->
  binary_normalize prec emax (k * 2 ^ j) (- j) false = of_Z k.
Proof.
  intros Hk Hb Hj.
  destruct (of_Z_nonzero k Hk Hb) as (m0 & e0 & E & Hd0 & He0 & Hm0). rewrite E.
  pose proof (digits2_pos_lower m0) as Hl0. pose proof (digits2_pos_upper m0) as Hu0.
  rewrite Hd0 in Hl0, Hu0. change (53 - 1) with 52 in Hl0.
  assert (Hpj : 0 < 2 ^ j) by (apply Z.pow_pos_nonneg; lia).
  assert (Hpe : 0 < 2 ^ (- e0)) by (apply Z.pow_pos_nonneg; lia).
  set (q := Z.to_pos (Z.abs k * 2 ^ j)).
  assert (Hq : Z.pos q = Z.abs k * 2 ^ j) by (unfold q; rewrite Z2Pos.id; nia).
  assert (Hround : binary_round prec emax (k <? 0) q (- j) = S754_finite (k <? 0) m0 e0).
  { unfold binary_round.
    assert (Hdq : Z.pos (digits2_pos q) = 53 + e0 + j).
    { apply digits2_pos_unique.
      assert (Hv : Z.pos q * 2 ^ (- e0) = Z.pos m0 * 2 ^ j) by (rewrite Hq, Hm0; ring).
      replace (53 + e0 + j - 1) with (52 + e0 + j) by lia.
      split.
      - apply Z.mul_le_mono_pos_r with (2 ^ (- e0)); [exact Hpe|].
        rewrite Hv, <- Z.pow_add_r by lia.
        replace (52 + e0 + j + - e0) with (52 + j) by lia.
        rewrite Z.pow_add_r by lia. nia.
      - apply Z.mul_lt_mono_pos_r with (2 ^ (- e0)); [exact Hpe|].
        rewrite Hv, <- Z.pow_add_r by lia.
        replace (53 + e0 + j + - e0) with (53 + j) by lia.
        rewrite Z.pow_add_r by lia. nia. }
    rewrite Hdq.
    assert (Hf : fexp prec emax (53 + e0 + j + - j) = e0)
      by (unfold fexp, emin, prec, emax; lia).
    rewrite Hf. unfold shl_align.
    destruct (e0 - - j) as [|n|d] eqn:En.
    - replace e0 with (- j + 0) by lia.
      apply binary_round_aux_exact; [lia | | exact Hd0 | lia].
      rewrite Z.pow_0_r, Z.mul_1_r, Hq, Hm0. f_equal; f_equal; lia.
    - replace e0 with (- j + Z.pos n) by lia.
      apply binary_round_aux_exact; [lia | | exact Hd0 | lia].
      rewrite Hq, Hm0, <- Z.mul_assoc, <- Z.pow_add_r by lia.
      f_equal; f_equal; lia.
    - replace e0 with (e0 + 0) at 2 by lia.
      apply binary_round_aux_exact; [lia | | exact Hd0 | lia].
      rewrite pos_iter_xO, Hq, Hm0, Z.pow_0_r, Z.mul_1_r, <- Z.mul_assoc, <- Z.pow_add_r by lia.
      f_equal; f_equal; lia. }
  destruct k as [|p|p]; [contradiction| |].
  - change (Z.pos p <? 0) with false in *. change (Z.abs (Z.pos p)) with (Z.pos p) in Hq.
    rewrite <- Hq. exact Hround.
  - change (Z.neg p <? 0) with true in *. change (Z.abs (Z.neg p)) with (Z.pos p) in Hq.
    replace (Z.neg p * 2 ^ j) with (Z.neg q) by (rewrite <- Pos2Z.opp_pos, Hq; lia).
    exact Hround.
Qed.

(** Products, sums and differences of integers are exact as long as
    they stay below 2^53. *)
Lemma mul_exact (a b : Z) :
  0 < a -> 0 < b -> a * b < 2 ^ 53 -> mul (of_Z a) (of_Z b) = of_Z (a * b).
Proof.
  intros Ha Hb Hab.
  destruct (of_Z_nonzero a) as (ma & ea & Ea & Hda & Hea & Hma); [lia | nia |].
  destruct (of_Z_nonzero b) as (mb & eb & Eb & Hdb & Heb & Hmb); [lia | nia |].
  destruct (of_Z_nonzero (a * b)) as (mc & ec & Ec & Hdc & Hec & Hmc); [nia | nia |].
  rewrite Ea, Eb, Ec.
  assert (Fa : (a <? 0) = false) by (apply Z.ltb_ge; lia).
  assert (Fb : (b <? 0) = false) by (apply Z.ltb_ge; lia).
  assert (Fc : (a * b <? 0) = false) by (apply Z.ltb_ge; nia).
  rewrite Fa, Fb, Fc. unfold mul, SFmul. cbn [xorb].
  rewrite Z.abs_eq in Hma, Hmb, Hmc by nia.
  pose proof (digits2_pos_lower ma) as Hla. pose proof (digits2_pos_lower mb) as Hlb.
  pose proof (digits2_pos_upper mc) as Huc.
  rewrite Hda in Hla. rewrite Hdb in Hlb. rewrite Hdc in Huc.
  change (53 - 1) with 52 in *.
  assert (Hv : Z.pos (ma * mb) = a * b * 2 ^ (- ea + - eb)).
  { rewrite Pos2Z.inj_mul, Hma, Hmb, Z.pow_add_r by lia. ring. }
  assert (Hn : 0 <= ec - (ea + eb)).
  { destruct (Z.le_gt_cases 0 (ec - (ea + eb))) as [H|H]; [exact H|].
    assert (2 ^ (- ea + - eb) <= 2 ^ (- ec)) by (apply Z.pow_le_mono_r; lia).
    assert (2 ^ 52 * 2 ^ 52 <= Z.pos (ma * mb)) by (rewrite Pos2Z.inj_mul; nia).
    assert (Z.pos (ma * mb) <= Z.pos mc) by (rewrite Hv, Hmc; nia).
    change (2 ^ 52 * 2 ^ 52) with (2 ^ 104) in *.
    assert (2 ^ 53 < 2 ^ 104) by (apply Z.pow_lt_mono_r; lia). lia. }
  rewrite (binary_round_aux_exact false (ma * mb) mc (ea + eb) (ec - (ea + eb)) Hn);
    [f_equal; lia | | exact Hdc | lia].
  rewrite Hv, Hmc, <- (Z.mul_assoc (a * b) (2 ^ (- ec))), <- Z.pow_add_r by lia.
  f_equal; f_equal; lia.
Qed.

Lemma shl_align_value (m : positive) (e ez : Z) :
  ez <= e -> Z.pos (fst (shl_align m e ez)) = Z.pos m * 2 ^ (e - ez).
Proof.
  intros He. unfold shl_align.
  destruct (ez - e) as [|p|d] eqn:Ed; [| lia |]; cbn [fst].
  - replace (e - ez) with 0 by lia. rewrite Z.pow_0_r. lia.
  - rewrite pos_iter_xO. f_equal; f_equal; lia.
Qed.

(** The mantissa of the double of [k], brought to an exponent that is
    not above its own. *)
Lemma aligned_value (k : Z) (m : positive) (e ez : Z) :
  k <> 0 -> Z.pos m = Z.abs k * 2 ^ (- e) -> e <= 0 -> ez <= e ->
  cond_Zopp (k <? 0) (Z.pos (fst (shl_align m e ez))) = k * 2 ^ (- ez).
Proof.
  intros Hk Hm He Hez.
  rewrite shl_align_value, Hm, <- Z.mul_assoc, <- Z.pow_add_r by lia.
  replace (- e + (e - ez)) with (- ez) by lia.
  destruct (Z.ltb_spec k 0); cbn [cond_Zopp]; [rewrite Z.abs_neq | rewrite Z.abs_eq]; lia.
Qed.

Lemma add_exact (a b : Z) :
  a <> 0 -> b <> 0 -> Z.abs a < 2 ^ 53 -> Z.abs b < 2 ^ 53 -> Z.abs (a + b) < 2 ^ 53 ->
  add (of_Z a) (of_Z b) = of_Z (a + b).
Proof.
  intros Ha Hb Ba Bb Bab.
  destruct (of_Z_nonzero a Ha Ba) as (ma & ea & Ea & _ & Hea & Hma).
  destruct (of_Z_nonzero b Hb Bb) as (mb & eb & Eb & _ & Heb & Hmb).
  rewrite Ea, Eb. unfold add, SFadd.
  rewrite (aligned_value a), (aligned_value b) by (assumption || lia).
  rewrite <- Z.mul_add_distr_r.
  destruct (Z.eq_dec (a + b) 0) as [E0|N0].
  - rewrite E0. reflexivity.
  - replace (Z.min ea eb) with (- - Z.min ea eb) at 2 by lia.
    apply binary_normalize_exact; [exact N0 | exact Bab | lia].
Qed.

Lemma sub_exact (a b : Z) :
  a <> 0 -> b <> 0 -> Z.abs a < 2 ^ 53 -> Z.abs b < 2 ^ 53 -> Z.abs (a - b) < 2 ^ 53 ->
  sub (of_Z a) (of_Z b) = of_Z (a - b).
Proof.
  intros Ha Hb Ba Bb Bab.
  destruct (of_Z_nonzero a Ha Ba) as (ma & ea & Ea & _ & Hea & Hma).
  destruct (of_Z_nonzero b Hb Bb) as (mb & eb & Eb & _ & Heb & Hmb).
  rewrite Ea, Eb. unfold sub, SFsub.
  rewrite (aligned_value a), (aligned_value b) by (assumption || lia).
  rewrite <- Z.mul_sub_distr_r.
  destruct (Z.eq_dec (a - b) 0) as [E0|N0].
  - rewrite E0. reflexivity.
  - replace (Z.min ea eb) with (- - Z.min ea eb) at 2 by lia.
    apply binary_normalize_exact; [exact N0 | exact Bab | lia].
Qed.

(** Comparing the double of an integer that is not zero with zero. *)
Lemma leb_of_Z_zero (k : Z) :
  k <> 0 -> Z.abs k < 2 ^ 53 -> leb (of_Z k) (of_Z 0) = (k <? 0).
Proof.
  intros Hk Hb. destruct (of_Z_nonzero k Hk Hb) as (m & e & E & _).
  rewrite E. now destruct (k <? 0).
Qed.

(** The integer that a finite double stands for, by its mantissa. *)
Lemma to_Z_finite (s : bool) (m : positive) (e e' : Z) (z : Z) :
  to_Z (S754_finite s m e) = Some z -> e' <= e -> e' <= 0 ->
  Z.pos m * 2 ^ (e - e') = Z.abs z * 2 ^ (- e') /\ z <> 0 /\ (z <? 0) = s.
Proof.
  unfold to_Z. intros Hz He He'.
  set (sm := if s then Z.neg m else Z.pos m) in Hz.
  assert (Hsm : Z.abs sm = Z.pos m /\ sm <> 0 /\ (sm <? 0) = s) by (unfold sm; now destruct s).
  destruct Hsm as (Habs & Hnz & Hsg).
  destruct (Z.leb_spec 0 e) as [H0|H0].
  - injection Hz as <-.
    assert (0 < 2 ^ e) by (apply Z.pow_pos_nonneg; lia).
    split; [|split].
    + rewrite Z.abs_mul, Habs, (Z.abs_eq (2 ^ e)), <- Z.mul_assoc, <- Z.pow_add_r by lia.
      f_equal; f_equal; lia.
    + nia.
    + rewrite <- Hsg. destruct (Z.ltb_spec sm 0), (Z.ltb_spec (sm * 2 ^ e) 0); nia || reflexivity.
  - destruct (Z.eqb_spec (sm mod 2 ^ (- e)) 0) as [Hmod|]; [|discriminate].
    injection Hz as <-.
    assert (Hp : 0 < 2 ^ (- e)) by (apply Z.pow_pos_nonneg; lia).
    assert (Hsm : sm = sm / 2 ^ (- e) * 2 ^ (- e)).
    { rewrite (Z.div_mod sm (2 ^ (- e))) at 1 by lia. rewrite Hmod. ring. }
    set (z := sm / 2 ^ (- e)) in *.
    split; [|split].
    + rewrite <- Habs, Hsm, Z.abs_mul, (Z.abs_eq (2 ^ (- e))), <- Z.mul_assoc,
        <- Z.pow_add_r by lia.
      f_equal; f_equal; lia.
    + nia.
    + rewrite <- Hsg. destruct (Z.ltb_spec sm 0), (Z.ltb_spec z 0); nia || reflexivity.
Qed.

(** The remainder by [MAX_INT32] of a double that stands for an
    integer is the remainder of that integer, with the sign of the
    integer; when it is zero, it is a zero of the sign of the double. *)
Lemma rem_exact (x : number) (z : Z) :
  to_Z x = Some z ->
  (Z.rem z 2147483647 <> 0 -> rem x (of_Z 2147483647) = of_Z (Z.rem z 2147483647))
  /\ (Z.rem z 2147483647 = 0 -> exists s, rem x (of_Z 2147483647) = S754_zero s).
Proof.
  intros Hz.
  replace (of_Z 2147483647) with (S754_finite false 9007199250546688 (-22))
    by (vm_compute; reflexivity).
  destruct x as [s| | |s m e]; try discriminate.
  - injection Hz as <-. split; [intros Hr; now contradiction Hr|].
    intros _. exists s. reflexivity.
  - unfold rem. set (e' := Z.min e (-22)).
    destruct (to_Z_finite s m e e' z Hz) as (Hv & Hnz & Hsg); [lia | lia |].
    assert (Hp : 0 < 2 ^ (- e')) by (apply Z.pow_pos_nonneg; lia).
    assert (Hy : 9007199250546688 * 2 ^ (-22 - e') = 2147483647 * 2 ^ (- e')).
    { change 9007199250546688 with (2147483647 * 2 ^ 22).
      rewrite <- Z.mul_assoc, <- Z.pow_add_r by lia. f_equal; f_equal; lia. }
    rewrite Hv, Hy, Z.mul_rem_distr_r by lia.
    assert (Hrem : Z.rem z 2147483647 = if s then - Z.rem (Z.abs z) 2147483647
                                       else Z.rem (Z.abs z) 2147483647).
    { rewrite <- Hsg. destruct (Z.ltb_spec z 0).
      - rewrite Z.abs_neq, Z.rem_opp_l by lia. lia.
      - now rewrite Z.abs_eq by lia. }
    set (r := Z.rem (Z.abs z) 2147483647) in *.
    assert (Hr : 0 <= r < 2147483647).
    { unfold r. apply Z.rem_bound_pos; lia. }
    destruct (Z.eqb_spec (r * 2 ^ (- e')) 0) as [H0|H0].
    + assert (r = 0) by nia. split.
      * intros Hne. exfalso. apply Hne. rewrite Hrem. destruct s; lia.
      * intros _. now exists s.
    + split; [intros _ | intros H1; exfalso; rewrite Hrem in H1; destruct s; nia].
      rewrite Hrem.
      replace (if s then - (r * 2 ^ (- e')) else r * 2 ^ (- e'))
        with ((if s then - r else r) * 2 ^ (- e')) by (destruct s; ring).
      replace e' with (- - e') at 2 by lia.
      apply binary_normalize_exact; [destruct s; nia | | lia].
      assert (2147483647 < 2 ^ 53) by reflexivity. destruct s; lia.
Qed.

End ExactFacts.

(** ** The states the generator goes through *)

Section GeneratorFacts.

Import Js Random.

Lemma multiplier_coprime : Z.gcd MAX_INT32 48271 = 1.
Proof. vm_compute. reflexivity. Qed.

(** On a state in range the doubles that [integer] computes with are
    integers below 2^53: it returns the remainder of the product, which
    is in range again. *)
Lemma integer_of_Z (s : Z) :
  1 <= s <= MAX_INT32 - 1 ->
  integer (mk (of_Z s))
  = (of_Z (Z.rem (48271 * s) MAX_INT32), mk (of_Z (Z.rem (48271 * s) MAX_INT32)))
  /\ 1 <= Z.rem (48271 * s) MAX_INT32 <= MAX_INT32 - 1.
Proof.
  intros Hs.
  assert (Hrange : 1 <= Z.rem (48271 * s) MAX_INT32 <= MAX_INT32 - 1).
  { rewrite Z.rem_mod_nonneg by (unfold MAX_INT32 in *; lia).
    assert (Hb : 0 <= (48271 * s) mod MAX_INT32 < MAX_INT32)
      by (apply Z.mod_pos_bound; reflexivity).
    assert (Hnz : (48271 * s) mod MAX_INT32 <> 0).
    { intros H0. apply Z.mod_divide in H0; [|discriminate].
      apply Z.gauss in H0; [|exact multiplier_coprime].
      apply Z.divide_pos_le in H0; unfold MAX_INT32 in *; lia. }
    unfold MAX_INT32 in *. lia. }
  split; [|exact Hrange].
  unfold integer. cbn [seed]. unfold MAX_INT32 in *.
  assert (H53 : 2 ^ 53 = 9007199254740992) by reflexivity.
  rewrite mul_exact by lia.
  destruct (rem_exact (of_Z (48271 * s)) (48271 * s)) as [Hr _].
  { apply to_Z_of_Z. lia. }
  rewrite Hr by lia. reflexivity.
Qed.

(** [integer] keeps the state in range. *)
Lemma integer_in_range (r : Random.t) :
  in_range r -> in_range (snd (integer r)) /\ fst (integer r) = seed (snd (integer r)).
Proof.
  intros (s & Es & Hs). destruct r as [x]. cbn [seed] in Es. subst x.
  destruct (integer_of_Z s Hs) as [-> Hr]. cbn [fst snd seed].
  split; [|reflexivity]. now exists (Z.rem (48271 * s) MAX_INT32).
Qed.

(** The state that the constructor leaves for a seed that stands for an
    integer. *)
Lemma new_of_Z (x : number) (z : Z) :
  to_Z x = Some z ->
  seed (new x)
  = of_Z (if Z.rem z MAX_INT32 <=? 0 then Z.rem z MAX_INT32 + (MAX_INT32 - 1)
          else Z.rem z MAX_INT32).
Proof.
  intros Hz. unfold new.
  assert (Hb : Z.abs (Z.rem z MAX_INT32) < Z.abs MAX_INT32)
    by (apply Z.rem_bound_abs; discriminate).
  unfold MAX_INT32 in *. change (2147483647 - 1) with 2147483646.
  assert (H53 : 2 ^ 53 = 9007199254740992) by reflexivity.
  destruct (rem_exact x z Hz) as [Hne He].
  destruct (Z.eq_dec (Z.rem z 2147483647) 0) as [E0|N0].
  - destruct (He E0) as [s ->]. rewrite E0.
    replace (of_Z 2147483646) with (S754_finite false 9007199246352384 (-22))
      by (vm_compute; reflexivity).
    now destruct s.
  - rewrite (Hne N0), leb_of_Z_zero by lia.
    destruct (Z.ltb_spec (Z.rem z 2147483647) 0) as [Hlt|Hge]; cbn [seed].
    + rewrite add_exact by lia.
      assert (Hle : (Z.rem z 2147483647 <=? 0) = true) by (apply Z.leb_le; lia).
      now rewrite Hle.
    + assert (Hle : (Z.rem z 2147483647 <=? 0) = false) by (apply Z.leb_gt; lia).
      now rewrite Hle.
Qed.

(** The constructor puts the state in range for a sound seed. *)
Lemma new_in_range (x : number) : sound_seed x -> in_range (new x).
Proof.
  intros (z & Hz & Hne). unfold in_range. rewrite (new_of_Z x z Hz).
  eexists. split; [reflexivity|].
  assert (Hb : Z.abs (Z.rem z MAX_INT32) < Z.abs MAX_INT32)
    by (apply Z.rem_bound_abs; discriminate).
  destruct (Z.leb_spec (Z.rem z MAX_INT32) 0); unfold MAX_INT32 in *; lia.
Qed.

(** In range, every later state is in range. *)
Lemma iter_integer_in_range (n : nat) (r : Random.t) :
  in_range r -> in_range (Nat.iter n (fun r => snd (integer r)) r).
Proof.
  intros Hr. induction n as [|n IH]; simpl; [exact Hr|].
  now apply integer_in_range.
Qed.

(** The time is a sound seed: it is an integer, and it is not negative. *)
Lemma of_Z_sound_seed (z : Z) : 0 <= z < 2 ^ 53 -> sound_seed (of_Z z).
Proof.
  intros Hz. exists z. split; [now apply to_Z_of_Z|].
  assert (0 <= Z.rem z MAX_INT32) by (apply Z.rem_nonneg; [discriminate | lia]).
  unfold MAX_INT32 in *. lia.
Qed.

End GeneratorFacts.

(** ** The indices that [shuffle] draws *)

Section DrawFacts.

Import Js Random.

(** The index that [shuffle] draws for the place [i] is an index of the
    array, at most [i], when the state of the generator is in range. *)
Lemma draw_within_bounds (i : nat) (r : Random.t) :
  in_range r -> Z.of_nat i + 1 < 2 ^ 32 ->
  exists j : nat, to_index (fst (draw i r)) = Some j /\ (j <= i)%nat.
Proof.
  intros Hr Hi.
  destruct (integer_in_range r Hr) as [Hnext Hfst].
  unfold draw, float. destruct (integer r) as [x r'] eqn:E. cbn [fst snd] in *.
  destruct Hnext as (n & En & Hn). rewrite <- Hfst in En. subst x.
  change (MAX_INT32 - 1) with 2147483646 in *.
  assert (H53 : 2 ^ 53 = 9007199254740992) by reflexivity.
  rewrite sub_exact by lia.
  destruct (Z.eq_dec n 1) as [->|Hn1].
  - (* [float()] is zero *)
    change (div (of_Z (1 - 1)) (of_Z 2147483646)) with (S754_zero false).
    destruct (Z.of_nat i + 1) as [|p|p] eqn:Ep; [lia| |lia].
    destruct (of_Z_pos p) as (m & e & Em & _).
    { assert (2 ^ 32 < 2 ^ 53) by (apply Z.pow_lt_mono_r; lia). lia. }
    rewrite Em. exists O. split; [reflexivity | lia].
  - destruct (float_below_one (n - 1)) as (m & e & Em & Hdm & He & Hx); [lia|].
    rewrite Em.
    destruct (floor_mul_below m e (Z.of_nat i + 1) Hdm He Hx) as (j & Hj & Hle); [lia|].
    exists j. split; [exact Hj | lia].
Qed.

Lemma swaps_from_within_bounds (i : nat) : forall r : Random.t,
  in_range r -> Z.of_nat i + 1 < 2 ^ 32 -> draws_within_bounds (swaps_from i r).
Proof.
  unfold draws_within_bounds.
  induction i as [|i IH]; intros r Hr Hi; cbn [swaps_from]; [constructor|].
  pose proof (draw_within_bounds (S i) r Hr Hi) as Hd.
  assert (Hr' : in_range (snd (draw (S i) r))).
  { unfold draw, float. destruct (integer_in_range r Hr) as [Hnext _].
    destruct (integer r) as [n r']. exact Hnext. }
  destruct (draw (S i) r) as [j r']. cbn [fst snd] in *.
  constructor; [exact Hd|]. apply IH; [exact Hr' | lia].
Qed.

End DrawFacts.

(** ** A shuffle whose indices are within bounds *)

Section PermutationFacts.

Import Js Random.

Context {A : Type}.

Abbreviation boxed := (map (fun x : A => elem (Some x))).

Lemma nth_error_boxed (l : list A) (i : nat) :
  match nth_error (boxed l) i with
  | Some (elem v) => v
  | _ => None
  end = l !! i.
Proof.
  revert i. induction l as [|x l IH]; intros [|i]; simpl; try reflexivity. apply IH.
Qed.

Lemma set_item_boxed (l : list A) (i : nat) (x y : A) :
  l !! i = Some x -> set_item (boxed l) i (Some y) = boxed (<[i:=y]> l).
Proof.
  revert i. induction l as [|a l IH]; intros [|i] Hi; simpl in *; try discriminate.
  - reflexivity.
  - f_equal. now apply IH.
Qed.

Lemma insert_Permutation (l : list A) (j : nat) (y a : A) :
  l !! j = Some y -> y :: <[j:=a]> l ≡ₚ a :: l.
Proof.
  revert j. induction l as [|b l IH]; intros [|j] Hj; simpl in *; try discriminate.
  - injection Hj as ->. apply perm_swap.
  - rewrite perm_swap. rewrite (IH j Hj). apply perm_swap.
Qed.

(** Exchanging two elements that are there permutes the list. *)
Lemma exchange_Permutation (l : list A) (i j : nat) (x y : A) :
  l !! i = Some x -> l !! j = Some y -> <[j:=x]> (<[i:=y]> l) ≡ₚ l.
Proof.
  revert i j. induction l as [|a l IH]; intros [|i] [|j] Hi Hj; simpl in *;
    try discriminate.
  - now injection Hi as ->.
  - injection Hi as ->. now apply insert_Permutation.
  - injection Hj as ->. now apply insert_Permutation.
  - f_equiv. now apply IH.
Qed.

(** One exchange of [shuffle] on an array without holes, for an index
    drawn within the array. *)
Lemma exchange_of_list (l : list A) (i j : nat) (kj : number) :
  (i < List.length l)%nat -> Z.of_nat (List.length l) <= 4294967295 ->
  to_index kj = Some j -> (j <= i)%nat ->
  exists l', exchange (of_list l) i kj = of_list l' /\ l ≡ₚ l'.
Proof.
  intros Hi Hlen Hkj Hj.
  destruct (lookup_lt_is_Some_2 l i Hi) as [x Hx].
  destruct (lookup_lt_is_Some_2 l j ltac:(lia)) as [y Hy].
  exists (<[j:=x]> (<[i:=y]> l)). split.
  - unfold exchange, get, set, of_list. cbn [items props].
    rewrite to_index_of_nat by lia. rewrite Hkj. cbn [items props].
    rewrite !nth_error_boxed, Hx, Hy.
    rewrite (set_item_boxed l i x y Hx).
    assert (Hy' : <[i:=y]> l !! j = Some (if decide (i = j) then y else y)).
    { destruct (decide (i = j)) as [->|Hne].
      - rewrite list_lookup_insert_eq; [reflexivity | lia].
      - rewrite list_lookup_insert_ne; assumption. }
    now rewrite (set_item_boxed _ j _ x Hy').
  - symmetry. now apply exchange_Permutation.
Qed.

Lemma apply_swaps_of_list (sw : list (nat * number)) :
  forall l : list A,
    Z.of_nat (List.length l) <= 4294967295 ->
    Forall (fun ij => (fst ij < List.length l)%nat
                      /\ exists j, to_index (snd ij) = Some j /\ (j <= fst ij)%nat) sw ->
    exists l', apply_swaps sw (of_list l) = of_list l' /\ l ≡ₚ l'.
Proof.
  induction sw as [|[i kj] sw IH]; intros l Hlen Hsw.
  - exists l. now split.
  - apply Forall_cons in Hsw. destruct Hsw as [(Hi & j & Hkj & Hj) Hsw]. simpl in *.
    destruct (exchange_of_list l i j kj Hi Hlen Hkj Hj) as (l1 & E1 & P1).
    unfold apply_swaps. simpl. rewrite E1.
    assert (Hlen1 : List.length l1 = List.length l)
      by (symmetry; now apply Permutation_length).
    destruct (IH l1) as (l' & E' & P').
    + now rewrite Hlen1.
    + now rewrite Hlen1.
    + exists l'. split; [exact E'|]. now rewrite P1.
Qed.

Lemma swaps_from_first (i : nat) : forall r : Random.t,
  Forall (fun ij => (fst ij <= i)%nat) (swaps_from i r).
Proof.
  induction i as [|i IH]; intros r; simpl; [constructor|].
  destruct (draw (S i) r) as [j r']. constructor; [simpl; lia|].
  eapply Forall_impl; [apply IH|]. simpl. intros ij Hij. lia.
Qed.

End PermutationFacts.

(** When every index that [shuffle] draws lies within the part of the
    array still to be shuffled, an array without holes comes out as an
    array without holes that holds the same elements. *)
Lemma shuffle_of_list_within_bounds
    (A : Type) (l : list A) (r : Random.t) :
  Z.of_nat (List.length l) <= 4294967295 ->
  draws_within_bounds (Random.swaps (List.length l) r) ->
  exists l', fst (Random.shuffle (Js.of_list l) r) = Js.of_list l' /\ Permutation l l'.
Proof.
  intros Hlen Hdraws. unfold Random.shuffle.
  rewrite shuffle_from_swaps.
  assert (Hl : Js.length (Js.of_list l) = List.length l)
    by (unfold Js.length, Js.of_list; simpl; apply length_map).
  rewrite Hl. apply apply_swaps_of_list; [exact Hlen|].
  unfold draws_within_bounds, Random.swaps in Hdraws.
  pose proof (swaps_from_first (List.length l - 1) r) as Hfirst.
  apply List.Forall_forall. intros ij Hin.
  rewrite List.Forall_forall in Hdraws, Hfirst.
  specialize (Hdraws ij Hin). specialize (Hfirst ij Hin).
  split; [|exact Hdraws].
  destruct l as [|a l]; simpl in *; [|lia].
  destruct Hin.
Qed.

(** ** What the shuffle can leave in an array *)

Section ShuffleKeeps.

Import Js Random.

Context {A : Type} (P : A -> Prop).

Lemma lookup_prop_holds (k : number) (ps : list (number * option A)) :
  Forall (fun kv => from_option P True (snd kv)) ps ->
  from_option P True (lookup_prop k ps).
Proof.
  induction 1 as [|[k' v] ps Hv _ IH]; simpl; [exact I|].
  destruct (number_eqb k k'); [exact Hv | exact IH].
Qed.

Lemma get_holds (a : array A) (k : number) :
  holds_only P a -> from_option P True (get a k).
Proof.
  intros [Hi Hp]. unfold get.
  destruct (to_index k) as [i|]; [|now apply lookup_prop_holds].
  destruct (nth_error (items a) i) as [[|v]|] eqn:E; try exact I.
  apply nth_error_In in E.
  destruct v as [x|]; [|exact I].
  exact (proj1 (List.Forall_forall _ _) Hi _ E).
Qed.

Lemma set_item_holds (l : list (slot A)) (i : nat) (v : option A) :
  Forall (fun s => match s with elem (Some x) => P x | _ => True end) l ->
  from_option P True v ->
  Forall (fun s => match s with elem (Some x) => P x | _ => True end) (set_item l i v).
Proof.
  intros Hl Hv. revert i.
  induction Hl as [|s l Hs Hl IH]; intros i.
  - induction i as [|i IHi]; simpl; constructor; try exact I; try constructor.
    + now destruct v.
    + exact IHi.
  - destruct i as [|i]; simpl; constructor; auto.
Qed.

Lemma set_holds (a : array A) (k : number) (v : option A) :
  holds_only P a -> from_option P True v -> holds_only P (set a k v).
Proof.
  intros [Hi Hp] Hv. unfold set.
  destruct (to_index k) as [i|]; split; cbn [items props];
    first [exact Hi | exact Hp | now apply set_item_holds
           | constructor; [exact Hv | exact Hp]].
Qed.

Lemma exchange_holds (a : array A) (i : nat) (j : number) :
  holds_only P a -> holds_only P (exchange a i j).
Proof.
  intros Ha. unfold exchange.
  apply set_holds; [apply set_holds|]; auto using get_holds.
Qed.

(** Whatever the indices drawn, the shuffle puts nothing in the array
    that was not there. *)
Lemma shuffle_from_holds (i : nat) : forall (a : array A) (r : Random.t),
  holds_only P a -> holds_only P (fst (shuffle_from i a r)).
Proof.
  induction i as [|i IH]; intros a r Ha; cbn [shuffle_from]; [exact Ha|].
  destruct (draw (S i) r) as [j r']. apply IH. now apply exchange_holds.
Qed.

Lemma of_list_holds (l : list A) : Forall P l -> holds_only P (of_list l).
Proof.
  intros Hl. split; cbn [of_list items props]; [|constructor].
  induction Hl; constructor; auto.
Qed.

End ShuffleKeeps.

(** ** Nothing to test *)

Section NothingToTest.

Import Suites Runner.

Context `{Collaborators}.

Variables (cfg : Config) (w : World).

Lemma some_not_skipped_all_skipped (ts : list (Js.slot TestItem)) :
  Forall marked_skip ts -> some_not_skipped ts = Some false.
Proof.
  induction 1 as [|s ts (it & -> & Hs) _ IH]; simpl; [reflexivity|].
  now rewrite Hs.
Qed.

(** With nothing to run, [some] finds nothing, if it returns. *)
Lemma some_not_skipped_nothing_to_run (ts : list (Js.slot TestItem)) :
  Forall nothing_to_run ts -> some_not_skipped ts <> Some true.
Proof.
  induction 1 as [|[|[it|]] ts Hs _ IH]; simpl; try discriminate; try exact IH.
  simpl in Hs. now rewrite Hs.
Qed.

(** What has been observed when the suite has been received. *)
Lemma discover_events (evs : list Event) (top_level : Suite) :
  discover cfg w = (evs, inr top_level) ->
  evs = [Evaluate "preload_fonts()"; Evaluate "typeof Bokeh !== 'undefined'";
         Evaluate "Tests.top_level"].
Proof.
  unfold discover, fail.
  destruct (connect_error w); [discriminate|].
  destruct (navigate_error w); [discriminate|].
  destruct (load_exceptions w); [|discriminate].
  destruct (ready_output w) as [[|]| |]; try discriminate.
  destruct (top_level_output w); try discriminate.
  now intros [= <- _].
Qed.

(** A filter goes through a list of test cases that are all defined,
    and through no other list. *)
Lemma mark_skipped_defined (keep : string -> bool) (l : list TestItem) :
  mark_skipped keep (map (fun it => Js.elem (Some it)) l)
  = Some (map (fun it => Js.elem (Some it)) (map (after_filter keep) l)).
Proof.
  induction l as [|it l IH]; simpl; [reflexivity|].
  rewrite IH. reflexivity.
Qed.

Lemma mark_skipped_some (keep : string -> bool) (ts ts' : list (Js.slot TestItem)) :
  mark_skipped keep ts = Some ts' ->
  exists l, ts = map (fun it => Js.elem (Some it)) l
            /\ ts' = map (fun it => Js.elem (Some it)) (map (after_filter keep) l).
Proof.
  revert ts'. induction ts as [|[|[it|]] ts IH]; intros ts'; simpl; try discriminate.
  - intros [= <-]. now exists [].
  - destruct (mark_skipped keep ts) as [ts1|]; [|discriminate].
    intros [= <-]. destruct (IH ts1 eq_refl) as (l & -> & ->).
    now exists (it :: l).
Qed.

Lemma after_filter_description (keep : string -> bool) (it : TestItem) :
  description (item_suites (after_filter keep it)) (item_test (after_filter keep it)) " "
  = description (item_suites it) (item_test it) " ".
Proof. unfold after_filter. now destruct (keep _). Qed.

Lemma after_filter_skip (keep : string -> bool) (it : TestItem) :
  skip (item_test (after_filter keep it))
  = skip (item_test it) || negb (keep (description (item_suites it) (item_test it) " ")).
Proof.
  unfold after_filter. destruct (keep _); simpl; [now rewrite orb_false_r|].
  now rewrite orb_true_r.
Qed.

Lemma after_no_filter (l : list TestItem) : map (after_filter (fun _ => true)) l = l.
Proof. induction l as [|it l IH]; simpl; [reflexivity | now rewrite IH]. Qed.

(** With valid patterns, the filters go through a list of test cases
    that are all defined. *)
Lemma filtered_defined (l : list TestItem) :
  patterns_valid cfg = true ->
  filtered cfg (map (fun it => Js.elem (Some it)) l)
  = inr (map (fun it => Js.elem (Some it))
           (map (after_filter (kept_by_regexes cfg))
              (map (after_filter (kept_by_keywords cfg)) l))).
Proof.
  unfold filtered, kept_by_keywords, kept_by_regexes, patterns_valid.
  destruct (k cfg) as [keywords|]; destruct (grep cfg) as [regexes|]; intros Hv;
    rewrite ?mark_skipped_defined, ?Hv, ?mark_skipped_defined, ?after_no_filter;
    reflexivity.
Qed.

(** A pattern that [new RegExp] refuses is an error, if the keywords
    have not raised one before. *)
Lemma filtered_refused (l : list TestItem) :
  patterns_valid cfg = false ->
  filtered cfg (map (fun it => Js.elem (Some it)) l) = inl syntax_error.
Proof.
  unfold filtered, patterns_valid.
  destruct (grep cfg) as [regexes|]; [|discriminate]. intros Hv.
  destruct (k cfg) as [keywords|]; rewrite ?mark_skipped_defined, Hv; reflexivity.
Qed.

(** What the filters return, when they return: the array as it is when
    there is no filter, and else test cases that were all defined. *)
Lemma filtered_returns (ts ts' : list (Js.slot TestItem)) :
  filtered cfg ts = inr ts' ->
  patterns_valid cfg = true
  /\ ((k cfg = None /\ grep cfg = None /\ ts' = ts)
      \/ exists l, ts = map (fun it => Js.elem (Some it)) l
                   /\ ts' = map (fun it => Js.elem (Some it))
                              (map (after_filter (kept_by_regexes cfg))
                                 (map (after_filter (kept_by_keywords cfg)) l))).
Proof.
  unfold filtered, kept_by_keywords, kept_by_regexes, patterns_valid.
  destruct (k cfg) as [keywords|].
  - destruct (mark_skipped _ ts) as [ts1|] eqn:E1; [|discriminate].
    destruct (mark_skipped_some _ _ _ E1) as (l & -> & ->).
    destruct (grep cfg) as [regexes|].
    + destruct (forallb regexp_valid regexes); [|discriminate].
      rewrite mark_skipped_defined. intros [= <-].
      split; [reflexivity|]. right. now exists l.
    + intros [= <-]. split; [reflexivity|]. right. exists l.
      now rewrite after_no_filter.
  - destruct (grep cfg) as [regexes|].
    + destruct (forallb regexp_valid regexes); [|discriminate].
      destruct (mark_skipped _ ts) as [ts2|] eqn:E2; [|discriminate].
      destruct (mark_skipped_some _ _ _ E2) as (l & -> & ->).
      intros [= <-]. split; [reflexivity|]. right. exists l.
      now rewrite after_no_filter.
    + intros [= <-]. split; [reflexivity|]. now left.
Qed.

Lemma filtered_out_not_kept (d : string) :
  filtered_out cfg d -> kept_by_keywords cfg d = false \/ kept_by_regexes cfg d = false.
Proof.
  unfold kept_by_keywords, kept_by_regexes.
  intros [(keywords & -> & E) | (regexes & -> & E)]; [now left | now right].
Qed.

(** A test case declared skip or left out by the filters is marked skip
    once the filters have gone through it. *)
Lemma left_out_is_marked (it : TestItem) :
  skip (item_test it) = true
  \/ filtered_out cfg (description (item_suites it) (item_test it) " ") ->
  skip (item_test (after_filter (kept_by_regexes cfg)
                     (after_filter (kept_by_keywords cfg) it))) = true.
Proof.
  intros Hit.
  rewrite after_filter_skip, after_filter_description, after_filter_skip.
  destruct Hit as [-> | Hout]; [reflexivity|].
  destruct (filtered_out_not_kept _ Hout) as [-> | ->]; simpl;
    now rewrite ?orb_true_r.
Qed.

(** When every test case that an array holds is declared skip or left
    out by the filters, the filters leave nothing to run, if they
    return. *)
Lemma filtered_nothing_to_run (a : Js.array TestItem) (ts : list (Js.slot TestItem)) :
  holds_only (fun it => skip (item_test it) = true
                        \/ filtered_out cfg (description (item_suites it) (item_test it) " "))
             a ->
  filtered cfg (Js.items a) = inr ts -> Forall nothing_to_run ts.
Proof.
  intros [Ha _] Hf.
  destruct (filtered_returns _ _ Hf) as [_ [(Hk & Hg & ->) | (l & El & ->)]].
  - apply List.Forall_forall. intros s Hs.
    pose proof (proj1 (List.Forall_forall _ _) Ha s Hs) as Hit.
    destruct s as [|[it|]]; try exact I. simpl.
    destruct Hit as [Hit | [(keywords & E & _) | (regexes & E & _)]];
      [exact Hit | congruence | congruence].
  - rewrite El in Ha. apply List.Forall_map in Ha.
    rewrite !List.map_map. apply List.Forall_map.
    apply List.Forall_forall. intros it Hit. simpl.
    apply left_out_is_marked.
    exact (proj1 (List.Forall_forall _ _) Ha it Hit).
Qed.

(** The test cases of [test_suite], shuffled or not, are those that
    [iter] yields. *)
Lemma shuffled_holds (P : TestItem -> Prop) (top_level : Suite) :
  (forall ss t, In (ss, t) (iter top_level []) -> P (ss, t, new_status)) ->
  holds_only P (shuffled cfg w top_level).
Proof.
  intros HP.
  assert (Hall : holds_only P (all_tests top_level)).
  { apply of_list_holds. apply List.Forall_map. apply List.Forall_forall.
    intros [ss t] Hin. now apply HP. }
  unfold shuffled. destruct (randomize cfg); [|exact Hall].
  now apply shuffle_from_holds.
Qed.

(** With a sound seed, or without a shuffle, [test_suite] holds the
    test cases that [iter] yields, each once, in some order. *)
Lemma shuffled_permutes (top_level : Suite) :
  randomize cfg = false
  \/ (sound_seed (seed_of cfg w)
      /\ Z.of_nat (List.length (iter top_level [])) <= 4294967295) ->
  exists l' : list TestItem,
    shuffled cfg w top_level = Js.of_list l'
    /\ Permutation (map (fun p => (fst p, snd p, new_status)) (iter top_level [])) l'.
Proof.
  intros Hs. unfold shuffled, all_tests.
  set (l := map (fun p => (fst p, snd p, new_status)) (iter top_level [])).
  assert (Hl : List.length l = List.length (iter top_level []))
    by (unfold l; apply length_map).
  destruct (randomize cfg); [|exists l; now split].
  destruct Hs as [Hr | [Hseed Hlen]]; [discriminate|].
  apply shuffle_of_list_within_bounds; [now rewrite Hl|].
  unfold Random.swaps. apply swaps_from_within_bounds; [now apply new_in_range|].
  change (2 ^ 32) with 4294967296. lia.
Qed.

(** C7: once the suite has been received, if the flattened suite has no
    test, or every test of it is declared skip or left out by the keyword
    or regular expression filters, then, whatever the seed and the
    patterns, [run_tests] goes through no test case, calls [run_test] not
    once (nothing is evaluated in the page after the suite was received)
    and resolves to [false], and the process exits with code 1.  What is
    printed last is a message that starts with "nothing to test" when
    every pattern of [--grep] is one that [new RegExp] accepts and the
    run does not shuffle, or shuffles with a sound seed (an array of at
    most 2^32 - 1 elements, as every array is); for other seeds and
    patterns the message can be that of an internal error instead. *)
Theorem nothing_to_test_is_fatal (evs : list Event) (top_level : Suite) :
  discover cfg w = (evs, inr top_level) ->
  (iter top_level [] = []
   \/ forall ss t, In (ss, t) (iter top_level []) ->
                   skip t = true \/ filtered_out cfg (description ss t " ")) ->
  let out := run_tests cfg w in
  ok out = false
  /\ cases out = []
  /\ calls (observed out) = []
  /\ (info cfg = false ->
      forall browser protocol,
        version w = inr (browser, protocol) -> exit_code (run cfg w) = Some 1)
  /\ (patterns_valid cfg = true ->
      randomize cfg = false
      \/ (sound_seed (seed_of cfg w)
          /\ Z.of_nat (List.length (iter top_level [])) <= 4294967295) ->
      exists msg,
        String.prefix "nothing to test" msg = true
        /\ observed out
           = [Evaluate "preload_fonts()"; Evaluate "typeof Bokeh !== 'undefined'";
              Evaluate "Tests.top_level"]
             ++ (if randomize cfg
                 then [Log ("randomizing with seed " +:+ number_to_string (seed_of cfg w))]
                 else [])
             ++ [Log msg]).
Proof.
  intros Hdisc Hts out.
  assert (Hall : forall ss t, In (ss, t) (iter top_level []) ->
                   skip t = true \/ filtered_out cfg (description ss t " ")).
  { destruct Hts as [He | Hall]; [|exact Hall]. rewrite He. intros ss t []. }
  pose proof (discover_events evs top_level Hdisc) as Hevs.
  set (evs1 := if randomize cfg
               then [Log ("randomizing with seed " +:+ number_to_string (seed_of cfg w))]
               else []).
  assert (Hcalls1 : calls (evs ++ evs1) = []).
  { rewrite Hevs. unfold evs1. now destruct (randomize cfg). }
  assert (Hholds : holds_only
            (fun it => skip (item_test it) = true
                       \/ filtered_out cfg (description (item_suites it) (item_test it) " "))
            (shuffled cfg w top_level)).
  { apply shuffled_holds. intros ss t Hin. exact (Hall ss t Hin). }
  (* the run stops before the loop *)
  assert (Hstop : exists t ev,
            run_suite cfg w top_level evs = mk_loop ∅ O O [] (evs ++ ev) (Some t)
            /\ ((t = Exit 1 /\ exists msg, String.prefix "nothing to test" msg = true
                                           /\ ev = evs1 ++ [Log msg])
                \/ (ev = evs1 /\ exists e, t = Error e
                    /\ ~ (patterns_valid cfg = true
                          /\ (randomize cfg = false
                              \/ (sound_seed (seed_of cfg w)
                                  /\ Z.of_nat (List.length (iter top_level []))
                                     <= 4294967295)))))).
  { unfold run_suite. fold evs1.
    destruct (filtered cfg (Js.items (shuffled cfg w top_level))) as [t|ts] eqn:Ef.
    - exists t, evs1. split; [reflexivity|]. right. split; [reflexivity|].
      assert (Ht : exists e, t = Error e).
      { revert Ef. unfold filtered.
        destruct (match k cfg with Some _ => _ | None => _ end);
          [|intros [= <-]; now eexists].
        destruct (grep cfg); [|discriminate].
        destruct (forallb regexp_valid _); [|intros [= <-]; now eexists].
        destruct (mark_skipped _ _); [discriminate | intros [= <-]; now eexists]. }
      destruct Ht as [e ->]. exists e. split; [reflexivity|].
      intros [Hv Hs].
      destruct (shuffled_permutes top_level Hs) as (l' & E & _).
      rewrite E in Ef. unfold Js.of_list in Ef. cbn [Js.items] in Ef.
      now rewrite (filtered_defined _ Hv) in Ef.
    - pose proof (filtered_nothing_to_run _ _ Hholds Ef) as Hnone.
      destruct ts as [|s ts]; cbn [List.length Nat.eqb].
      + exists (Exit 1), (evs1 ++ [Log "nothing to test"]).
        split; [reflexivity|]. left. split; [reflexivity|]. now eexists.
      + pose proof (some_not_skipped_nothing_to_run _ Hnone) as Hsome.
        destruct (some_not_skipped (s :: ts)) as [[|]|] eqn:Es; [contradiction| |].
        * exists (Exit 1), (evs1 ++ [Log "nothing to test because all tests were skipped"]).
          split; [reflexivity|]. left. split; [reflexivity|]. now eexists.
        * exists type_error, evs1. split; [reflexivity|]. right. split; [reflexivity|].
          eexists. split; [reflexivity|].
          intros [Hv Hs].
          destruct (shuffled_permutes top_level Hs) as (l' & E & _).
          rewrite E in Ef. unfold Js.of_list in Ef. cbn [Js.items] in Ef.
          rewrite (filtered_defined _ Hv) in Ef. injection Ef as Ets.
          rewrite <- Ets in Hnone, Es.
          assert (Hm : Forall marked_skip
                         (map (fun it => Js.elem (Some it))
                            (map (after_filter (kept_by_regexes cfg))
                               (map (after_filter (kept_by_keywords cfg)) l')))).
          { rewrite !List.map_map in Hnone |- *.
            apply (proj1 (List.Forall_map _ _ _)) in Hnone. apply List.Forall_map.
            apply List.Forall_forall. intros it Hit.
            pose proof (proj1 (List.Forall_forall _ _) Hnone it Hit) as Hsk.
            eexists. split; [reflexivity | exact Hsk]. }
          rewrite (some_not_skipped_all_skipped _ Hm) in Es. discriminate. }
  destruct Hstop as (t & ev & Hrun & Hcase).
  assert (Hout : out = settle (evs ++ ev) (Some t) [])
    by (subst out; unfold run_tests; now rewrite Hdisc, Hrun).
  assert (Hok : ok out = false).
  { rewrite Hout. destruct Hcase as [[-> _] | (_ & e & -> & _)]; reflexivity. }
  split; [exact Hok|].
  split; [rewrite Hout; destruct Hcase as [[-> _] | (_ & e & -> & _)]; reflexivity|].
  split.
  { rewrite Hout. destruct Hcase as [[-> (msg & _ & ->)] | (-> & e & -> & _)]; simpl.
    - rewrite app_assoc. unfold calls in *. rewrite flat_map_app, Hcalls1. reflexivity.
    - unfold calls in *. rewrite flat_map_app, Hcalls1. reflexivity. }
  split; [intros Hi browser protocol Hv; now apply (run_exit_code cfg w browser protocol)|].
  intros Hv Hs.
  destruct Hcase as [[-> (msg & Hmsg & ->)] | (_ & e & _ & Hno)];
    [|exfalso; apply Hno; now split].
  exists msg. split; [exact Hmsg|]. rewrite Hout, Hevs. reflexivity.
Qed.

End NothingToTest.

(** ** The version of the browser *)

Section BrowserVersion.

Import Suites Runner.

Context `{Collaborators}.

(** C4, as amended: when the browser reports a Chrome major version
    below 107, the version is reported as not supported before anything
    else is done and the process exits with code 1, whatever the tests
    give; with [--info] nothing else happens; without it [run_tests] is
    run all the same, after the message. *)
Theorem unsupported_version_exits_with_1
    (cfg : Config) (w : World) (browser protocol : string) :
  version w = inr (browser, protocol) ->
  major_of browser < chromium_min_version ->
  let running := Log ("Running in " +:+ browser +:+ " using devtools protocol " +:+ protocol) in
  let unsupported :=
    Log ("failed: " +:+ browser +:+ " is not supported, minimum supported version is "
         +:+ pretty chromium_min_version) in
  check_version browser = false
  /\ exit_code (run cfg w) = Some 1
  /\ (info cfg = true -> run cfg w = [running; unsupported; ProcessExit 1])
  /\ (info cfg = false ->
      run cfg w = [running; unsupported] ++ observed (run_tests cfg w) ++ [ProcessExit 1]).
Proof.
  intros Hv Hlt running unsupported.
  assert (Hc : check_version browser = false)
    by (unfold check_version; apply Z.leb_gt; exact Hlt).
  split; [exact Hc|].
  unfold run. rewrite Hv, Hc. fold running unsupported.
  destruct (info cfg); simpl.
  - split; [reflexivity|]. split; [reflexivity | discriminate].
  - split; [|split; [discriminate | reflexivity]].
    change (running :: unsupported :: observed (run_tests cfg w) ++ [ProcessExit 1])
      with (([running; unsupported] ++ observed (run_tests cfg w)) ++ [ProcessExit 1]).
    apply exit_code_last.
Qed.

End BrowserVersion.

(** ** Loading a document *)

Section DocumentFacts.

Import Document.

(** Induction on a value of a snapshot, with the property known of the
    values nested in it. *)
Lemma Json_ind (P : Json -> Prop) :
  (forall z, P (JNum z)) ->
  (forall s, P (JStr s)) ->
  (forall l, Forall P l -> P (JList l)) ->
  (forall name id attrs, Forall (fun a => P (snd a)) attrs -> P (JObject name id attrs)) ->
  (forall id, P (JRef id)) ->
  forall j, P j.
Proof.
  intros Hnum Hstr Hlist Hobj Href.
  fix IH 1. intros [z|s|l|name id attrs|id].
  - apply Hnum.
  - apply Hstr.
  - apply Hlist. induction l as [|j l IHl]; constructor; [apply IH | exact IHl].
  - apply Hobj. induction attrs as [|[a j] attrs IHa]; constructor;
      [apply IH | exact IHa].
  - apply Href.
Qed.

Lemma quiet_refl (d : Document.t) : quiet d d.
Proof. repeat split. Qed.

Lemma quiet_trans (d1 d2 d3 : Document.t) : quiet d1 d2 -> quiet d2 d3 -> quiet d1 d3.
Proof. intros (A & B & C) (A' & B' & C'). repeat split; congruence. Qed.

(** A write keeps the flags, and emits change events only. *)
Lemma set_flags (id attr : string) (v : Value) (d : Document.t) :
  loading (set id attr v d) = loading d
  /\ settled (set id attr v d) = settled d
  /\ ready_signals (log (set id attr v d)) = ready_signals (log d).
Proof.
  unfold set. destruct (models d !! id) as [m|]; [|repeat split].
  destruct (_ || _); simpl; repeat split.
  unfold ready_signals. rewrite filter_app, length_app. simpl. lia.
Qed.

(** While a document is loading, a write emits nothing. *)
Lemma set_quiet (id attr : string) (v : Value) (d : Document.t) :
  loading d = true -> quiet d (set id attr v d).
Proof.
  intros Hl. unfold set, quiet. destruct (models d !! id) as [m|]; [|repeat split].
  rewrite Hl, orb_true_r. repeat split.
Qed.

Lemma decode_quiet (j : Json) :
  forall d v d', decode j d = Some (v, d') -> loading d = true -> quiet d d'.
Proof.
  induction j as [z|s|l IH|name id attrs IH|id] using Json_ind;
    intros d v d'; simpl.
  - intros [= _ <-] _. apply quiet_refl.
  - intros [= _ <-] _. apply quiet_refl.
  - revert d v d'. induction IH as [|j l Hj _ IHl]; intros d v d'.
    + intros [= _ <-] _. apply quiet_refl.
    + destruct (decode j d) as [[v1 d1]|] eqn:E1; [|discriminate].
      match goal with
      | |- context [match ?x with Some _ => _ | None => _ end] =>
          destruct x as [[[ | |vs| ] d2]|] eqn:E2; try discriminate
      end.
      intros [= _ <-] Hl.
      pose proof (Hj _ _ _ E1 Hl) as Q1.
      eapply quiet_trans; [exact Q1|].
      apply (IHl _ _ _ E2). destruct Q1 as (_ & -> & _). exact Hl.
  - destruct (models d !! id); [discriminate|].
    match goal with
    | |- context [mk ?ms ?r ?lg ?ld ?st] => set (d0 := mk ms r lg ld st)
    end.
    assert (Q0 : quiet d d0) by (subst d0; repeat split).
    intros Hdec Hl.
    eapply quiet_trans; [exact Q0|].
    assert (Hl0 : loading d0 = true) by exact Hl.
    clearbody d0. clear Q0 Hl. revert d0 Hdec Hl0.
    induction IH as [|[a j] attrs Hj _ IHa]; intros d0.
    + intros [= _ <-] _. apply quiet_refl.
    + simpl in Hj.
      destruct (decode j d0) as [[v1 d1]|] eqn:E1; [|discriminate].
      intros Hdec Hl0.
      pose proof (Hj _ _ _ E1 Hl0) as Q1.
      assert (Hl1 : loading d1 = true) by (destruct Q1 as (_ & -> & _); exact Hl0).
      pose proof (set_quiet id a v1 d1 Hl1) as Q2.
      eapply quiet_trans; [exact Q1|]. eapply quiet_trans; [exact Q2|].
      apply IHa; [exact Hdec|]. destruct Q2 as (_ & -> & _). exact Hl1.
  - destruct (models d !! id); [|discriminate].
    intros [= _ <-] _. apply quiet_refl.
Qed.

Lemma decode_roots_quiet (js : list Json) :
  forall d d', decode_roots js d = Some d' -> loading d = true -> quiet d d'.
Proof.
  induction js as [|j js IH]; intros d d'; simpl.
  - intros [= <-] _. apply quiet_refl.
  - destruct (decode j d) as [[[ | | |id] d1]|] eqn:E1; try discriminate.
    intros Hdec Hl.
    pose proof (decode_quiet _ _ _ _ E1 Hl) as Q1.
    eapply quiet_trans; [exact Q1|].
    destruct Q1 as (_ & Hl1 & _).
    eapply quiet_trans; [|apply (IH _ _ Hdec); simpl; congruence].
    repeat split.
Qed.

Lemma from_snapshot_fresh (snapshot_roots : list Json) (d : Document.t) :
  from_snapshot snapshot_roots = Some d ->
  log d = [] /\ loading d = false /\ settled d = false.
Proof.
  unfold from_snapshot.
  destruct (decode_roots snapshot_roots _) as [d1|] eqn:E; [|discriminate].
  intros [= <-]. simpl.
  destruct (decode_roots_quiet _ _ _ E eq_refl) as (A & _ & C).
  repeat split; assumption.
Qed.

(** The derived values of a pass are written as change events. *)
Lemma derived_writes (derived : list (string * string * Value)) :
  forall d,
    let d1 := fold_left (fun d c => set (fst (fst c)) (snd (fst c)) (snd c) d) derived d in
    loading d1 = loading d /\ settled d1 = settled d
    /\ ready_signals (log d1) = ready_signals (log d).
Proof.
  induction derived as [|[[id attr] v] derived IH]; intros d; simpl; [repeat split|].
  destruct (set_flags id attr v d) as (A & B & C).
  destruct (IH (set id attr v d)) as (A' & B' & C').
  repeat split; congruence.
Qed.

Lemma ready_signals_snoc (l : list DocumentEvent) :
  ready_signals (l ++ [DocumentReady]) = S (ready_signals l).
Proof. unfold ready_signals. rewrite filter_app, length_app. simpl. lia. Qed.

(** A pass emits the ready signal exactly when the document is not
    settled yet, and settles it. *)
Lemma render_pass_signals (derived : list (string * string * Value)) (d : Document.t) :
  settled (render_pass derived d) = true
  /\ ready_signals (log (render_pass derived d))
     = (if settled d then ready_signals (log d) else S (ready_signals (log d))).
Proof.
  unfold render_pass.
  destruct (derived_writes derived d) as (_ & B & C). simpl in B, C.
  rewrite B. destruct (settled d) eqn:Es; simpl.
  - now split.
  - now rewrite ready_signals_snoc, C.
Qed.

Lemma render_passes_settled (passes : list (list (string * string * Value))) :
  forall d, settled d = true ->
            ready_signals (log (render_passes passes d)) = ready_signals (log d).
Proof.
  induction passes as [|p passes IH]; intros d Hs; [reflexivity|].
  unfold render_passes in *. simpl.
  destruct (render_pass_signals p d) as (A & B). rewrite Hs in B.
  now rewrite IH.
Qed.

End DocumentFacts.

(** C9: a document loaded from a valid snapshot has emitted no event, and
    whatever derived values the render passes write, the first full pass
    ends with the ready signal, which is then the only one in the log,
    however many passes follow. *)
Theorem loading_emits_nothing_and_one_ready_signal :
  forall (snapshot_roots : list Document.Json) (d : Document.t),
    Document.from_snapshot snapshot_roots = Some d ->
    Document.log d = []
    /\ forall derived passes,
         (exists changes,
            Document.log (Document.render_pass derived d) = changes ++ [Document.DocumentReady]
            /\ Document.ready_signals changes = O)
         /\ Document.ready_signals
              (Document.log (Document.render_passes (derived :: passes) d)) = 1%nat.
Proof.
  intros snapshot_roots d Hload.
  destruct (from_snapshot_fresh _ _ Hload) as (Hlog & _ & Hset).
  split; [exact Hlog|]. intros derived passes.
  destruct (render_pass_signals derived d) as (Hs1 & Hr1). rewrite Hset, Hlog in Hr1.
  split.
  - unfold Document.render_pass.
    destruct (derived_writes derived d) as (_ & B & C). simpl in B, C.
    rewrite B, Hset. simpl. eexists. split; [reflexivity|]. now rewrite C, Hlog.
  - change (Document.render_passes (derived :: passes) d)
      with (Document.render_passes passes (Document.render_pass derived d)).
    now rewrite (render_passes_settled passes _ Hs1).
Qed.

(** * Witnesses and counterexamples *)

Section Witnesses.

Import Suites Runner Examples.

(** The third test case of the example has the name of the first one
    and is marked skip. *)
Lemma duplicated_baseline_name_witness :
  In "duplicated description"
     (errors (item_status
        ([glyphs_again], skipped_line,
         mk_status None (Some true) None (Some true) ["duplicated description"]
           (Some "glyphs__draws_a_line") None None None None None)))
  /\ ok (run_tests config (world "Chrome/107.0.5304.87" passing)) = false
  /\ exit_code (run config (world "Chrome/107.0.5304.87" passing)) = Some 1.
Proof.
  destruct (duplicated_baseline_name_fails_the_run config
              (world "Chrome/107.0.5304.87" passing) 2%nat
              ([glyphs_again], skipped_line,
               mk_status None (Some true) None (Some true) ["duplicated description"]
                 (Some "glyphs__draws_a_line") None None None None None))
    as (He & _ & _ & Hok & Hexit).
  - vm_compute. reflexivity.
  - exists 0%nat. eexists. split; [lia|]. split; vm_compute; reflexivity.
  - split; [exact He|]. split; [exact Hok|].
    apply (Hexit eq_refl "Chrome/107.0.5304.87" "1.3" eq_refl).
Defined.

(** A page whose state changes between the two queries. *)
Lemma inconsistent_state_witness :
  create_baseline ["plot"] <> create_baseline ["plot, hovered"]
  /\ failure (status (run_test config_with_baselines top [glyphs] line_test
                        "glyphs__draws_a_line" None unsettled start)) = Some true.
Proof.
  assert (Hne : create_baseline ["plot"] <> create_baseline ["plot, hovered"])
    by (vm_compute; discriminate).
  split; [exact Hne|].
  apply (inconsistent_state_is_a_failure config_with_baselines top [glyphs] line_test
           "glyphs__draws_a_line" None unsettled start "baselines" plot_result
           ("plot" : @State collaborators) ("plot, hovered" : @State collaborators));
    solve [reflexivity | exact Hne].
Defined.

(** One differing pixel, for a test that tolerates none. *)
Lemma image_difference_witness :
  errors (status (compare_screenshot config_with_baselines line_test None
                    "baselines/linux/glyphs__draws_a_line" box_result one_pixel_off start))
  = ["images differ by 1px (1.00%)"]
  /\ may_retry (run_test config_with_baselines top [glyphs] line_test
                  "glyphs__draws_a_line" None one_pixel_off start) = true.
Proof.
  destruct (image_difference_fails_above_threshold config_with_baselines top [glyphs]
              line_test "glyphs__draws_a_line" None one_pixel_off start
              "baselines/linux/glyphs__draws_a_line" "baselines" box_result
              (0, 0, 300, 300) [Byte.x89; Byte.x50; Byte.x4e; Byte.x46]
              {| diff := [Byte.x89; Byte.x50; Byte.x4e; Byte.x47];
                 pixels := 1; percent := Js.of_Z 1 |})
    as (He & _ & _ & _ & Hrun).
  - left. reflexivity.
  - reflexivity.
  - reflexivity.
  - simpl. discriminate.
  - vm_compute. reflexivity.
  - split; [exact He|].
    apply Hrun; [vm_compute; reflexivity | reflexivity | reflexivity].
Defined.

(** C5 as stated fails: with a threshold of 5, one differing pixel is
    tolerated (the status does not fail), yet the call of [run_test]
    returns [may_retry] set. *)
Lemma tolerated_difference_is_retry_eligible :
  threshold box_test = Some 5
  /\ option_map pixels
       (diff_image [Byte.x89; Byte.x50; Byte.x4e; Byte.x46] (captured one_pixel_off))
     = Some 1
  /\ failed (status (run_test config_with_baselines top [glyphs] box_test
                       "glyphs__draws__a__box" None one_pixel_off start)) = false
  /\ may_retry (run_test config_with_baselines top [glyphs] box_test
                  "glyphs__draws__a__box" None one_pixel_off start) = true.
Proof. vm_compute. repeat split. Qed.

(** C4 as stated fails: with Chrome 100 the tests are run all the same
    (here [run_test] is called for the three tests that are not marked
    skip), and the process exits with code 1. *)
Lemma unsupported_version_still_runs_tests :
  major_of "HeadlessChrome/100.0.4896.127" = 100
  /\ calls (run config (world "HeadlessChrome/100.0.4896.127" passing))
     = [None; None; None]
  /\ exit_code (run config (world "HeadlessChrome/100.0.4896.127" passing)) = Some 1.
Proof. vm_compute. repeat split. Qed.

Lemma unsupported_version_witness :
  major_of "HeadlessChrome/100.0.4896.127" < chromium_min_version
  /\ exit_code (run config (world "HeadlessChrome/100.0.4896.127" passing)) = Some 1.
Proof.
  assert (Hlt : major_of "HeadlessChrome/100.0.4896.127" < chromium_min_version)
    by (vm_compute; reflexivity).
  split; [exact Hlt|].
  apply (unsupported_version_exits_with_1 config
           (world "HeadlessChrome/100.0.4896.127" passing)
           "HeadlessChrome/100.0.4896.127" "1.3" eq_refl Hlt).
Defined.

(** A keyword that no description contains, in a run that shuffles
    with the seed 42. *)
Lemma nothing_to_test_witness :
  ok (run_tests config_with_keyword (world "Chrome/107.0.5304.87" passing)) = false.
Proof.
  apply (nothing_to_test_is_fatal config_with_keyword
           (world "Chrome/107.0.5304.87" passing)
           [Evaluate "preload_fonts()"; Evaluate "typeof Bokeh !== 'undefined'";
            Evaluate "Tests.top_level"]
           top eq_refl).
  right. intros ss t Hin. right. left. exists ["no such test"].
  split; [reflexivity|].
  repeat (destruct Hin as [Hin|Hin]; [injection Hin as <- <-; vm_compute; reflexivity|]).
  destruct Hin.
Defined.

(** C7 as stated fails: with the three tests of the suite all declared
    skip, the run that shuffles with the seed -2147483646 finds
    [undefined] in [test_suite] and ends with an internal error, and so
    does the run that is given a pattern that [new RegExp] refuses;
    neither prints "nothing to test". *)
Lemma nothing_to_test_counterexample :
  (forall ss t, In (ss, t) (iter postponed []) -> skip t = true)
  /\ observed (run_tests config_with_state_zero world_postponed)
     = [Evaluate "preload_fonts()"; Evaluate "typeof Bokeh !== 'undefined'";
        Evaluate "Tests.top_level";
        Log "randomizing with seed -2147483646";
        Log "INTERNAL ERROR: TypeError: undefined is not iterable"]
  /\ observed (run_tests config_with_refused_pattern world_postponed)
     = [Evaluate "preload_fonts()"; Evaluate "typeof Bokeh !== 'undefined'";
        Evaluate "Tests.top_level";
        Log "INTERNAL ERROR: SyntaxError: Invalid regular expression"].
Proof.
  split; [|split; reflexivity].
  intros ss t Hin.
  repeat (destruct Hin as [Hin|Hin]; [injection Hin as <- <-; reflexivity|]).
  destruct Hin.
Qed.

(** The example tree: its objects are distinct. *)
Lemma flattening_witness :
  distinct_objects top
  /\ locate top (to_seq top [glyphs_again] skipped_line) = Some ([glyphs_again], skipped_line).
Proof.
  assert (Hd : distinct_objects top).
  { simpl. repeat split; apply (bool_decide_unpack _); vm_compute; exact I. }
  split; [exact Hd|].
  apply (proj1 (proj2 (iter_keeps_declaration_order_and_to_seq_locates top Hd))).
  vm_compute. tauto.
Defined.

(** The snapshot of the example is valid. *)
Lemma loading_witness :
  Document.from_snapshot snapshot = Some loaded /\ Document.log loaded = [].
Proof.
  assert (Hl : Document.from_snapshot snapshot = Some loaded)
    by (vm_compute; reflexivity).
  split; [exact Hl|].
  apply (proj1 (loading_emits_nothing_and_one_ready_signal snapshot loaded Hl)).
Defined.

End Witnesses.

(** * Further properties *)

(** ** The generator and the shuffle *)

Section GeneratorRange.

Import Random.

(** X1: for a seed that stands for an integer [z] (the number that
    [Number(argv.seed)] gives is whole, or the time is taken), the
    constructor leaves in the state the double of an integer of
    [0, 2^31 - 2]: the remainder of [z] by [MAX_INT32], to which
    [MAX_INT32 - 1] is added when it is not positive.  When that remainder
    is not [-(MAX_INT32 - 1)], the state is the double of an integer of
    [1, 2^31 - 2] after the constructor and after any number of calls of
    [integer], and [integer] returns the state it leaves.  A seed that is
    not a number leaves NaN in the state for ever. *)
Theorem generator_stays_in_range (x : Js.number) (z : Z) (n : nat) :
  Js.to_Z x = Some z ->
  (exists s, seed (new x) = Js.of_Z s
             /\ 0 <= s <= MAX_INT32 - 1
             /\ s = if Z.rem z MAX_INT32 <=? 0 then Z.rem z MAX_INT32 + (MAX_INT32 - 1)
                    else Z.rem z MAX_INT32)
  /\ (Z.rem z MAX_INT32 <> - (MAX_INT32 - 1) ->
      let r := Nat.iter n (fun r => snd (integer r)) (new x) in
      in_range r
      /\ fst (integer r) = seed (snd (integer r))
      /\ in_range (snd (integer r)))
  /\ Nat.iter n (fun r => snd (integer r)) (new S754_nan) = mk S754_nan.
Proof.
  intros Hz. split; [|split].
  - eexists. split; [apply (new_of_Z x z Hz)|]. split; [|reflexivity].
    assert (Hb : Z.abs (Z.rem z MAX_INT32) < Z.abs MAX_INT32)
      by (apply Z.rem_bound_abs; discriminate).
    destruct (Z.leb_spec (Z.rem z MAX_INT32) 0); unfold MAX_INT32 in *; lia.
  - intros Hne r.
    assert (Hr : in_range r).
    { apply iter_integer_in_range, new_in_range. now exists z. }
    destruct (integer_in_range r Hr) as [Hnext Heq].
    split; [exact Hr|]. split; [exact Heq | exact Hnext].
  - induction n as [|n IH]; [reflexivity|]. now rewrite Nat.iter_succ, IH.
Qed.

End GeneratorRange.

Section FloatRange.

Import Js Random.

(** X2: for a sound seed (a number that stands for an integer whose
    remainder by [MAX_INT32] is not [-(MAX_INT32 - 1)]), at any time,
    [float()] returns a double in [0, 1): it is not negative, it is below
    one, and it is zero exactly when [integer()] has returned 1. *)
Theorem float_is_in_the_unit_interval (x : number) (n : nat) :
  sound_seed x ->
  let r := Nat.iter n (fun r => snd (integer r)) (new x) in
  SFleb (of_Z 0) (fst (float r)) = true
  /\ SFltb (fst (float r)) (of_Z 1) = true
  /\ (fst (float r) = of_Z 0 <-> fst (integer r) = of_Z 1).
Proof.
  intros Hseed r.
  assert (Hr : in_range r) by (apply iter_integer_in_range, new_in_range, Hseed).
  destruct (integer_in_range r Hr) as [Hnext Hfst].
  unfold float. destruct (integer r) as [y r'] eqn:E. cbn [fst snd] in *.
  destruct Hnext as (k & Ek & Hk). rewrite <- Hfst in Ek. subst y.
  change (MAX_INT32 - 1) with 2147483646 in *.
  assert (H53 : 2 ^ 53 = 9007199254740992) by reflexivity.
  rewrite sub_exact by lia.
  destruct (Z.eq_dec k 1) as [->|Hk1].
  - change (div (of_Z (1 - 1)) (of_Z 2147483646)) with (S754_zero false).
    repeat split; reflexivity.
  - destruct (float_below_one (k - 1)) as (m & e & Em & Hdm & He & _); [lia|].
    rewrite Em. change (of_Z 1) with (S754_finite false 4503599627370496 (-52)).
    change (of_Z 0) with (S754_zero false).
    split; [reflexivity|]. split.
    + unfold SFltb, SFcompare.
      assert (Hlt : (e ?= -52) = Lt) by (apply Z.compare_lt_iff; lia).
      now rewrite Hlt.
    + split; [discriminate|]. intros E1. exfalso. apply Hk1.
      assert (Hto : to_Z (of_Z k) = Some k) by (apply to_Z_of_Z; lia).
      rewrite E1 in Hto. now injection Hto.
Qed.

End FloatRange.

Section ShufflePermutes.

Import Suites Runner.

(** X3: for a sound seed (a number that stands for an integer whose
    remainder by [MAX_INT32] is not [-(MAX_INT32 - 1)]), [shuffle]
    permutes an array without holes: every index it draws is an index of
    the array, computed in doubles as the code does, so that the array
    that comes out has no hole, no [undefined] and no named property, and
    holds the same elements, each as often as before. *)
Theorem shuffle_is_a_permutation (A : Type) (l : list A) (x : Js.number) :
  sound_seed x ->
  Z.of_nat (List.length l) <= 4294967295 ->
  draws_within_bounds (Random.swaps (List.length l) (Random.new x))
  /\ exists l', fst (Random.shuffle (Js.of_list l) (Random.new x)) = Js.of_list l'
                /\ Permutation l l'.
Proof.
  intros Hseed Hlen.
  assert (Hd : draws_within_bounds (Random.swaps (List.length l) (Random.new x))).
  { unfold Random.swaps. apply swaps_from_within_bounds; [now apply new_in_range|].
    change (2 ^ 32) with 4294967296. lia. }
  split; [exact Hd|]. now apply shuffle_of_list_within_bounds.
Qed.

Context `{Collaborators}.

(** X4: randomizing loses no test case when the seed is sound, which the
    time always is: [test_suite] then holds, after the shuffle, the test
    cases that [iter] yields, each once, in some order, and none of its
    elements is a hole or [undefined].  The filters then destructure
    every element: they return as many test cases when every pattern of
    [--grep] is one that [new RegExp] accepts, and throw the SyntaxError
    of [new RegExp] otherwise. *)
Theorem randomizing_keeps_every_test_case (cfg : Config) (w : World) (top_level : Suite) :
  (seed cfg = None /\ 0 <= now w < 2 ^ 53) \/ sound_seed (seed_of cfg w) ->
  Z.of_nat (List.length (iter top_level [])) <= 4294967295 ->
  exists l' : list TestItem,
    shuffled cfg w top_level = Js.of_list l'
    /\ Permutation (map (fun p => (fst p, snd p, new_status)) (iter top_level [])) l'
    /\ (patterns_valid cfg = true ->
        exists ts : list TestItem,
          filtered cfg (Js.items (shuffled cfg w top_level))
          = inr (map (fun it => Js.elem (Some it)) ts)
          /\ List.length ts = List.length (iter top_level []))
    /\ (patterns_valid cfg = false ->
        filtered cfg (Js.items (shuffled cfg w top_level)) = inl syntax_error).
Proof.
  intros Hseed Hlen.
  assert (Hsound : sound_seed (seed_of cfg w)).
  { destruct Hseed as [[Hnone Hnow] | Hs]; [|exact Hs].
    unfold seed_of. rewrite Hnone. now apply of_Z_sound_seed. }
  destruct (shuffled_permutes cfg w top_level) as (l' & E & P); [right; now split|].
  exists l'. split; [exact E|]. split; [exact P|].
  rewrite E. unfold Js.of_list. cbn [Js.items]. split; intros Hv.
  - rewrite (filtered_defined cfg _ Hv).
    eexists. split; [reflexivity|].
    rewrite !length_map, <- (length_map (fun p => (fst p, snd p, new_status))).
    symmetry. exact (Permutation_length P).
  - now apply filtered_refused.
Qed.

End ShufflePermutes.


(** ** Names of baselines *)

Section EncodeFacts.

Import Suites Runner.

Lemma encode_char_spec (c : ascii) :
  (reserved c -> encode_char c = "_"%char) /\ (~ reserved c -> encode_char c = c).
Proof.
  unfold encode_char, reserved.
  destruct (Ascii.eqb_spec c " "); [subst; split; [reflexivity | tauto]|].
  destruct (Ascii.eqb_spec c "/"); [subst; split; [reflexivity | tauto]|].
  destruct (Ascii.eqb_spec c "["); [subst; split; [reflexivity | tauto]|].
  destruct (Ascii.eqb_spec c "]"); [subst; split; [reflexivity | tauto]|].
  simpl. split; [intros [|[|[|]]]; contradiction | reflexivity].
Qed.

Lemma encode_char_not_reserved (c : ascii) : ~ reserved (encode_char c).
Proof.
  destruct (encode_char_spec c) as [Hr Hn].
  assert (Hd : reserved c \/ ~ reserved c).
  { unfold reserved.
    destruct (Ascii.eqb_spec c " "); [tauto|].
    destruct (Ascii.eqb_spec c "/"); [tauto|].
    destruct (Ascii.eqb_spec c "["); [tauto|].
    destruct (Ascii.eqb_spec c "]"); tauto. }
  destruct Hd as [Hc|Hc].
  - rewrite (Hr Hc). unfold reserved. intros [|[|[|]]]; discriminate.
  - now rewrite (Hn Hc).
Qed.

Lemma encode_app (s1 s2 : string) : encode (s1 +:+ s2) = encode s1 +:+ encode s2.
Proof. induction s1 as [|c s1 IH]; simpl; [reflexivity | now rewrite IH]. Qed.

(** X5: [encode] keeps the length of a text and goes through it place by
    place: where the text has a blank, a slash or a square bracket, the
    result has an underscore, and everywhere else it has the character of
    the text.  So none of these characters is left in the result,
    [encode] is the identity on a text that has none, and changes nothing
    when applied again; the name under which the baselines of a test case
    are stored therefore holds none of these characters. *)
Theorem encode_removes_reserved_characters (s : string) :
  String.length (encode s) = String.length s
  /\ (forall i c, String.get i s = Some c ->
                  (reserved c -> String.get i (encode s) = Some "_"%char)
                  /\ (~ reserved c -> String.get i (encode s) = Some c))
  /\ (forall c, In c (list_ascii_of_string (encode s)) -> ~ reserved c)
  /\ ((forall c, In c (list_ascii_of_string s) -> ~ reserved c) -> encode s = s)
  /\ encode (encode s) = encode s
  /\ (forall it : TestItem,
        forall c, In c (list_ascii_of_string (baseline_name_of it)) -> ~ reserved c).
Proof.
  assert (Hfree : forall s c, In c (list_ascii_of_string (encode s)) -> ~ reserved c).
  { clear s. intros s. induction s as [|a s IH]; simpl; [tauto|].
    intros c [<- | Hin]; [apply encode_char_not_reserved | now apply IH]. }
  assert (Hid : forall s, (forall c, In c (list_ascii_of_string s) -> ~ reserved c) ->
                          encode s = s).
  { clear s. intros s. induction s as [|a s IH]; simpl; [reflexivity|].
    intros Hs. rewrite IH by (intros c Hc; apply Hs; now right).
    destruct (encode_char_spec a) as [_ Hn]. rewrite Hn; [reflexivity|].
    apply Hs. now left. }
  split; [induction s as [|a s IH]; simpl; [reflexivity | now rewrite IH]|].
  split.
  { induction s as [|a s IH]; intros i c; [destruct i; discriminate|].
    destruct i as [|i]; simpl.
    - intros [= ->]. destruct (encode_char_spec c) as [Hr Hn].
      split; intros Hc; [now rewrite (Hr Hc) | now rewrite (Hn Hc)].
    - apply IH. }
  split; [apply Hfree|]. split; [apply Hid|].
  split; [apply Hid, Hfree|].
  intros it. apply Hfree.
Qed.

End EncodeFacts.

(** ** Positions of objects that are not there *)

Section MissingObjects.

Import Suites.

Context {X : Type} (ref_of : X -> nat).

Lemma index_of_missing (r : nat) (l : list X) :
  index_of ref_of r l = -1 <-> ~ In r (map ref_of l).
Proof.
  induction l as [|x l IH]; simpl; [tauto|].
  destruct (Nat.eqb_spec (ref_of x) r) as [E|E].
  - split; [discriminate | intros Hn; exfalso; apply Hn; now left].
  - pose proof (index_of_bounds ref_of r l) as Hb.
    destruct (Z.ltb_spec (index_of ref_of r l) 0) as [Hlt|Hge].
    + split; [intros _ | reflexivity].
      assert (E1 : index_of ref_of r l = -1) by lia.
      apply IH in E1. tauto.
    + split; [lia|]. intros Hn. exfalso.
      assert (Hn' : ~ In r (map ref_of l)) by tauto.
      apply IH in Hn'. lia.
Qed.

(** [indexOf], as [to_seq] uses it, returns [-1] exactly when no
    object of the array is the one looked for, and otherwise the place of
    its first occurrence, which is below the length of the array. *)
Lemma index_of_is_first_occurrence (r : nat) (l : list X) :
  (index_of ref_of r l = -1 <-> ~ In r (map ref_of l))
  /\ -1 <= index_of ref_of r l < Z.of_nat (List.length l)
  /\ (forall i : nat,
        index_of ref_of r l = Z.of_nat i ->
        (exists x, nth_error l i = Some x /\ ref_of x = r)
        /\ (forall j x, (j < i)%nat -> nth_error l j = Some x -> ref_of x <> r)).
Proof.
  split; [apply index_of_missing|]. split; [apply index_of_bounds|].
  induction l as [|x l IH]; simpl; intros i.
  - lia.
  - destruct (Nat.eqb_spec (ref_of x) r) as [E|E].
    + intros Hi. assert (i = O) by lia. subst i. split; [now exists x | intros; lia].
    + pose proof (index_of_bounds ref_of r l) as Hb.
      destruct (Z.ltb_spec (index_of ref_of r l) 0) as [Hlt|Hge]; [lia|].
      intros Hi. destruct i as [|i]; [lia|].
      assert (Hi' : index_of ref_of r l = Z.of_nat i) by lia.
      destruct (IH i Hi') as [Hex Hfirst]. split; [exact Hex|].
      intros [|j] y Hj; simpl; [now intros [= <-] | apply Hfirst; lia].
Qed.

End MissingObjects.

Section MissingTests.

Import Suites.

Lemma locate_from_negative (si : list Z) :
  forall s ti, ti < 0 -> locate_from s si ti = None.
Proof.
  induction si as [|i si IH]; intros s ti Hti; simpl.
  - destruct (Z.ltb_spec ti 0); [reflexivity | lia].
  - destruct (i <? 0); [reflexivity|].
    destruct (nth_error (suites s) (Z.to_nat i)); [|reflexivity].
    now rewrite IH.
Qed.

(** X6: for a test that is not among the tests of the last suite of its
    path, [to_seq] gives the test index [-1], and the sequence identifier
    leads to no test. *)
Theorem missing_test_is_not_located (top : Suite) (ss : list Suite) (t : Test) :
  ~ In (test_ref t) (map test_ref (tests (snd (to_seq_suites top ss)))) ->
  snd (to_seq top ss t) = -1 /\ locate top (to_seq top ss t) = None.
Proof.
  intros Hn. unfold to_seq, locate.
  destruct (to_seq_suites top ss) as [si cur]; simpl in *.
  apply (index_of_missing test_ref) in Hn. rewrite Hn. split; [reflexivity|].
  apply locate_from_negative. lia.
Qed.

End MissingTests.

(** ** The filters *)

Section FilterFacts.

Import Suites Runner.

Context `{Collaborators}.

Lemma after_filter_same_but_skip (keep : string -> bool) (it : TestItem) :
  same_but_skip it (after_filter keep it).
Proof.
  unfold after_filter, same_but_skip. destruct (keep _); simpl; repeat split.
Qed.

Lemma same_but_skip_trans (a b c : TestItem) :
  same_but_skip a b -> same_but_skip b c -> same_but_skip a c.
Proof.
  unfold same_but_skip. intros (A1 & A2 & A3 & A4 & A5 & A6 & A7)
    (B1 & B2 & B3 & B4 & B5 & B6 & B7).
  repeat split; congruence.
Qed.

(** X7: on a [test_suite] whose elements are all defined, the filters
    throw the SyntaxError of [new RegExp] when a pattern of [--grep] is
    one that it refuses, and no test case is marked then.  Otherwise the
    keyword and regular expression filters never remove or reorder a test
    case and change nothing of it but [test.skip]: every test case is kept
    in its place, and it is marked skip afterwards exactly when it was
    before, or its description contains none of the keywords given, or
    matches none of the regular expressions given. *)
Theorem filters_only_mark_skip (cfg : Config) (l : list TestItem) :
  if patterns_valid cfg then
    exists l',
      filtered cfg (map (fun it => Js.elem (Some it)) l)
      = inr (map (fun it => Js.elem (Some it)) l')
      /\ Forall2
           (fun it it' =>
              same_but_skip it it'
              /\ skip (item_test it')
                 = skip (item_test it)
                   || negb (kept_by_keywords cfg
                              (description (item_suites it) (item_test it) " "))
                   || negb (kept_by_regexes cfg
                              (description (item_suites it) (item_test it) " ")))
           l l'
  else filtered cfg (map (fun it => Js.elem (Some it)) l) = inl syntax_error.
Proof.
  destruct (patterns_valid cfg) eqn:Hv; [|now apply filtered_refused].
  eexists. split; [now apply filtered_defined|].
  induction l as [|it l IH]; simpl; constructor; [|exact IH].
  split.
  - eapply same_but_skip_trans; apply after_filter_same_but_skip.
  - now rewrite after_filter_skip, after_filter_description, after_filter_skip.
Qed.

End FilterFacts.

(** ** Reading the version of the browser *)

Section VersionFacts.

Import Runner.

Lemma digits_app (d rest : list ascii) :
  Forall (fun c => is_digit c = true) d ->
  digits (d ++ rest) = (d ++ fst (digits rest), snd (digits rest)).
Proof.
  induction 1 as [|c d Hc _ IH]; simpl.
  - now destruct (digits rest).
  - rewrite Hc, IH. reflexivity.
Qed.

Lemma digits_not_digit (c : ascii) (rest : list ascii) :
  is_digit c = false -> digits (c :: rest) = ([], c :: rest).
Proof. intros Hc. simpl. now rewrite Hc. Qed.

Lemma number_then_dot (d rest : list ascii) :
  is_number d -> number_then true (d ++ "."%char :: rest) = Some (d, rest).
Proof.
  intros [Hne Hd]. unfold number_then.
  rewrite (digits_app _ _ Hd), digits_not_digit by reflexivity.
  simpl. rewrite app_nil_r. destruct d; [contradiction | reflexivity].
Qed.

Lemma number_then_end (d rest : list ascii) :
  is_number d -> exists r, number_then false (d ++ rest) = Some r.
Proof.
  intros [Hne Hd]. unfold number_then. rewrite (digits_app _ _ Hd).
  destruct d as [|c d]; [contradiction|]. simpl. eauto.
Qed.

Lemma strip_prefix_app (p s : list ascii) : strip_prefix p (p ++ s) = Some s.
Proof.
  induction p as [|c p IH]; simpl; [now destruct s|].
  now rewrite Ascii.eqb_refl.
Qed.

Lemma match_here_version (a b c d rest : list ascii) :
  is_number a -> is_number b -> is_number c -> is_number d ->
  match_here (list_ascii_of_string "Chrome/"
              ++ a ++ "."%char :: b ++ "."%char :: c ++ "."%char :: d ++ rest)
  = Some a.
Proof.
  intros Ha Hb Hc Hd. unfold match_here. rewrite strip_prefix_app.
  rewrite (number_then_dot a _ Ha), (number_then_dot b _ Hb), (number_then_dot c _ Hc).
  destruct (number_then_end d rest Hd) as [r ->]. reflexivity.
Qed.

Lemma match_here_other (c : ascii) (s : list ascii) :
  c <> "C"%char -> match_here (c :: s) = None.
Proof.
  intros Hc. unfold match_here.
  change (list_ascii_of_string "Chrome/") with ("C"%char :: list_ascii_of_string "hrome/").
  cbn [strip_prefix].
  destruct (Ascii.eqb_spec "C" c) as [E|_]; [congruence | reflexivity].
Qed.

Lemma match_version_skips (p s : list ascii) :
  Forall (fun c => c <> "C"%char) p -> match_version (p ++ s) = match_version s.
Proof.
  induction 1 as [|c p Hc _ IH]; [reflexivity|].
  simpl app. cbn [match_version]. now rewrite (match_here_other c _ Hc).
Qed.

(** X8: in a version text that reads [Chrome/a.b.c.d] after a part
    without the letter C (as in [HeadlessChrome/...]), whatever follows,
    the major version is the number [a], and the version is accepted
    exactly when [a] is at least 107; a text in which the pattern does not
    occur is given the major version 0 and is refused. *)
Theorem check_version_reads_major (p a b c d rest : list ascii) :
  Forall (fun x => x <> "C"%char) p ->
  is_number a -> is_number b -> is_number c -> is_number d ->
  let version :=
    string_of_list_ascii
      (p ++ list_ascii_of_string "Chrome/"
         ++ a ++ "."%char :: b ++ "."%char :: c ++ "."%char :: d ++ rest) in
  major_of version = parse_int a
  /\ check_version version = (chromium_min_version <=? parse_int a)
  /\ (forall other,
        match_version (list_ascii_of_string other) = None ->
        major_of other = 0 /\ check_version other = false).
Proof.
  intros Hp Ha Hb Hc Hd version.
  assert (Hm : major_of version = parse_int a).
  { unfold major_of, version. rewrite list_ascii_of_string_of_list_ascii.
    rewrite (match_version_skips _ _ Hp).
    match goal with |- context [match_version ?s] => destruct s as [|x s'] eqn:Es end.
    - destruct p; discriminate.
    - rewrite <- Es. clear Es.
      assert (E : match_here (list_ascii_of_string "Chrome/"
                    ++ a ++ "."%char :: b ++ "."%char :: c ++ "."%char :: d ++ rest)
                  = Some a) by now apply match_here_version.
      change (match_version (list_ascii_of_string "Chrome/" ++ ?t))
        with (match match_here (list_ascii_of_string "Chrome/" ++ t) with
              | Some major => Some major
              | None => match_version (tl (list_ascii_of_string "Chrome/" ++ t))
              end).
      now rewrite E. }
  split; [exact Hm|]. split; [unfold check_version; now rewrite Hm|].
  intros other Hno. unfold check_version, major_of. rewrite Hno. split; reflexivity.
Qed.

End VersionFacts.

(** ** The code the process exits with *)

Section ExitCodes.

Import Suites Runner.

Context `{Collaborators}.

(** What [run] and [main] end the process with. *)
Lemma run_exit_codes (cfg : Config) (w : World) :
  (exit_code (run cfg w) = Some 0 \/ exit_code (run cfg w) = Some 1)
  /\ (exit_code (run cfg w) = Some 0
      <-> exists browser protocol,
            version w = inr (browser, protocol)
            /\ check_version browser = true
            /\ (info cfg = true \/ ok (run_tests cfg w) = true))
  /\ ((info cfg = true \/ exists e, version w = inl e) ->
      forallb is_message (run cfg w) = true).
Proof.
  unfold run.
  destruct (version w) as [e|[browser protocol]].
  - split; [right; reflexivity|]. split; [|reflexivity].
    split; [discriminate | intros (b & p & Hv & _); discriminate].
  - destruct (info cfg) eqn:Hi.
    + destruct (check_version browser) eqn:Hc; simpl.
      * split; [left; reflexivity|]. split; [|reflexivity].
        split; [exists browser, protocol; tauto | reflexivity].
      * split; [right; reflexivity|]. split; [|reflexivity].
        split; [discriminate|].
        intros (b & p & [= <- <-] & Hc' & _). congruence.
    + assert (Hlast : forall evs c,
                exit_code (evs ++ observed (run_tests cfg w) ++ [ProcessExit c]) = Some c).
      { intros evs c. rewrite app_assoc. apply exit_code_last. }
      rewrite Hlast.
      destruct (check_version browser) eqn:Hc; destruct (ok (run_tests cfg w)) eqn:Hok; simpl.
      * split; [now left|]. split; [|intros [[=]|[e [=]]]].
        split; [exists browser, protocol; tauto | reflexivity].
      * split; [now right|]. split; [|intros [[=]|[e [=]]]].
        split; [discriminate|].
        intros (b & p & [= <- <-] & _ & [[=]|[=]]).
      * split; [now right|]. split; [|intros [[=]|[e [=]]]].
        split; [discriminate|].
        intros (b & p & [= <- <-] & Hc' & _). congruence.
      * split; [now right|]. split; [|intros [[=]|[e [=]]]].
        split; [discriminate|].
        intros (b & p & [= <- <-] & Hc' & _). congruence.
Qed.

(** X9: the process exits with code 130, 0 or 1: with 130 exactly when
    it is interrupted before [run] or [main] has ended it; with 0 exactly
    when it is not, the version of the browser was obtained and is
    supported, and either [--info] was given or [run_tests] resolved to
    [true]; with 1 otherwise.  With [--info], or when the version cannot
    be obtained, nothing is evaluated in the page and no test is run:
    messages are all there is. *)
Theorem exit_code_is_0_only_on_success (cfg : Config) (w : World) (signal : option nat) :
  let code := exit_code (interrupted signal (run cfg w)) in
  let in_time := exists n, signal = Some n /\ (n < List.length (run cfg w))%nat in
  (code = Some 130 \/ code = Some 0 \/ code = Some 1)
  /\ (code = Some 130 <-> in_time)
  /\ (code = Some 0
      <-> ~ in_time
          /\ exists browser protocol,
               version w = inr (browser, protocol)
               /\ check_version browser = true
               /\ (info cfg = true \/ ok (run_tests cfg w) = true))
  /\ ((info cfg = true \/ exists e, version w = inl e) ->
      forallb is_message (interrupted signal (run cfg w)) = true).
Proof.
  intros code in_time.
  destruct (run_exit_codes cfg w) as (H01 & H0 & Hmsg).
  assert (Hcases : (in_time /\ code = Some 130)
                   \/ (~ in_time /\ code = exit_code (run cfg w)
                       /\ interrupted signal (run cfg w) = run cfg w)).
  { subst code in_time. unfold interrupted.
    destruct signal as [n|].
    - destruct (Nat.ltb_spec n (List.length (run cfg w))) as [Hlt|Hge].
      + left. split; [now exists n|].
        change [Log EmptyString; ProcessExit 130]
          with ([Log EmptyString] ++ [ProcessExit 130]).
        rewrite app_assoc. apply exit_code_last.
      + right. split; [|now split]. intros (n' & [= <-] & Hlt). lia.
    - right. split; [|now split]. intros (n' & [=] & _). }
  destruct Hcases as [[Hin Hc] | (Hout & Hc & Hsame)].
  - split; [now left|]. split; [tauto|]. split.
    + rewrite Hc. split; [discriminate | tauto].
    + intros Hi. subst code in_time. unfold interrupted in *.
      destruct Hin as (n & -> & Hlt).
      apply Nat.ltb_lt in Hlt. rewrite Hlt.
      rewrite forallb_app. apply andb_true_iff. split; [|reflexivity].
      pose proof (Hmsg Hi) as Hall.
      rewrite <- (firstn_skipn n (run cfg w)), forallb_app in Hall.
      now apply andb_true_iff in Hall.
  - rewrite Hc, Hsame.
    split; [destruct H01 as [E|E]; rewrite E; tauto|].
    split; [split; [destruct H01 as [E|E]; rewrite E; discriminate | tauto]|].
    split; [rewrite H0; tauto | exact Hmsg].
Qed.

End ExitCodes.

(** ** One test case *)

Section TestCaseFacts.

Import Suites Runner.

Context `{Collaborators}.

Variables (cfg : Config) (top_level : Suite) (suites : list Suite) (test : Test)
          (baseline_name : string).

Abbreviation run_test := (run_test cfg top_level suites test baseline_name).
Abbreviation retry_loop := (retry_loop cfg top_level suites test baseline_name).
Abbreviation run_attempts := (run_attempts cfg top_level suites test baseline_name).

(** X10: what a call of [run_test] has recorded is never taken back by
    the retries: a failure set by the first call is still set after the
    last one, the errors and the events of the first call are a prefix of
    the final ones, and the name is kept.  So a retry can add a failure,
    never clear one. *)
Theorem retries_never_clear_a_failure (answers : nat -> Attempt) (r : Run) :
  let first := run_test None (answers O) r in
  let r' := run_attempts answers r in
  (failure (status first) = Some true -> failure (status r') = Some true)
  /\ (exists es, errors (status r') = errors (status first) ++ es)
  /\ (exists evs, events r' = events first ++ evs)
  /\ Runner.baseline_name (status r') = Runner.baseline_name (status r).
Proof.
  intros first r'.
  assert (Hf : extends first r').
  { subst r'. unfold Runner.run_attempts. fold first.
    destruct (thrown first); [apply advances_refl; typeclasses eauto|].
    destruct (_ && _); [|apply advances_refl; typeclasses eauto].
    apply retry_loop_extends. apply advances_refl. typeclasses eauto. }
  assert (Hr : extends r r').
  { apply run_attempts_extends. apply advances_refl. typeclasses eauto. }
  destruct Hf as ((Hfail & Herr & _) & evs & Hev & _).
  destruct Hr as ((_ & _ & Hname) & _).
  split; [exact Hfail|]. split; [exact Herr|]. split; [now exists evs | exact Hname].
Qed.

(** X11: without a baselines directory a test case is run by one call of
    [run_test], whatever [--retry] and [test.retries] are: the test is
    evaluated and cleared, no state is asked for, no screenshot is taken,
    no file is read or written, and nothing is thrown.  The test case
    fails exactly when it had failed before the call, an exception was
    received, the evaluation failed or timed out, the result carries an
    error, or clearing failed; the entries of the console, errors
    included, are recorded but fail nothing. *)
Theorem without_baselines_directory_one_plain_call (answers : nat -> Attempt) (r : Run) :
  baselinesRoot cfg = None ->
  let a := answers O in
  let r' := run_attempts answers r in
  events r' = events r ++ plain_call top_level suites test None
  /\ thrown r' = thrown r
  /\ (failed (status r') = true
      <-> failed (status r) = true
          \/ exceptions r ++ new_exceptions a <> []
          \/ (exists t, run_output a = Failure t)
          \/ run_output a = Timeout
          \/ (exists result e, run_output a = Value result /\ result_error result = Some e)
          \/ (exists t, clear_output a = Failure t))
  /\ (exists es, errors (status r')
                 = errors (status r) ++ console_errors (entries r ++ new_entries a) ++ es)
  /\ baseline (status r') = baseline (status r)
  /\ image (status r') = image (status r)
  /\ reference (status r') = reference (status r).
Proof.
  intros Hroot a r'.
  assert (E : r' = run_test None a r /\ may_retry r' = false
              /\ events r' = events r ++ plain_call top_level suites test None
              /\ thrown r' = thrown r).
  { subst r'. unfold Runner.run_attempts.
    assert (Hm : may_retry (run_test None a r) = false
                 /\ events (run_test None a r) = events r ++ plain_call top_level suites test None
                 /\ thrown (run_test None a r) = thrown r).
    { unfold Runner.run_test, check_output, check_result, plain_call.
      rewrite Hroot.
      destruct (dpr test), (filter is_error _), (exceptions _), (run_output a) as [res| |],
        (clear_output a); try destruct (result_error res);
        simpl; rewrite <- ?app_assoc; simpl; repeat split; reflexivity. }
    destruct Hm as (Hm & He & Ht). subst a.
    assert (Hone : match thrown (run_test None (answers O) r) with
                   | Some _ => run_test None (answers O) r
                   | None => run_test None (answers O) r
                   end = run_test None (answers O) r)
      by now destruct (thrown (run_test None (answers O) r)).
    rewrite Hm, andb_false_r, Hone. auto. }
  destruct E as (E & _ & Hev & Hth). split; [exact Hev|]. split; [exact Hth|].
  rewrite E. clear E Hev Hth r'. unfold console_errors.
  unfold Runner.run_test, check_output, check_result. rewrite Hroot.
  unfold failed. subst a. generalize (answers O). intros a.
  destruct r as [st en ex mr evs th]. simpl.
  destruct (dpr test); simpl;
    destruct (filter is_error (en ++ new_entries a)) as [|e0 es0] eqn:Efil; simpl;
    destruct (ex ++ new_exceptions a) as [|x0 xs0] eqn:Eexc; simpl;
    destruct (run_output a) as [res|t|] eqn:Eout; simpl;
    try (destruct (result_error res) as [e|] eqn:Eres; simpl);
    destruct (clear_output a) as [u|t'|] eqn:Eclr;
    simpl; rewrite <- ?app_assoc; simpl;
    (split; [| split; [first [eexists; reflexivity
                              | exists []; simpl; now rewrite ?app_nil_r] | auto]]);
    rewrite ?orb_true_r; simpl;
    (split;
     [ intros Hf;
       first
         [ left; exact Hf
         | right; left; discriminate
         | right; right; left; eexists; reflexivity
         | right; right; right; left; reflexivity
         | right; right; right; right; left; do 2 eexists; split;
           [reflexivity | eassumption]
         | right; right; right; right; right; eexists; reflexivity ]
     | intros Hd;
       first
         [ reflexivity
         | destruct Hd as [Hf|[Hx|[[t0 Ht0]|[Ht0|[(r0 & e0' & Hr0 & He0)|[t0 Ht0]]]]]];
           first [exact Hf | congruence] ] ]).
Qed.

Lemma may_retry_compare_baseline path state_early state a (r : Run) :
  may_retry (compare_baseline cfg test path state_early state a r) = true
  <-> may_retry r = true
      \/ (create_baseline [state_early] = create_baseline [state]
          /\ is_Some (retries test)
          /\ exists existing, existing_baseline a = Some existing
                              /\ existing <> create_baseline [state]).
Proof.
  unfold compare_baseline.
  destruct (String.eqb_spec (create_baseline [state_early]) (create_baseline [state]))
    as [E|E]; simpl.
  - destruct (existing_baseline a) as [e|]; simpl.
    + destruct (String.eqb_spec e (create_baseline [state])) as [E'|E']; simpl.
      * split; [tauto|]. intros [Hm|(_ & _ & x & [= <-] & Hx)]; [exact Hm | contradiction].
      * destruct (retries test) as [n|]; simpl.
        -- split; [intros _|reflexivity]. right. split; [exact E|].
           split; [now exists n|]. now exists e.
        -- split; [tauto|]. intros [Hm|(_ & [x Hx] & _)]; [exact Hm | discriminate].
    + split; [tauto|]. intros [Hm|(_ & _ & x & Hx & _)]; [exact Hm | discriminate].
  - split; [tauto|]. intros [Hm|(E' & _)]; [exact Hm | contradiction].
Qed.

Lemma may_retry_test_screenshot attempt file current existing (r : Run) :
  may_retry (test_screenshot test attempt file current existing r) = true
  <-> may_retry r = true
      \/ exists e d, existing = Some e /\ buffer_equals e current = false
                     /\ diff_image e current = Some d.
Proof.
  unfold test_screenshot.
  destruct existing as [e|]; simpl.
  - destruct (buffer_equals e current) eqn:Eb; simpl.
    + split; [tauto|]. intros [Hm|(x & d & [= <-] & Hx & _)]; [exact Hm | congruence].
    + destruct (diff_image e current) as [d|] eqn:Ed.
      * assert (Hset : forall r0 : Run,
                  may_retry (if (match threshold test with Some t => t | None => 0 end)
                                <? pixels d
                             then update (push_errors [images_differ d attempt])
                                    (update (set_image_diff (diff d))
                                       (update set_failure
                                          (emit (WriteImage file current)
                                             (set_may_retry true r0))))
                             else set_may_retry true r0) = true)
          by (intros r0; now destruct (_ <? _)).
        split; [intros _|intros _; apply Hset].
        right. exists e, d. repeat split; assumption.
      * simpl. split; [tauto|].
        intros [Hm|(x & d & [= <-] & _ & Hd)]; [exact Hm | congruence].
  - split; [tauto|]. intros [Hm|(x & d & Hx & _)]; [exact Hm | discriminate].
Qed.

Lemma may_retry_compare_screenshot attempt path result a (r : Run) :
  may_retry (compare_screenshot cfg test attempt path result a r) = true
  <-> may_retry r = true \/ image_differs cfg result a.
Proof.
  unfold compare_screenshot, image_differs.
  destruct (bbox result) as [box|]; simpl.
  - destruct (screenshot cfg) as [mode|].
    + destruct (String.eqb_spec mode "test") as [->|Nt].
      * rewrite may_retry_test_screenshot. simpl.
        split; (intros [Hm|Hd]; [now left | right]).
        -- destruct Hd as (e & d & He & Hb & Hd). split; [now right|].
           now exists box, e, d.
        -- destruct Hd as (_ & b & e & d & _ & He & Hb & Hd). now exists e, d.
      * destruct (String.eqb mode "save"); [|destruct (String.eqb mode "skip")]; simpl;
          (split; [tauto|];
           intros [Hm|([Hn|[= Hn]] & _)]; [exact Hm | discriminate | contradiction]).
    + rewrite may_retry_test_screenshot. simpl.
      split; (intros [Hm|Hd]; [now left | right]).
      * destruct Hd as (e & d & He & Hb & Hd). split; [now left|].
        now exists box, e, d.
      * destruct Hd as (_ & b & e & d & _ & He & Hb & Hd). now exists e, d.
  - split; [tauto|]. intros [Hm|(_ & b & e & d & Hb & _)]; [exact Hm | discriminate].
Qed.

(** What is done with the output of the evaluation, from a state where
    no retry is asked for. *)
Lemma may_retry_after_output (attempt : option nat) (a : Attempt) (r2 : Run) :
  may_retry r2 = false ->
  may_retry match run_output a with
            | Failure t => update set_failure (update (push_errors [t]) r2)
            | Timeout => update set_timeout (update (push_errors ["timeout"]) r2)
            | Value result =>
                check_result cfg top_level suites test baseline_name attempt result a r2
            end = true
  <-> exists root result,
        baselinesRoot cfg = Some root
        /\ run_output a = Value result
        /\ (baseline_differs test result a \/ image_differs cfg result a).
Proof.
  intros H2.
  destruct (run_output a) as [result|t|]; simpl.
  - unfold check_result.
    set (r3 := match result_error result with Some _ => _ | None => r2 end).
    assert (H3 : may_retry r3 = false) by (subst r3; now destruct (result_error result)).
    clearbody r3.
    destruct (baselinesRoot cfg) as [root|].
    + rewrite may_retry_compare_screenshot.
      unfold baseline_differs, state_not_present.
      assert (Hnot : may_retry r3 = true \/ image_differs cfg result a
                     <-> exists root0 result0,
                           Some root = Some root0 /\ Value result = Value result0
                           /\ (False \/ image_differs cfg result0 a)).
      { rewrite H3. split.
        - intros [Hf|Hi]; [discriminate|]. exists root, result. tauto.
        - intros (root' & res & _ & [= <-] & [[]|Hi]). now right. }
      destruct (Runner.state result) as [se|] eqn:Ese; simpl.
      * destruct (state_output a) as [[s|]|t|] eqn:Eso; simpl.
        -- rewrite may_retry_compare_baseline. simpl. rewrite H3.
           split.
           ++ intros [[Hf|(E & Hr & e & He & Hne)]|Hi]; [discriminate| |].
              ** exists root, result. split; [reflexivity|]. split; [reflexivity|].
                 left. split; [exact Hr|]. now exists se, s, e.
              ** exists root, result. tauto.
           ++ intros (root' & res & _ & [= <-] & [(Hr & se' & s' & e & Hse & Hs & E & He & Hne)|Hi]).
              ** left. right. rewrite Ese in Hse. injection Hse as <-. injection Hs as <-.
                 split; [exact E|]. split; [exact Hr|]. now exists e.
              ** now right.
        -- rewrite Hnot. split; intros (root' & res & Hr0 & [= <-] & [HF|Hi]);
             exists root', result; (split; [exact Hr0|]); (split; [reflexivity|]);
             try (now right); try contradiction.
           destruct HF as (_ & se' & s' & e & _ & Hs & _). discriminate.
        -- rewrite Hnot. split; intros (root' & res & Hr0 & [= <-] & [HF|Hi]);
             exists root', result; (split; [exact Hr0|]); (split; [reflexivity|]);
             try (now right); try contradiction.
           destruct HF as (_ & se' & s' & e & _ & Hs & _). discriminate.
        -- rewrite Hnot. split; intros (root' & res & Hr0 & [= <-] & [HF|Hi]);
             exists root', result; (split; [exact Hr0|]); (split; [reflexivity|]);
             try (now right); try contradiction.
           destruct HF as (_ & se' & s' & e & _ & Hs & _). discriminate.
      * rewrite Hnot. split; intros (root' & res & Hr0 & [= <-] & [HF|Hi]);
          exists root', result; (split; [exact Hr0|]); (split; [reflexivity|]);
          try (now right); try contradiction.
        destruct HF as (_ & se' & s' & e & Hs & _). congruence.
    + rewrite H3. split; [discriminate|]. intros (root & _ & Hr & _). discriminate.
  - rewrite H2. split; [discriminate|]. intros (root & res & _ & Hr & _). discriminate.
  - rewrite H2. split; [discriminate|]. intros (root & res & _ & Hr & _). discriminate.
Qed.


(** The variable [may_retry] at the end of a call of [run_test],
    whether the call returns or throws. *)
Lemma may_retry_run_test (attempt : option nat) (a : Attempt) (r : Run) :
  may_retry (run_test attempt a r) = true
  <-> exists root result,
        baselinesRoot cfg = Some root
        /\ run_output a = Value result
        /\ (baseline_differs test result a \/ image_differs cfg result a).
Proof.
  assert (Hclear : forall r0 : Run,
            may_retry match clear_output a with
                      | Failure t => update set_failure (update (push_errors [t]) r0)
                      | _ => r0
                      end = may_retry r0) by (intros r0; now destruct (clear_output a)).
  unfold Runner.run_test. rewrite Hclear.
  change (may_retry (emit ?e ?x)) with (may_retry x).
  unfold check_output.
  destruct r as [st en ex mr evs th].
  destruct (dpr test); simpl;
    destruct (filter is_error (en ++ new_entries a)); simpl;
    destruct (ex ++ new_exceptions a); simpl;
    apply may_retry_after_output; reflexivity.
Qed.

Lemma thrown_compare_baseline path state_early state a (r : Run) :
  thrown (compare_baseline cfg test path state_early state a r) = thrown r.
Proof.
  unfold compare_baseline.
  destruct (negb (String.eqb _ _)); [reflexivity|].
  destruct (existing_baseline a) as [e|]; simpl.
  - destruct (negb (String.eqb e _)); [|reflexivity].
    now destruct (retries test).
  - reflexivity.
Qed.

Lemma thrown_test_screenshot attempt file current existing (r : Run) :
  thrown (test_screenshot test attempt file current existing r) = thrown r.
Proof.
  unfold test_screenshot.
  destruct existing as [e|]; [|reflexivity].
  destruct (negb (buffer_equals e current)); [|reflexivity].
  destruct (diff_image e current) as [d|]; [|reflexivity].
  now destruct (_ <? _).
Qed.

(** The screenshot step throws for a mode that is refused, and for
    nothing else. *)
Lemma thrown_compare_screenshot attempt path result a (r : Run) :
  thrown r = None ->
  thrown (compare_screenshot cfg test attempt path result a r) <> None
  <-> mode_refused cfg result.
Proof.
  intros Hr. unfold compare_screenshot, mode_refused, unknown_mode.
  destruct (bbox result) as [box|].
  - destruct (screenshot cfg) as [mode|].
    + destruct (String.eqb_spec mode "test") as [->|Nt].
      * rewrite thrown_test_screenshot. simpl. rewrite Hr.
        split; [congruence|]. intros (_ & m & [= <-] & Hm & _). congruence.
      * destruct (String.eqb_spec mode "save") as [->|Ns].
        -- simpl. rewrite Hr.
           split; [congruence|]. intros (_ & m & [= <-] & _ & Hm & _). congruence.
        -- destruct (String.eqb_spec mode "skip") as [->|Nk].
           ++ simpl. rewrite Hr.
              split; [congruence|]. intros (_ & m & [= <-] & _ & _ & Hm). congruence.
           ++ simpl. split; [|discriminate]. intros _.
              split; [now eexists|]. now exists mode.
    + rewrite thrown_test_screenshot. simpl. rewrite Hr.
      split; [congruence|]. intros (_ & m & [=] & _).
  - rewrite Hr. split; [congruence|]. intros ([box [=]] & _).
Qed.

(** What a call of [run_test] throws. *)
Lemma thrown_run_test (attempt : option nat) (a : Attempt) (r : Run) :
  thrown r = None ->
  thrown (run_test attempt a r) <> None
  <-> exists root result,
        baselinesRoot cfg = Some root
        /\ run_output a = Value result
        /\ mode_refused cfg result.
Proof.
  intros Hr.
  assert (Hclear : forall r0 : Run,
            thrown match clear_output a with
                   | Failure t => update set_failure (update (push_errors [t]) r0)
                   | _ => r0
                   end = thrown r0) by (intros r0; now destruct (clear_output a)).
  unfold Runner.run_test. rewrite Hclear.
  change (thrown (emit ?e ?x)) with (thrown x).
  unfold check_output.
  match goal with |- context [receive a ?x] => set (r1 := receive a x) end.
  assert (H1 : thrown r1 = None) by (subst r1; now destruct (dpr test)).
  clearbody r1.
  set (r2 := match filter is_error (entries r1) with [] => r1 | _ => _ end).
  assert (H2 : thrown r2 = None)
    by (subst r2; now destruct (filter is_error (entries r1))).
  clearbody r2.
  set (r3 := match exceptions r2 with [] => r2 | _ => _ end).
  assert (H3 : thrown r3 = None) by (subst r3; now destruct (exceptions r2)).
  clearbody r3.
  destruct (run_output a) as [result|t|]; simpl.
  - unfold check_result.
    set (r4 := match result_error result with Some _ => _ | None => r3 end).
    assert (H4 : thrown r4 = None) by (subst r4; now destruct (result_error result)).
    clearbody r4.
    destruct (baselinesRoot cfg) as [root|].
    + rewrite thrown_compare_screenshot.
      * split; [intros Hm; now exists root, result|].
        now intros (root' & result' & _ & [= <-] & Hm).
      * destruct (Runner.state result) as [se|]; [|exact H4].
        destruct (state_output a) as [[s|]|t|]; try exact H4.
        now rewrite thrown_compare_baseline.
    + rewrite H4. split; [congruence|]. intros (root & _ & [=] & _).
  - rewrite H3. split; [congruence|]. intros (root & res & _ & [=] & _).
  - rewrite H3. split; [congruence|]. intros (root & res & _ & [=] & _).
Qed.

(** X12: a call of [run_test] returns [true] (it ends with [may_retry]
    set, and without throwing) exactly when there is a baselines
    directory, the evaluation gave a result, the screenshot mode is not
    one that is refused for it, and either the stored baseline differs
    from a consistent state and the test declares [retries], or
    screenshots are tested and the stored image differs from the
    screenshot.  It throws exactly when there is a baselines directory,
    the evaluation gave a result with a region to capture, and the
    screenshot mode is unknown.  In particular a failed or timed-out
    evaluation, a missing baseline, a missing image and an inconsistent
    state are never retried, and [--retry] alone retries image
    differences only. *)
Theorem retry_is_asked_for_differing_baselines_only
    (attempt : option nat) (a : Attempt) (r : Run) :
  thrown r = None ->
  (thrown (run_test attempt a r) = None /\ may_retry (run_test attempt a r) = true
   <-> exists root result,
         baselinesRoot cfg = Some root
         /\ run_output a = Value result
         /\ ~ mode_refused cfg result
         /\ (baseline_differs test result a \/ image_differs cfg result a))
  /\ (thrown (run_test attempt a r) <> None
      <-> exists root result,
            baselinesRoot cfg = Some root
            /\ run_output a = Value result
            /\ mode_refused cfg result).
Proof.
  intros Hr. split; [|now apply thrown_run_test].
  pose proof (thrown_run_test attempt a r Hr) as Ht.
  pose proof (may_retry_run_test attempt a r) as Hm.
  split.
  - intros [Hnone Hmay]. destruct (proj1 Hm Hmay) as (root & result & Hroot & Hout & Hd).
    exists root, result. repeat split; try assumption.
    intros Href. apply (proj2 Ht); [|exact Hnone]. now exists root, result.
  - intros (root & result & Hroot & Hout & Href & Hd). split.
    + destruct (thrown (run_test attempt a r)) eqn:E; [|reflexivity].
      exfalso. destruct (proj1 Ht) as (root' & result' & _ & Hout' & Href'); [congruence|].
      rewrite Hout in Hout'. injection Hout' as <-. contradiction.
    + apply (proj2 Hm). now exists root, result.
Qed.

(** From the comparison of the baseline to the end of the call: the
    screenshot step, clearing the test and what is done when that fails
    touch no baseline file and lose nothing of the status. *)
Lemma rest_of_call (attempt : option nat) (path : string) (result : Result)
    (a : Attempt) (X : Run) :
  let Z := emit (Evaluate ("Tests.clear(" +:+ seq top_level suites test +:+ ")"))
             (compare_screenshot cfg test attempt path result a X) in
  let F := match clear_output a with
           | Failure t => update set_failure (update (push_errors [t]) Z)
           | _ => Z
           end in
  without_baseline X F /\ extends X F.
Proof.
  intros Z F.
  assert (HXZ : without_baseline X Z /\ extends X Z).
  { subst Z. split.
    - apply advances_emit; [reflexivity|].
      apply compare_screenshot_without_baseline. apply advances_refl. typeclasses eauto.
    - apply advances_emit; [exact I|].
      apply compare_screenshot_extends. apply advances_refl. typeclasses eauto. }
  destruct HXZ as [HXZ HXZ'].
  assert (HZF : without_baseline Z F /\ extends Z F).
  { subst F. destruct (clear_output a); split;
      unfold without_baseline, extends; advances_auto. }
  destruct HZF as [HZF HZF'].
  split; (eapply advances_trans; [typeclasses eauto | eassumption | eassumption]).
Qed.

(** X13: in a call of [run_test] with a baselines directory, when the
    state of the result and the state asked for afterwards give the same
    baseline text, that text is written to the [.blf] file of the test
    and recorded in [status.baseline], and the stored baseline is loaded,
    once each and in this order; when the stored baseline is this text,
    nothing more is done with the file and [baseline_diff] is left as it
    was; when it is missing or another text, the difference is computed
    once, recorded in [status.baseline_diff] and in the errors, and the
    test is failed ("missing baseline" is recorded if there was none). *)
Theorem consistent_state_is_written_then_compared
    (attempt : option nat) (a : Attempt) (r : Run)
    (root : string) (result : Result) (state_early state_later : State) :
  baselinesRoot cfg = Some root ->
  run_output a = Value result ->
  state result = Some state_early ->
  state_output a = Value (Some state_later) ->
  create_baseline [state_early] = create_baseline [state_later] ->
  let r' := run_test attempt a r in
  let file := path_join [root; platform; baseline_name] +:+ ".blf" in
  let text := create_baseline [state_later] in
  exists before after,
    events r' = events r ++ before
                ++ [WriteFile file text; LoadBaseline file (git_ref cfg)] ++ after
    /\ Forall (fun e => is_baseline_io e = false) before
    /\ baseline (status r') = Some text
    /\ ((existing_baseline a = Some text
         /\ Forall (fun e => is_baseline_io e = false) after
         /\ baseline_diff (status r') = baseline_diff (status r))
        \/ (existing_baseline a <> Some text
            /\ (exists after',
                  after = DiffBaseline file (git_ref cfg) :: after'
                  /\ Forall (fun e => is_baseline_io e = false) after')
            /\ failure (status r') = Some true
            /\ baseline_diff (status r') = Some (baseline_diff_text a)
            /\ In (baseline_diff_text a) (errors (status r'))
            /\ (existing_baseline a = None -> In "missing baseline" (errors (status r'))))).
Proof.
  intros Hroot Hrun Hstate Hlater Heq r' file text.
  apply String.eqb_eq in Heq.
  subst r'. unfold Runner.run_test, check_output. rewrite Hrun.
  unfold check_result. rewrite Hroot, Hstate, Hlater.
  match goal with
  | |- context [compare_baseline _ _ _ _ _ _ ?y] => set (Y := y)
  end.
  assert (HrY : without_baseline r Y).
  { subst Y. unfold without_baseline. advances_auto. }
  destruct HrY as ((HbY & HdY) & before & HevY & Hbefore).
  clearbody Y. exists before.
  unfold compare_baseline. rewrite Heq. cbn [negb]. fold file text.
  destruct (existing_baseline a) as [e|] eqn:Ee;
    [destruct (String.eqb_spec e text) as [->|Hne]|]; cbn [negb];
    (match goal with
     | |- context [compare_screenshot _ _ _ _ _ _ ?x] => set (X := x)
     end;
     match goal with
     | |- exists _, events ?f = _ /\ _ => set (F := f)
     end;
     destruct (rest_of_call attempt (path_join [root; platform; baseline_name]) result a X)
       as [HXF HXF'];
     fold F in HXF, HXF';
     destruct HXF as ((HbF & HdF) & after & HevF & Hafter);
     destruct HXF' as ((HfF & (es & HesF) & _) & _)).
  - (* the stored baseline is the state *)
    exists after.
    split; [rewrite HevF; subst X; simpl; rewrite HevY, <- !app_assoc; reflexivity|].
    split; [exact Hbefore|].
    split; [rewrite HbF; reflexivity|].
    left. split; [reflexivity|]. split; [exact Hafter|].
    rewrite HdF. subst X. simpl. exact HdY.
  - exists (DiffBaseline file (git_ref cfg) :: after).
    assert (HevX : events X = events r ++ before
                              ++ [WriteFile file text; LoadBaseline file (git_ref cfg);
                                  DiffBaseline file (git_ref cfg)]).
    { subst X. destruct (retries test); simpl; rewrite HevY, <- !app_assoc; reflexivity. }
    assert (HstX : baseline (status X) = Some text
                   /\ failure (status X) = Some true
                   /\ baseline_diff (status X) = Some (baseline_diff_text a)
                   /\ In (baseline_diff_text a) (errors (status X))).
    { subst X. destruct (retries test); simpl;
        (repeat split; try reflexivity); apply in_or_app; right; now left. }
    destruct HstX as (Hb & Hf & Hd & He).
    split; [rewrite HevF, HevX, <- !app_assoc; reflexivity|].
    split; [exact Hbefore|].
    split; [rewrite HbF; exact Hb|].
    right. split; [intros [= E]; contradiction|].
    split; [now exists after|].
    split; [now apply HfF|].
    split; [rewrite HdF; exact Hd|].
    split; [rewrite HesF; apply in_or_app; now left | discriminate].
  - exists (DiffBaseline file (git_ref cfg) :: after).
    assert (HevX : events X = events r ++ before
                              ++ [WriteFile file text; LoadBaseline file (git_ref cfg);
                                  DiffBaseline file (git_ref cfg)]).
    { subst X. simpl. rewrite HevY, <- !app_assoc. reflexivity. }
    assert (HstX : baseline (status X) = Some text
                   /\ failure (status X) = Some true
                   /\ baseline_diff (status X) = Some (baseline_diff_text a)
                   /\ In (baseline_diff_text a) (errors (status X))
                   /\ In "missing baseline" (errors (status X))).
    { subst X. simpl. repeat split; try reflexivity.
      - apply in_or_app; right; now left.
      - apply in_or_app; left. apply in_or_app; right; now left. }
    destruct HstX as (Hb & Hf & Hd & He & Hmiss).
    split; [rewrite HevF, HevX, <- !app_assoc; reflexivity|].
    split; [exact Hbefore|].
    split; [rewrite HbF; exact Hb|].
    right. split; [discriminate|].
    split; [now exists after|].
    split; [now apply HfF|].
    split; [rewrite HdF; exact Hd|].
    split; [rewrite HesF; apply in_or_app; now left|].
    intros _. rewrite HesF. apply in_or_app; now left.
Qed.

End TestCaseFacts.

(** ** The loop, one test case at a time *)

Section LoopFacts.

Import Suites Runner.

Context `{Collaborators}.

Variables (cfg : Config) (w : World) (top_level : Suite).

(** X14: a test case that is marked skip is not run: nothing is
    evaluated or observed and nothing is thrown; it is marked and counted
    as skipped.  Its name is still checked and recorded: it is counted as
    a failure exactly when its status was failed already or its name was
    that of an earlier test case, and later test cases of the same name
    are duplicates of it. *)
Theorem skipped_case_is_not_run (pos : nat) (it : TestItem) (l : Loop) :
  skip (item_test it) = true ->
  let l' := run_case cfg w top_level pos it l in
  let name := encode (description (item_suites it) (item_test it) "__") in
  loop_events l' = loop_events l
  /\ loop_thrown l' = None
  /\ skipped_count l' = S (skipped_count l)
  /\ (exists st, processed l' = processed l ++ [(item_suites it, item_test it, st)]
                 /\ skipped st = Some true
                 /\ baseline_name st = Some name)
  /\ failures l'
     = (if failed (item_status it) || bool_decide (name ∈ baseline_names l)
        then S (failures l) else failures l)
  /\ (forall x, x ∈ baseline_names l' <-> x = name \/ x ∈ baseline_names l).
Proof.
  intros Hskip l' name. subst l'. unfold run_case. rewrite Hskip. fold name.
  destruct (bool_decide (name ∈ baseline_names l)) eqn:Hdup; simpl.
  - repeat split; try reflexivity.
    + eexists. split; [reflexivity|]. split; reflexivity.
    + now rewrite orb_true_r.
    + intros Hx. now right.
    + intros [->|Hx]; [|exact Hx]. now apply bool_decide_eq_true in Hdup.
  - repeat split; try reflexivity.
    + eexists. split; [reflexivity|]. split; reflexivity.
    + rewrite orb_false_r. reflexivity.
    + intros Hx. apply elem_of_union in Hx. destruct Hx as [Hx|Hx]; [|now right].
      left. now apply elem_of_singleton in Hx.
    + intros [->|Hx]; apply elem_of_union; [left; now apply elem_of_singleton | now right].
Qed.

Lemma count_snoc (p : Status -> bool) (gone : list TestItem) (it : TestItem) :
  count p (gone ++ [it]) = (count p gone + if p (item_status it) then 1 else 0)%nat.
Proof.
  unfold count. rewrite List.filter_app, List.length_app. simpl.
  now destruct (p (item_status it)).
Qed.

Lemma run_case_counts (pos : nat) (it : TestItem) (l : Loop) :
  failures l = count failed (processed l) ->
  skipped_count l = count (fun s => or_false (skipped s)) (processed l) ->
  loop_thrown (run_case cfg w top_level pos it l) = None ->
  failures (run_case cfg w top_level pos it l)
  = count failed (processed (run_case cfg w top_level pos it l))
  /\ skipped_count (run_case cfg w top_level pos it l)
     = count (fun s => or_false (skipped s)) (processed (run_case cfg w top_level pos it l)).
Proof.
  intros Hf Hs. unfold run_case.
  match goal with |- context [thrown ?x] => set (r := x) end.
  destruct (thrown r); [discriminate|]. intros _. simpl.
  rewrite !count_snoc. simpl. rewrite Hf, Hs.
  split; [destruct (failed (status r)) | destruct (or_false (skipped (status r)))]; lia.
Qed.

Lemma run_loop_counts (ts : list (Js.slot TestItem)) :
  forall (pos : nat) (l : Loop),
    failures l = count failed (processed l) ->
    skipped_count l = count (fun s => or_false (skipped s)) (processed l) ->
    loop_thrown (run_loop cfg w top_level pos ts l) = None ->
    failures (run_loop cfg w top_level pos ts l)
    = count failed (processed (run_loop cfg w top_level pos ts l))
    /\ skipped_count (run_loop cfg w top_level pos ts l)
       = count (fun s => or_false (skipped s))
           (processed (run_loop cfg w top_level pos ts l)).
Proof.
  induction ts as [|[|[it|]] ts IH]; intros pos l Hf Hs; simpl; try discriminate.
  - intros _. now split.
  - destruct (loop_thrown (run_case cfg w top_level pos it l)) eqn:Et.
    + rewrite Et. discriminate.
    + apply IH; now apply run_case_counts.
Qed.

(** X15: as long as nothing is thrown, the two counters of the loop are
    the numbers of test cases gone through whose status is failed or
    timed out, and skipped; and every element of [test_suite] has been
    gone through. *)
Theorem counters_agree_with_the_statuses (evs : list Event) (ts : list (Js.slot TestItem)) :
  let l := run_loop cfg w top_level O ts (mk_loop ∅ O O [] evs None) in
  loop_thrown l = None ->
  failures l = count failed (processed l)
  /\ skipped_count l = count (fun s => or_false (skipped s)) (processed l)
  /\ List.length (processed l) = List.length ts.
Proof.
  intros l Ht.
  destruct (run_loop_counts ts O (mk_loop ∅ O O [] evs None) eq_refl eq_refl Ht)
    as [Hf Hs].
  split; [exact Hf|]. split; [exact Hs|].
  destruct (run_loop_goes_through_every_test_case cfg w top_level ts O _ Ht)
    as (gone & Hp & Hm).
  fold l in Hp. rewrite Hp. simpl.
  apply (f_equal (@List.length _)) in Hm. rewrite !length_map in Hm. now symmetry.
Qed.

Lemma compare_screenshot_unknown_mode (test : Test) (attempt : option nat)
    (path mode : string) (result : Result) (box : Box) (a : Attempt) (r : Run) :
  screenshot cfg = Some mode -> unknown_mode mode -> bbox result = Some box ->
  let r' := compare_screenshot cfg test attempt path result a r in
  thrown r' = Some (Error ("invalid argument --screenshot=" +:+ mode))
  /\ exists evs, events r' = events r ++ evs.
Proof.
  intros Hmode (Nt & Ns & Nk) Hbox. unfold compare_screenshot.
  rewrite Hbox, Hmode.
  apply String.eqb_neq in Nt, Ns, Nk. rewrite Nt, Ns, Nk. simpl.
  split; [reflexivity|]. rewrite <- app_assoc. now eexists.
Qed.

(** X16: with a baselines directory and a value of [--screenshot] other
    than [test], [save] and [skip], the first test case that is run and
    gives a result with a region to capture throws: the test is cleared
    all the same, it is not retried, the counters are not updated, the
    rest of [test_suite] is not gone through, and the error is the
    invalid argument. *)
Theorem unknown_screenshot_mode_stops_the_loop
    (pos : nat) (it : TestItem) (l : Loop) (root mode : string)
    (result : Result) (box : Box) (ts : list (Js.slot TestItem)) :
  baselinesRoot cfg = Some root ->
  screenshot cfg = Some mode -> unknown_mode mode ->
  skip (item_test it) = false ->
  run_output (attempt_at w pos O) = Value result ->
  bbox result = Some box ->
  let l' := run_case cfg w top_level pos it l in
  loop_thrown l' = Some (Error ("invalid argument --screenshot=" +:+ mode))
  /\ calls (loop_events l') = calls (loop_events l) ++ [None]
  /\ last (loop_events l')
     = Some (Evaluate ("Tests.clear("
                       +:+ seq top_level (item_suites it) (item_test it) +:+ ")"))
  /\ failures l' = failures l
  /\ skipped_count l' = skipped_count l
  /\ run_loop cfg w top_level pos (Js.elem (Some it) :: ts) l = l'.
Proof.
  intros Hroot Hmode Hunknown Hskip Hout Hbox l'.
  set (name := encode (description (item_suites it) (item_test it) "__")).
  set (a := attempt_at w pos O) in *.
  assert (Hcall : forall r : Run,
            let r' := run_test cfg top_level (item_suites it) (item_test it) name None a r in
            thrown r' = Some (Error ("invalid argument --screenshot=" +:+ mode))
            /\ last (events r')
               = Some (Evaluate ("Tests.clear("
                                 +:+ seq top_level (item_suites it) (item_test it) +:+ ")"))).
  { intros r. unfold run_test, check_output. fold a. rewrite Hout.
    unfold check_result. rewrite Hroot.
    match goal with |- context [compare_screenshot cfg ?t ?at' ?p result a ?x] =>
      destruct (compare_screenshot_unknown_mode t at' p mode result box a x
                  Hmode Hunknown Hbox) as [Hth _];
      set (r1 := compare_screenshot cfg t at' p result a x) in *
    end.
    simpl. destruct (clear_output a); simpl;
      (split; [exact Hth | apply last_snoc]). }
  assert (Hrun : forall r : Run,
            run_attempts cfg top_level (item_suites it) (item_test it) name (attempt_at w pos) r
            = run_test cfg top_level (item_suites it) (item_test it) name None a r).
  { intros r. unfold run_attempts. fold a.
    destruct (Hcall r) as [Hth _]. simpl in Hth. now rewrite Hth. }
  assert (Hl : loop_thrown l' = Some (Error ("invalid argument --screenshot=" +:+ mode))
               /\ calls (loop_events l') = calls (loop_events l) ++ [None]
               /\ last (loop_events l')
                  = Some (Evaluate ("Tests.clear("
                                    +:+ seq top_level (item_suites it) (item_test it) +:+ ")"))
               /\ failures l' = failures l
               /\ skipped_count l' = skipped_count l).
  { subst l'. unfold run_case. rewrite Hskip. fold name. rewrite Hrun.
    match goal with |- context [run_test _ _ _ _ _ None a ?x] =>
      destruct (Hcall x) as [Hth Hlast];
      pose proof (run_test_calls cfg top_level (item_suites it) (item_test it) name None a x)
        as Hcalls;
      set (r1 := run_test cfg top_level (item_suites it) (item_test it) name None a x) in *
    end.
    simpl in Hth, Hlast. rewrite Hth. simpl.
    split; [reflexivity|]. split; [exact Hcalls|]. split; [exact Hlast|].
    split; reflexivity. }
  destruct Hl as (Hth & Hcalls & Hlast & Hf & Hs).
  repeat (split; [assumption|]).
  simpl. fold l'. now rewrite Hth.
Qed.

End LoopFacts.

(** ** A run that succeeds, and files that no test accounts for *)

Section SuccessFacts.

Import Suites Runner.

Context `{Collaborators}.

Variables (cfg : Config) (w : World).

Lemma ends_with_append (n suffix : string) : ends_with suffix (n +:+ suffix) = true.
Proof.
  induction n as [|c n IH]; simpl.
  - destruct suffix; simpl; [reflexivity|]. now rewrite Ascii.eqb_refl, String.eqb_refl.
  - rewrite IH. apply orb_true_r.
Qed.

(** When nothing is thrown after the loop, no test case has failed and,
    with a baselines directory, every file of it is accounted for. *)
Lemma finalize_passes (l : Loop) :
  loop_invariant l ->
  loop_thrown l = None ->
  snd (finalize cfg w l) = None ->
  Forall (fun it => failed (item_status it) = false) (processed l)
  /\ (is_Some (baselinesRoot cfg) ->
      forall f, In f (readdir w) -> accounted (processed l) f).
Proof.
  intros [Hn _ _ Hc] Ht Hfin.
  assert (Hzero : failures l = O
                  /\ (is_Some (baselinesRoot cfg) -> outdated w (baseline_names l) = [])).
  { unfold finalize in Hfin.
    destruct (baselinesRoot cfg) as [root|].
    - destruct (outdated w (baseline_names l)); [|discriminate]. simpl in Hfin.
      destruct (Nat.eqb_spec (failures l) 0); [tauto | discriminate].
    - simpl in Hfin. destruct (Nat.eqb_spec (failures l) 0); [|discriminate].
      split; [assumption | intros [x Hx]; discriminate]. }
  destruct Hzero as [Hz Hout]. split.
  - apply List.Forall_forall. intros it Hin.
    destruct (failed (item_status it)) eqn:Hf; [|reflexivity].
    specialize (Hc Ht it Hin Hf). lia.
  - intros Hroot f Hf. specialize (Hout Hroot). unfold outdated in Hout.
    assert (Hin : f ∈ remove_dups (readdir w))
      by (apply elem_of_remove_dups, list_elem_of_In, Hf).
    destruct (String.eqb_spec f "report.json") as [E1|E1]; [now left|].
    destruct (String.eqb_spec f "report.out") as [E2|E2]; [right; now left|].
    destruct (existsb (fun n => String.eqb f (n +:+ ".blf") || String.eqb f (n +:+ ".png"))
                (elements (baseline_names l))) eqn:Ex.
    + apply existsb_exists in Ex. destruct Ex as (n & Hnin & Hn').
      apply list_elem_of_In, elem_of_elements, Hn in Hnin.
      destruct Hnin as (it & Hit & <-).
      right. right. exists it. split; [exact Hit|].
      apply orb_true_iff in Hn'. destruct Hn' as [E|E]; apply String.eqb_eq in E; tauto.
    + exfalso.
      assert (Hk : f ∈ filter (fun f =>
                 negb (String.eqb f "report.json" || String.eqb f "report.out"
                       || existsb (fun n => String.eqb f (n +:+ ".blf")
                                            || String.eqb f (n +:+ ".png"))
                            (elements (baseline_names l)))%bool = true)
               (remove_dups (readdir w))).
      { apply list_elem_of_filter. split; [|exact Hin].
        rewrite Ex. apply String.eqb_neq in E1, E2. now rewrite E1, E2. }
      rewrite Hout in Hk. now apply not_elem_of_nil in Hk.
Qed.

(** What a run that resolves to [true] has gone through. *)
Lemma run_tests_ok :
  ok (run_tests cfg w) = true ->
  exists evs top_level ts l,
    discover cfg w = (evs, inr top_level)
    /\ filtered cfg (Js.items (shuffled cfg w top_level)) = inr ts
    /\ some_not_skipped ts = Some true
    /\ l = run_loop cfg w top_level O ts
             (mk_loop ∅ O O [] (evs ++ (if randomize cfg
                                        then [Log ("randomizing with seed "
                                                   +:+ number_to_string (seed_of cfg w))]
                                        else [])) None)
    /\ loop_thrown l = None
    /\ snd (finalize cfg w l) = None
    /\ cases (run_tests cfg w) = processed l.
Proof.
  unfold run_tests.
  destruct (discover cfg w) as [evs [t|top_level]].
  - destruct t; discriminate.
  - unfold run_suite.
    destruct (filtered cfg (Js.items (shuffled cfg w top_level))) as [t0|ts] eqn:Ets;
      [destruct t0; discriminate|].
    destruct (List.length ts =? 0)%nat; [discriminate|].
    destruct (some_not_skipped ts) as [[|]|] eqn:Esome; try discriminate.
    match goal with |- context [run_loop cfg w top_level O ts ?l0] =>
      set (l := run_loop cfg w top_level O ts l0) end.
    destruct (loop_thrown l) as [t|] eqn:Et.
    + rewrite Et. destruct t; discriminate.
    + destruct (finalize cfg w l) as [evs2 t] eqn:Ef. simpl.
      destruct t as [[c|m]|]; try discriminate.
      intros _. exists evs, top_level, ts, l.
      rewrite Ef. repeat split; try reflexivity; assumption.
Qed.

(** X17: when [run_tests] resolves to [true], the suite was received, every
    test case of [test_suite] was gone through in order, one of them at
    least is not marked skip, none is marked failed or timed out, and, with
    a baselines directory, every file of it is a report or the state or
    image file of a test case of the run. *)
Theorem success_means_every_case_passed :
  ok (run_tests cfg w) = true ->
  exists evs top_level ts,
    discover cfg w = (evs, inr top_level)
    /\ filtered cfg (Js.items (shuffled cfg w top_level)) = inr ts
    /\ map (Js.slot_map (fun it => (item_suites it, item_test it))) ts
       = map (fun it => Js.elem (Some (item_suites it, item_test it)))
           (cases (run_tests cfg w))
    /\ Forall (fun it => failed (item_status it) = false) (cases (run_tests cfg w))
    /\ (exists it, In it (cases (run_tests cfg w)) /\ skip (item_test it) = false)
    /\ (is_Some (baselinesRoot cfg) ->
        forall f, In f (readdir w) -> accounted (cases (run_tests cfg w)) f).
Proof.
  intros Hok.
  destruct (run_tests_ok Hok) as (evs & top_level & ts & l & Hd & Hf & Hs & Hl & Ht & Hfin & Hc).
  exists evs, top_level, ts. rewrite Hc.
  assert (Hinv : loop_invariant l).
  { rewrite Hl. apply run_loop_invariant; [reflexivity | apply loop_invariant_start]. }
  destruct (finalize_passes l Hinv Ht Hfin) as [Hpass Hacc].
  assert (Hall : map (Js.slot_map (fun it => (item_suites it, item_test it))) ts
                 = map (fun it => Js.elem (Some (item_suites it, item_test it))) (processed l)).
  { rewrite Hl in Ht |- *.
    destruct (run_loop_goes_through_every_test_case cfg w top_level ts O _ Ht)
      as (gone & Hp & Hm).
    rewrite Hp. exact Hm. }
  split; [exact Hd|]. split; [exact Hf|]. split; [exact Hall|].
  split; [exact Hpass|]. split; [|exact Hacc].
  (* a test case that is not marked skip *)
  clear - Hs Hall. revert Hall. generalize (processed l). intros gone.
  revert gone. induction ts as [|[|[it|]] ts IH]; intros gone; simpl in *;
    try discriminate.
  - destruct gone as [|g gone]; [discriminate|]. simpl. discriminate.
  - destruct gone as [|g gone]; [discriminate|]. simpl. intros [= E1 E2 Hm].
    destruct (skip (item_test it)) eqn:Esk; simpl in Hs.
    + destruct (IH Hs gone Hm) as (it' & Hin & Hsk). exists it'. split; [now right | exact Hsk].
    + exists g. split; [now left|]. unfold item_test in *. simpl in *. congruence.
Qed.

(** X18: with a baselines directory, a file of it that is no report and
    does not end with [.blf] or [.png] makes [run_tests] resolve to
    [false], whatever the tests give. *)
Theorem stray_file_fails_the_run (root f : string) :
  baselinesRoot cfg = Some root ->
  In f (readdir w) ->
  f <> "report.json" -> f <> "report.out" ->
  ends_with ".blf" f = false -> ends_with ".png" f = false ->
  ok (run_tests cfg w) = false.
Proof.
  intros Hroot Hin H1 H2 Hb Hp.
  destruct (ok (run_tests cfg w)) eqn:Hok; [exfalso|reflexivity].
  destruct (run_tests_ok Hok) as (evs & top_level & ts & l & _ & _ & _ & Hl & Ht & Hfin & _).
  assert (Hinv : loop_invariant l).
  { rewrite Hl. apply run_loop_invariant; [reflexivity | apply loop_invariant_start]. }
  destruct (finalize_passes l Hinv Ht Hfin) as [_ Hacc].
  destruct (Hacc (ex_intro _ root Hroot) f Hin) as [E|[E|(it & _ & [E|E])]];
    try contradiction; subst f.
  - now rewrite ends_with_append in Hb.
  - now rewrite ends_with_append in Hp.
Qed.

End SuccessFacts.

(** ** A run without a fault *)

Section CleanRun.

Import Suites Runner.

Context `{Collaborators}.

Variables (cfg : Config) (w : World).




(** X20: when the page cannot be set up, the run resolves to [false]
    without going through a test case or calling [run_test]; the
    exceptions received while the page loaded are printed in order; and a
    connection that fails is reported as an internal error.  When the
    page is set up, the suite received is the one the page gave. *)
Theorem setup_failure_runs_no_test :
  (page_ready w = false ->
   ok (run_tests cfg w) = false
   /\ cases (run_tests cfg w) = []
   /\ calls (observed (run_tests cfg w)) = []
   /\ (connect_error w = None -> navigate_error w = None ->
       exists evs msg,
         observed (run_tests cfg w)
         = map (fun exc => Log (text exc)) (load_exceptions w) ++ evs ++ [Log msg])
   /\ (forall e, connect_error w = Some e ->
         observed (run_tests cfg w) = [Log ("INTERNAL ERROR: " +:+ e)]))
  /\ (page_ready w = true ->
      exists evs top, top_level_output w = Value top
                      /\ discover cfg w = (evs, inr top)).
Proof.
  unfold page_ready, run_tests, discover, fail.
  destruct (connect_error w) as [e|]; simpl.
  { split; [intros _|discriminate].
    repeat split; try reflexivity; [discriminate|]. now intros e' [= <-]. }
  destruct (navigate_error w) as [e|]; simpl.
  { split; [intros _|discriminate].
    repeat split; try reflexivity; [|discriminate].
    intros _; discriminate. }
  destruct (load_exceptions w) as [|x xs]; simpl.
  2:{ split; [intros _|discriminate].
      repeat split; try reflexivity; [| |discriminate].
      - rewrite calls_app. simpl. rewrite app_nil_r.
        apply calls_none. apply List.Forall_forall. intros ev Hin.
        apply in_map_iff in Hin. now destruct Hin as (y & <- & _).
      - intros _ _. exists [], ("failed to load " +:+ target cfg). reflexivity. }
  destruct (ready_output w) as [[|]|t|]; simpl.
  2,3,4: split; [intros _|discriminate];
    (repeat split; try reflexivity; [|discriminate]);
    intros _ _; eexists [_; _], _; reflexivity.
  destruct (top_level_output w) as [top|t|]; simpl.
  - split; [discriminate|]. intros _. now eexists _, top.
  - split; [intros _|discriminate].
    repeat split; try reflexivity; [|discriminate].
    intros _ _. eexists [_; _; _], _. reflexivity.
  - split; [intros _|discriminate].
    repeat split; try reflexivity; [|discriminate].
    intros _ _. eexists [_; _; _], _. reflexivity.
Qed.

End CleanRun.

(** ** The markers of [LRTBGL] *)

Section MarkerFacts.

Import Lrtb.

Lemma add_finite (x y : Js.number) :
  is_finite (add x y) = true -> is_finite x = true /\ is_finite y = true.
Proof.
  destruct x as [sx|sx| |sx mx ex], y as [sy|sy| |sy my ey]; simpl;
    try discriminate; try (now split);
    destruct sx, sy; simpl; try discriminate; now split.
Qed.

Lemma add_comm (x y : Js.number) : add x y = add y x.
Proof.
  destruct x as [sx|sx| |sx mx ex], y as [sy|sy| |sy my ey]; simpl;
    try reflexivity; try (destruct sx, sy; reflexivity).
  unfold add, SFadd. rewrite (Z.min_comm ey ex). f_equal. apply Z.add_comm.
Qed.

Lemma abs_binary_round (s : bool) (m : positive) (e : Z) :
  SFabs (binary_round Js.prec Js.emax s m e)
  = SFabs (binary_round Js.prec Js.emax (negb s) m e).
Proof.
  unfold binary_round.
  destruct (shl_align m e _) as [mz ez].
  unfold binary_round_aux.
  destruct (shr_fexp Js.prec Js.emax (Z.pos mz) ez loc_Exact) as [mrs' e'].
  destruct (shr_fexp Js.prec Js.emax _ e' loc_Exact) as [mrs'' e''].
  destruct (shr_m mrs''); [reflexivity| |reflexivity].
  now destruct (e'' <=? Js.emax - Js.prec).
Qed.

Lemma abs_sub_comm (x y : Js.number) : SFabs (sub x y) = SFabs (sub y x).
Proof.
  destruct x as [sx|sx| |sx mx ex], y as [sy|sy| |sy my ey]; simpl;
    try reflexivity; try (destruct sx, sy; reflexivity).
  unfold sub, SFsub. rewrite (Z.min_comm ey ex).
  set (a := cond_Zopp sx (Z.pos (fst (shl_align mx ex (Z.min ex ey))))).
  set (b := cond_Zopp sy (Z.pos (fst (shl_align my ey (Z.min ex ey))))).
  replace (b - a) with (- (a - b)) by lia.
  destruct (a - b) as [|p|p]; simpl; [reflexivity| |].
  - apply (abs_binary_round false).
  - apply (abs_binary_round true).
Qed.

Variable missing_point : Js.number.

(** X21: a marker is all there or all missing: when one of its four
    coordinates is NaN, infinite or not there at all, the two centre
    entries, at [2*i] and [2*i+1], the height and the width are all
    [missing_point]. *)
Theorem marker_without_finite_coordinates_is_missing
    (nmarkers : nat) (sleft sright stop sbottom : list Js.number) (i : nat) :
  (i < nmarkers)%nat ->
  is_finite (read sleft i) && is_finite (read sright i)
  && is_finite (read stop i) && is_finite (read sbottom i) = false ->
  let ms := set_data missing_point nmarkers sleft sright stop sbottom in
  nth_error (centers_array ms) (2 * i) = Some missing_point
  /\ nth_error (centers_array ms) (2 * i + 1) = Some missing_point
  /\ nth_error (heights_array ms) i = Some missing_point
  /\ nth_error (widths_array ms) i = Some missing_point.
Proof.
  intros Hi Hnot ms.
  assert (Hnth : forall (l : list Marker) k m, nth_error l k = Some m ->
            nth_error (centers_array l) (2 * k) = Some (center_x m)
            /\ nth_error (centers_array l) (2 * k + 1) = Some (center_y m)).
  { induction l as [|m0 l IH]; intros [|k] m Hk; simpl in *; try discriminate.
    - injection Hk as ->. now split.
    - replace (k + S (k + 0))%nat with (S (2 * k)) by lia.
      replace (k + S (k + 0) + 1)%nat with (S (2 * k + 1)) by lia.
      simpl. now apply IH. }
  set (m := marker missing_point (read sleft i) (read sright i) (read stop i) (read sbottom i)).
  assert (Hm : nth_error ms i = Some m).
  { unfold ms, set_data. rewrite nth_error_map, nth_error_seq.
    apply Nat.ltb_lt in Hi. now rewrite Hi. }
  assert (Hmiss : m = mk_marker missing_point missing_point missing_point missing_point).
  { unfold m, marker.
    destruct (is_finite (add (add (add (read sleft i) (read sright i)) (read stop i))
                           (read sbottom i))) eqn:Hfin; [|reflexivity].
    apply add_finite in Hfin. destruct Hfin as [Hfin Hb].
    apply add_finite in Hfin. destruct Hfin as [Hfin Ht].
    apply add_finite in Hfin. destruct Hfin as [Hl Hr].
    rewrite Hl, Hr, Ht, Hb in Hnot. discriminate. }
  destruct (Hnth ms i m Hm) as [Hx Hy].
  rewrite Hx, Hy. unfold heights_array, widths_array.
  rewrite !nth_error_map, Hm, Hmiss. simpl. now repeat split.
Qed.

(** X22: the left and the right side of a marker can be exchanged: the
    test for a missing point, the centre, the height and the width come
    out the same. *)
Theorem left_and_right_can_be_exchanged (l r t b : Js.number) :
  marker missing_point l r t b = marker missing_point r l t b.
Proof.
  unfold marker. rewrite (add_comm l r), (abs_sub_comm r l). reflexivity.
Qed.

End MarkerFacts.

(** * Witnesses of the further properties *)

Section FurtherWitnesses.

Import Suites Runner Examples MoreExamples.

Lemma generator_stays_in_range_witness :
  Js.to_Z (Js.of_Z 42) = Some 42
  /\ in_range (Nat.iter 3 (fun r => snd (Random.integer r)) (Random.new (Js.of_Z 42))).
Proof.
  assert (Hz : Js.to_Z (Js.of_Z 42) = Some 42) by reflexivity.
  split; [exact Hz|].
  destruct (generator_stays_in_range (Js.of_Z 42) 42 3 Hz) as (_ & Hr & _).
  apply Hr. vm_compute. discriminate.
Defined.

Lemma missing_test_is_not_located_witness :
  ~ In (test_ref axis_test) (map test_ref (tests (snd (to_seq_suites top [glyphs]))))
  /\ snd (to_seq top [glyphs] axis_test) = -1
  /\ locate top (to_seq top [glyphs] axis_test) = None.
Proof.
  assert (Hn : ~ In (test_ref axis_test)
                    (map test_ref (tests (snd (to_seq_suites top [glyphs])))))
    by (simpl; intros [|[|[]]]; discriminate).
  split; [exact Hn|].
  exact (missing_test_is_not_located top [glyphs] axis_test Hn).
Defined.

Lemma check_version_reads_major_witness :
  major_of "HeadlessChrome/107.0.5304.87" = 107
  /\ check_version "HeadlessChrome/107.0.5304.87" = true.
Proof.
  pose proof (check_version_reads_major
                (list_ascii_of_string "Headless") (list_ascii_of_string "107")
                (list_ascii_of_string "0") (list_ascii_of_string "5304")
                (list_ascii_of_string "87") []) as Hw.
  simpl in Hw.
  destruct Hw as (Hm & Hc & _).
  - repeat constructor; discriminate.
  - split; [discriminate | repeat constructor].
  - split; [discriminate | repeat constructor].
  - split; [discriminate | repeat constructor].
  - split; [discriminate | repeat constructor].
  - split; [exact Hm | exact Hc].
Defined.

Lemma success_means_every_case_passed_witness :
  ok (run_tests config_with_baselines
        (passing_world ["report.json"; "glyphs__draws_a_line.blf"])) = true
  /\ Forall (fun it => failed (item_status it) = false)
       (cases (run_tests config_with_baselines
                 (passing_world ["report.json"; "glyphs__draws_a_line.blf"]))).
Proof.
  assert (Hok : ok (run_tests config_with_baselines
                      (passing_world ["report.json"; "glyphs__draws_a_line.blf"])) = true)
    by (vm_compute; reflexivity).
  split; [exact Hok|].
  destruct (success_means_every_case_passed _ _ Hok)
    as (evs & top_level & ts & _ & _ & _ & Hpass & _).
  exact Hpass.
Defined.

Lemma stray_file_fails_the_run_witness :
  ok (run_tests config_with_baselines (passing_world ["notes.txt"])) = false.
Proof.
  apply (stray_file_fails_the_run config_with_baselines (passing_world ["notes.txt"])
           "baselines" "notes.txt");
    [reflexivity | now left | discriminate | discriminate | reflexivity | reflexivity].
Defined.

Lemma without_baselines_directory_one_plain_call_witness :
  events (run_attempts config top [glyphs] line_test "glyphs__draws_a_line"
            (fun _ => passing) start)
  = events start ++ plain_call top [glyphs] line_test None.
Proof.
  exact (proj1 (without_baselines_directory_one_plain_call config top [glyphs] line_test
                  "glyphs__draws_a_line" (fun _ => passing) start eq_refl)).
Defined.

Lemma retry_is_asked_for_differing_baselines_only_witness :
  thrown (run_test config_with_unknown_mode top [glyphs] box_test "glyphs__draws__a__box"
            None one_pixel_off start) <> None.
Proof.
  apply (proj2 (proj2 (retry_is_asked_for_differing_baselines_only
                         config_with_unknown_mode top [glyphs] box_test
                         "glyphs__draws__a__box" None one_pixel_off start eq_refl))).
  exists "baselines", box_result. split; [reflexivity|]. split; [reflexivity|].
  split; [now eexists|]. exists "update".
  split; [reflexivity|]. split; [|split]; discriminate.
Defined.

Lemma consistent_state_is_written_then_compared_witness :
  baseline (status (run_test config_with_baselines top [glyphs] line_test
                      "glyphs__draws_a_line" None passing start))
  = Some "plot".
Proof.
  destruct (consistent_state_is_written_then_compared config_with_baselines top [glyphs]
              line_test "glyphs__draws_a_line" None passing start
              "baselines" plot_result ("plot" : @State collaborators)
              ("plot" : @State collaborators))
    as (before & after & _ & _ & Hb & _);
    [reflexivity | reflexivity | reflexivity | reflexivity | reflexivity | exact Hb].
Defined.

Lemma skipped_case_is_not_run_witness :
  loop_events (run_case config (world "Chrome/107.0.5304.87" passing) top 0
                 ([glyphs_again], skipped_line, new_status) fresh) = []
  /\ skipped_count (run_case config (world "Chrome/107.0.5304.87" passing) top 0
                      ([glyphs_again], skipped_line, new_status) fresh) = 1%nat.
Proof.
  destruct (skipped_case_is_not_run config (world "Chrome/107.0.5304.87" passing) top 0
              ([glyphs_again], skipped_line, new_status) fresh eq_refl)
    as (He & _ & Hs & _).
  split; [exact He | exact Hs].
Defined.

Lemma counters_agree_with_the_statuses_witness :
  failures (run_loop config (passing_world []) plots 0 plots_suite fresh)
  = count failed (processed (run_loop config (passing_world []) plots 0 plots_suite fresh)).
Proof.
  destruct (counters_agree_with_the_statuses config (passing_world []) plots []
              plots_suite) as (Hf & _); [vm_compute; reflexivity | exact Hf].
Defined.

Lemma unknown_screenshot_mode_stops_the_loop_witness :
  loop_thrown (run_case config_with_unknown_mode
                 (world "Chrome/107.0.5304.87" one_pixel_off) top 0
                 ([glyphs], box_test, new_status) fresh)
  = Some (Error "invalid argument --screenshot=update").
Proof.
  destruct (unknown_screenshot_mode_stops_the_loop config_with_unknown_mode
              (world "Chrome/107.0.5304.87" one_pixel_off) top 0
              ([glyphs], box_test, new_status) fresh "baselines" "update"
              box_result (0, 0, 300, 300) []) as (Ht & _);
    [ reflexivity | reflexivity | (split; [|split]; discriminate)
    | reflexivity | reflexivity | reflexivity | exact Ht ].
Defined.


Lemma float_is_in_the_unit_interval_witness :
  SFltb (fst (Random.float (Nat.iter 3 (fun r => snd (Random.integer r))
                              (Random.new (Js.of_Z 42)))))
        (Js.of_Z 1) = true.
Proof.
  refine (proj1 (proj2 (float_is_in_the_unit_interval (Js.of_Z 42) 3 _))).
  exists 42. split; [reflexivity | vm_compute; discriminate].
Defined.

Lemma shuffle_is_a_permutation_witness :
  exists l', fst (Random.shuffle (Js.of_list [line_test; box_test; skipped_line; axis_test])
                    (Random.new (Js.of_Z 42))) = Js.of_list l'
             /\ Permutation [line_test; box_test; skipped_line; axis_test] l'.
Proof.
  apply (shuffle_is_a_permutation Test [line_test; box_test; skipped_line; axis_test]
           (Js.of_Z 42)).
  - exists 42. split; [reflexivity | vm_compute; discriminate].
  - simpl. lia.
Defined.

Lemma randomizing_keeps_every_test_case_witness :
  exists l' : list TestItem,
    shuffled config_with_keyword (world "Chrome/107.0.5304.87" passing) top = Js.of_list l'
    /\ Permutation (map (fun p => (fst p, snd p, new_status)) (iter top [])) l'.
Proof.
  destruct (randomizing_keeps_every_test_case config_with_keyword
              (world "Chrome/107.0.5304.87" passing) top) as (l' & E & P & _).
  - right. exists 42. split; [reflexivity | vm_compute; discriminate].
  - simpl. lia.
  - exists l'. split; [exact E | exact P].
Defined.

Lemma marker_without_finite_coordinates_witness :
  nth_error
    (Lrtb.heights_array
       (Lrtb.set_data (Js.of_Z (-10000)) 2
          [Js.of_Z 1; Js.of_Z 5] [Js.of_Z 3; S754_infinity false]
          [Js.of_Z 2; Js.of_Z 6] [Js.of_Z 4]))
    1
  = Some (Js.of_Z (-10000)).
Proof.
  destruct (marker_without_finite_coordinates_is_missing (Js.of_Z (-10000)) 2
              [Js.of_Z 1; Js.of_Z 5] [Js.of_Z 3; S754_infinity false]
              [Js.of_Z 2; Js.of_Z 6] [Js.of_Z 4] 1) as (_ & _ & Hh & _);
    [lia | reflexivity | exact Hh].
Defined.

End FurtherWitnesses.
